(** * mygit: a content-addressable object store

    A shallow embedding of [cmd/mygit/main.go]: the object pipeline
    ([createObject], [compressContent], [writeObject],
    [readAndDecompressFile]), the recursive tree builder
    ([createTreeObjects]), the commit builder ([commitTree]), the readers
    ([catFile], [lsTree]), [initRepository] and the dispatch of [main],
    with the properties of the object format and of the commands proved
    over them.

    Go values are modelled as the program has them: [[]byte] is
    [list byte], [string] is [string] (a Go string is an arbitrary byte
    sequence, and so is a Rocq one), the conversions [[]byte(s)] and
    [string(b)] are written out.  [os.Exit] and run-time panics are
    results of the command monad, next to a normal return; what goes to
    the standard error is not kept. *)

From Stdlib Require Import ZArith Strings.Byte String Ascii DecimalString.
From stdpp Require Import gmap strings list sorting.

Local Open Scope Z_scope.

(** ** Byte sequences *)

(** [[]byte(s)] and [string(b)]. *)
Definition bytes_of_string (s : string) : list byte := list_byte_of_string s.
Definition string_of_bytes (b : list byte) : string := string_of_list_byte b.

#[global] Instance byte_eq_dec : EqDecision byte := Byte.byte_eq_dec.

Definition byte_to_Z (b : byte) : Z := Z.of_N (Byte.to_N b).

(** The low eight bits of [z], as a byte: Go's [byte(z)]. *)
Definition byte_of_Z (z : Z) : byte :=
  default x00 (Byte.of_N (Z.to_N (Z.land z 0xFF))).

(** ** crypto/sha1

    [sha1.Sum], after FIPS 180-4 and the generic block function of the Go
    library: 32-bit words are [Z] with the wrap-around written out. *)
Module SHA1.

Definition mask32 (x : Z) : Z := Z.land x 0xFFFFFFFF.
Definition add32 (x y : Z) : Z := mask32 (x + y).
Definition not32 (x : Z) : Z := Z.lxor x 0xFFFFFFFF.

(** [bits.RotateLeft32]. *)
Definition RotateLeft32 (x : Z) (k : Z) : Z :=
  mask32 (Z.lor (Z.shiftl x k) (Z.shiftr x (32 - k))).

Definition _K0 : Z := 0x5A827999.
Definition _K1 : Z := 0x6ED9EBA1.
Definition _K2 : Z := 0x8F1BBCDC.
Definition _K3 : Z := 0xCA62C1D6.

Definition init0 : Z := 0x67452301.
Definition init1 : Z := 0xEFCDAB89.
Definition init2 : Z := 0x98BADCFE.
Definition init3 : Z := 0x10325476.
Definition init4 : Z := 0xC3D2E1F0.

Definition chunk : nat := 64.

(** The five chaining words [h[0..4]] of a digest. *)
Record digest := Digest { h0 : Z; h1 : Z; h2 : Z; h3 : Z; h4 : Z }.

Definition initial : digest := Digest init0 init1 init2 init3 init4.

(** Big-endian load of the 32-bit words of a block. *)
Fixpoint words (p : list byte) : list Z :=
  match p with
  | b0 :: b1 :: b2 :: b3 :: rest =>
      Z.lor (Z.lor (Z.lor (Z.shiftl (byte_to_Z b0) 24)
                          (Z.shiftl (byte_to_Z b1) 16))
                   (Z.shiftl (byte_to_Z b2) 8))
            (byte_to_Z b3)
      :: words rest
  | _ => []
  end.

(** The message schedule, latest word first: [rw] holds
    [w[i-1], w[i-2], ...] and is extended by [n] words with
    [w[i] = rotl1 (w[i-3] ^ w[i-8] ^ w[i-14] ^ w[i-16])]. *)
Fixpoint schedule (n : nat) (rw : list Z) : list Z :=
  match n with
  | O => rw
  | S n' =>
      let tmp := Z.lxor (Z.lxor (Z.lxor (nth 2 rw 0) (nth 7 rw 0))
                                (nth 13 rw 0)) (nth 15 rw 0) in
      schedule n' (RotateLeft32 tmp 1 :: rw)
  end.

(** One of the eighty rounds: [i] selects the function and constant. *)
Definition round (i : nat) (w : Z) (v : digest) : digest :=
  let '(Digest a b c d e) := v in
  let '(f, k) :=
    if (i <? 20)%nat then (Z.lor (Z.land b c) (Z.land (not32 b) d), _K0)
    else if (i <? 40)%nat then (Z.lxor (Z.lxor b c) d, _K1)
    else if (i <? 60)%nat then
      (Z.lor (Z.land (Z.lor b c) d) (Z.land b c), _K2)
    else (Z.lxor (Z.lxor b c) d, _K3) in
  let t := add32 (add32 (add32 (add32 (RotateLeft32 a 5) f) e) w) k in
  Digest t a (RotateLeft32 b 30) c d.

Fixpoint rounds (i : nat) (ws : list Z) (v : digest) : digest :=
  match ws with
  | [] => v
  | w :: ws' => rounds (S i) ws' (round i w v)
  end.

(** [blockGeneric] on one 64-byte block. *)
Definition block (dig : digest) (p : list byte) : digest :=
  let ws := rev (schedule 64 (rev (words p))) in
  let v := rounds 0 ws dig in
  Digest (add32 (h0 dig) (h0 v)) (add32 (h1 dig) (h1 v))
         (add32 (h2 dig) (h2 v)) (add32 (h3 dig) (h3 v))
         (add32 (h4 dig) (h4 v)).

(** [for len(p) >= chunk { ...; p = p[chunk:] }]; the fuel bounds the
    number of blocks and [length p] is always enough. *)
Fixpoint blocks (fuel : nat) (dig : digest) (p : list byte) : digest :=
  match fuel with
  | O => dig
  | S fuel' =>
      if (length p <? chunk)%nat then dig
      else blocks fuel' (block dig (take chunk p)) (drop chunk p)
  end.

(** Big-endian store of the low [n] bytes of [x]. *)
Fixpoint be_bytes (n : nat) (x : Z) : list byte :=
  match n with
  | O => []
  | S n' => byte_of_Z (Z.shiftr x (8 * Z.of_nat n')) :: be_bytes n' x
  end.

(** Padding: [0x80], zeros up to 56 mod 64, the bit length on 8 bytes. *)
Definition pad (msg : list byte) : list byte :=
  let len := length msg in
  let zeros := ((119 - len `mod` 64) `mod` 64)%nat in
  msg ++ x80 :: replicate zeros x00 ++ be_bytes 8 (8 * Z.of_nat len).

Definition Sum (data : list byte) : list byte :=
  let p := pad data in
  let d := blocks (length p) initial p in
  be_bytes 4 (h0 d) ++ be_bytes 4 (h1 d) ++ be_bytes 4 (h2 d)
    ++ be_bytes 4 (h3 d) ++ be_bytes 4 (h4 d).

Definition Size : nat := 20.

End SHA1.

Arguments SHA1.Sum : simpl never.

(** ** encoding/hex *)

Definition hextable : list ascii :=
  list_ascii_of_string "0123456789abcdef".

Definition hex_digit (n : Z) : ascii :=
  nth (Z.to_nat n) hextable "0"%char.

(** [hex.EncodeToString]: two lower-case digits per byte. *)
Fixpoint hex_EncodeToString (src : list byte) : string :=
  match src with
  | [] => EmptyString
  | b :: rest =>
      String (hex_digit (Z.shiftr (byte_to_Z b) 4))
        (String (hex_digit (Z.land (byte_to_Z b) 0x0F))
           (hex_EncodeToString rest))
  end.

(** ** fmt *)

(** The verb [%d] (and [%v]) on a length: its decimal digits. *)
Definition fmt_d (n : nat) : string :=
  NilZero.string_of_uint (N.to_uint (N.of_nat n)).

(** ** strings *)

Definition NUL : string := String "000"%char EmptyString.
Definition LF : string := String "010"%char EmptyString.

(** [s[:n]] and [s[n:]]: a slice bound past the end of the string is a
    run-time panic, rendered as [None]. *)
Definition slice_to (s : string) (n : nat) : option string :=
  if (n <=? String.length s)%nat then Some (substring 0 n s) else None.

Definition slice_from (s : string) (n : nat) : option string :=
  if (n <=? String.length s)%nat
  then Some (substring n (String.length s - n) s) else None.

(** [strings.Cut] at the first occurrence of a one-byte separator. *)
Fixpoint strings_Cut (s : string) (sep : ascii) : option (string * string) :=
  match s with
  | EmptyString => None
  | String c rest =>
      if Ascii.eqb c sep then Some (EmptyString, rest)
      else match strings_Cut rest sep with
           | Some (before, after) => Some (String c before, after)
           | None => None
           end
  end.

(** [strings.SplitN(s, sep, 2)] for a one-byte separator: the text before
    and after the first separator, or [s] alone when there is none. *)
Definition strings_SplitN_2 (s : string) (sep : ascii) : list string :=
  match strings_Cut s sep with
  | Some (before, after) => [before; after]
  | None => [s]
  end.

(** The comparison [a < b] of two Go strings: bytewise, lexicographic. *)
Definition string_lt (a b : string) : bool := String.ltb a b.

(** ** sort

    [insertionSortLessFunc], the routine [sort.Slice] runs on a slice of
    at most twelve elements: element [i] is swapped leftwards while it is
    less than its left neighbour.  [rp] is the part already sorted, last
    element first. *)
Fixpoint insert_left {A} (less : A -> A -> bool) (x : A) (rp : list A) : list A :=
  match rp with
  | [] => [x]
  | y :: rp' => if less x y then y :: insert_left less x rp' else x :: y :: rp'
  end.

Definition insertionSort {A} (less : A -> A -> bool) (data : list A) : list A :=
  rev (fold_left (fun rp x => insert_left less x rp) data []).

(** What [sort.Slice] asks of [less]: a strict weak ordering. *)
Record StrictWeakOrder {A} (less : A -> A -> bool) : Prop := {
  swo_irrefl : forall a, less a a = false;
  swo_trans : forall a b c, less a b = true -> less b c = true -> less a c = true;
  swo_incomparable :
    forall a b c, less a b = false -> less b c = false -> less a c = false
}.

(** ** The Go library behind the program

    Three library routines are taken by their documented contract rather
    than bit for bit:
    - [compress/zlib]: [zlib_stream x] is the complete stream a [Writer]
      has emitted once [x] was written and the writer closed,
      [zlib_pending x] whatever it has emitted before [Close];
      [zlib_NewReader] tells whether the two-byte header is accepted and
      [zlib_ReadAll] gives the bytes [io.ReadAll] gets out of the reader
      and whether it met an error.  The reader inverts the writer.
    - [sort.Slice]: the result is a permutation of the slice, in which no
      element is less than an earlier one (the sort is not stable).
    - [strings.ToLower]: the Unicode lower-case mapping. *)
Class GoLib := {
  zlib_stream : list byte -> list byte;
  zlib_pending : list byte -> list byte;
  zlib_NewReader : list byte -> bool;
  zlib_ReadAll : list byte -> list byte * bool;
  zlib_NewReader_stream : forall x, zlib_NewReader (zlib_stream x) = true;
  zlib_ReadAll_stream : forall x, zlib_ReadAll (zlib_stream x) = (x, false);
  sort_Slice : forall {A}, (A -> A -> bool) -> list A -> list A;
  sort_Slice_Permutation :
    forall A (less : A -> A -> bool) l, sort_Slice less l ≡ₚ l;
  sort_Slice_Sorted :
    forall A (less : A -> A -> bool) l,
      StrictWeakOrder less ->
      StronglySorted (fun a b => less b a = false) (sort_Slice less l);
  strings_ToLower : string -> string
}.

(** ** The file system

    A path is the list of its elements.  The working tree is what the
    tree walk reads: a file with its contents ([None] when [os.ReadFile]
    fails on it: unreadable, a dangling link), or a directory with its
    entries in the order the operating system lists them and, when
    reading the directory fails, the number of entries listed before the
    error ([Some 0]: the directory cannot be opened).  [files] holds what
    lies below [.git], where the program writes.  The two are kept apart:
    the walk never enters a directory named [.git], so nothing it reads
    is changed by what the program writes. *)
Abbreviation path := (list string).

Inductive fnode :=
| FDir
| FFile (data : list byte).

#[warnings="-register-all"] Inductive node :=
| File (contents : option (list byte))
| Dir (children : list (string * node)) (fault : option nat).

Record world := World {
  Args : list string;
  worktree : node;
  files : gmap path fnode;
  stdout : string
}.

Definition set_files (f : gmap path fnode) (w : world) : world :=
  World (Args w) (worktree w) f (stdout w).

Definition set_stdout (o : string) (w : world) : world :=
  World (Args w) (worktree w) (files w) o.

(** ** Commands

    A command runs on the world and returns normally, stops the process
    with [os.Exit], or panics; the world it leaves is kept in each case. *)
Inductive result (A : Type) :=
| Ret (a : A)
| Exit (code : Z)
| Panic.
Arguments Ret {A} a.
Arguments Exit {A} code.
Arguments Panic {A}.

Definition M (A : Type) : Type := world -> result A * world.

Definition ret {A} (a : A) : M A := fun w => (Ret a, w).

Definition bind {A B} (m : M A) (k : A -> M B) : M B :=
  fun w =>
    match m w with
    | (Ret a, w') => k a w'
    | (Exit c, w') => (Exit c, w')
    | (Panic, w') => (Panic, w')
    end.

#[global] Instance M_ret : MRet M := @ret.
#[global] Instance M_bind : MBind M := fun A B k m => bind m k.

Definition os_Exit {A} (code : Z) : M A := fun w => (Exit code, w).
Definition panic {A} : M A := fun w => (Panic, w).

(** An index or slice expression: the value, or a panic. *)
Definition checked {A} (o : option A) : M A :=
  match o with
  | Some a => ret a
  | None => panic
  end.

(** A call that changes the files below [.git]; when it returns an error
    the caller reports it on the standard error and leaves with
    [os.Exit(1)]. *)
Definition or_exit (call : gmap path fnode -> option (gmap path fnode)) : M unit :=
  fun w =>
    match call (files w) with
    | Some fs => (Ret tt, set_files fs w)
    | None => (Exit 1, w)
    end.

(** [os.Args], and the node of the working tree that the path ["."] names. *)
Definition os_Args : M (list string) := fun w => (Ret (Args w), w).
Definition current_directory : M node := fun w => (Ret (worktree w), w).

Definition fmt_Print (s : string) : M unit :=
  fun w => (Ret tt, set_stdout (stdout w ++ s) w).

Definition fmt_Println (s : string) : M unit := fmt_Print (s ++ LF).

(** ** path/filepath and os *)

(** [filepath.Join dir elem...] for elements without separators: empty
    elements are ignored. *)
Definition filepath_Join (dir : path) (elems : list string) : path :=
  dir ++ filter (fun e => e <> EmptyString) elems.

Definition is_dir (fs : gmap path fnode) (p : path) : bool :=
  match p with
  | [] => true
  | _ => match fs !! p with
         | Some FDir => true
         | _ => false
         end
  end.

(** [os.MkdirAll]: walks down from the current directory and creates the
    directories that are missing; a file in the way is an error.  (When
    a file is in the way the directories above it exist already, so an
    error leaves nothing half made.) *)
Fixpoint mkdir_all (prefix : path) (elems : list string)
    (fs : gmap path fnode) : option (gmap path fnode) :=
  match elems with
  | [] => Some fs
  | d :: rest =>
      let p := prefix ++ [d] in
      match fs !! p with
      | Some FDir => mkdir_all p rest fs
      | Some (FFile _) => None
      | None => mkdir_all p rest (<[p := FDir]> fs)
      end
  end.

Definition os_MkdirAll (p : path) (fs : gmap path fnode)
    : option (gmap path fnode) :=
  mkdir_all [] p fs.

(** [os.WriteFile]: creates or truncates the file; fails on a directory
    and when the parent is not a directory. *)
Definition os_WriteFile (p : path) (data : list byte)
    (fs : gmap path fnode) : option (gmap path fnode) :=
  match fs !! p with
  | Some FDir => None
  | _ => if is_dir fs (removelast p) then Some (<[p := FFile data]> fs)
         else None
  end.

(** [os.ReadFile] below [.git]. *)
Definition os_ReadFile (p : path) (fs : gmap path fnode)
    : option (list byte) :=
  match fs !! p with
  | Some (FFile data) => Some data
  | _ => None
  end.

(** [os.ReadFile] on the working-tree node a path names. *)
Definition os_ReadFile_node (n : node) : option (list byte) :=
  match n with
  | File contents => contents
  | Dir _ _ => None
  end.

(** The node a working-tree path names, if any. *)
Fixpoint node_at (n : node) (p : path) : option node :=
  match p with
  | [] => Some n
  | d :: rest =>
      match n with
      | Dir children _ =>
          match find (fun c => String.eqb (fst c) d) children with
          | Some (_, child) => node_at child rest
          | None => None
          end
      | File _ => None
      end
  end.

Definition node_IsDir (n : node) : bool :=
  match n with
  | Dir _ _ => true
  | File _ => false
  end.

(** ** compress/zlib and bytes.Buffer

    A [zlib.Writer] over a buffer: the data written so far and whether
    the writer was closed; the buffer holds the complete stream only
    after [Close]. *)
Record zlib_Writer := ZlibWriter { written : list byte; closed : bool }.

Definition zlib_NewWriter : zlib_Writer := ZlibWriter [] false.

Definition Writer_Write (z : zlib_Writer) (p : list byte) : zlib_Writer :=
  if closed z then z else ZlibWriter (written z ++ p) false.

Definition Writer_Close (z : zlib_Writer) : zlib_Writer :=
  ZlibWriter (written z) true.

Section Program.
Context `{GoLib}.

Definition Buffer_Bytes (z : zlib_Writer) : list byte :=
  if closed z then zlib_stream (written z) else zlib_pending (written z).

(** ** The program *)

Definition objectsDir : path := [".git"; "objects"].

Definition compressContent (content : list byte) : list byte :=
  let writer := zlib_NewWriter in
  let writer := Writer_Write writer content in
  let writer := Writer_Close writer in
  Buffer_Bytes writer.

Definition writeObject (hash : list byte) (content : list byte) : M unit :=
  let hashString := hex_EncodeToString hash in
  head2 ← checked (slice_to hashString 2);
  let objectFileDir := filepath_Join objectsDir [head2] in
  rest ← checked (slice_from hashString 2);
  let objectFilePath := filepath_Join objectFileDir [rest] in
  _ ← or_exit (os_MkdirAll objectFileDir);
  or_exit (os_WriteFile objectFilePath content).

(** [fmt.Sprintf("%s %d\x00%s", objectType, len(content), content)]. *)
Definition object_payload (objectType : string) (content : list byte) : string :=
  objectType ++ " " ++ fmt_d (length content) ++ NUL ++ string_of_bytes content.

Definition createObject (objectType : string) (content : list byte)
    : M (list byte) :=
  let objectContent := object_payload objectType content in
  let hash := SHA1.Sum (bytes_of_string objectContent) in
  let compressedContent := compressContent (bytes_of_string objectContent) in
  _ ← writeObject hash compressedContent;
  mret hash.

(** [fp] is the working-tree node the path names. *)
Definition createFileBlobObject (fp : node) : M (list byte) :=
  match os_ReadFile_node fp with
  | None => os_Exit 1
  | Some fileBytes => createObject "blob" fileBytes
  end.

Definition readAndDecompressFile (filePath : path) : M string :=
  fun w =>
    match os_ReadFile filePath (files w) with
    | None => (Exit 1, w)
    | Some fileBytes =>
        if zlib_NewReader fileBytes
        then let '(decompressedBytes, _) := zlib_ReadAll fileBytes in
             (Ret (string_of_bytes decompressedBytes), w)
        else (Exit 1, w)
    end.

Definition catFile (blobSHA : string) : M unit :=
  head2 ← checked (slice_to blobSHA 2);
  rest ← checked (slice_from blobSHA 2);
  let blobPath := filepath_Join objectsDir [head2; rest] in
  content ← readAndDecompressFile blobPath;
  blobContent ← checked (strings_SplitN_2 content "000"%char !! 1%nat);
  fmt_Print blobContent.

Definition hashObject (filename : path) : M unit :=
  fun w =>
    match node_at (worktree w) filename ≫= os_ReadFile_node with
    | None => (Exit 1, w)
    | Some fileBytes =>
        (hash ← createObject "blob" fileBytes;
         fmt_Println (hex_EncodeToString hash)) w
    end.

Definition initRepository : M unit :=
  fun w =>
    let mk dir fs := default fs (os_MkdirAll dir fs) in
    let fs := mk [".git"; "refs"] (mk [".git"; "objects"] (mk [".git"] (files w))) in
    let headFileContents := bytes_of_string ("ref: refs/heads/main" ++ LF) in
    let fs := default fs (os_WriteFile [".git"; "HEAD"] headFileContents fs) in
    fmt_Println "Initialized git directory" (set_files fs w).

(** *** The tree builder *)

(** An [os.DirEntry] of the walk.  [target] is the node that
    [filepath.Join(path, entry.Name())] names and [subtree] the call
    [createTreeObjects(entryPath)] on it, which the loop runs for a
    subdirectory. *)
Record DirEntry := {
  Name : string;
  target : node;
  subtree : M (list byte)
}.

Definition IsDir (entry : DirEntry) : bool := node_IsDir (target entry).

Record HashedEntry := {
  mode : string;
  name : string;
  hash : list byte
}.

(** [os.ReadDir]: the entries the directory yields, up to the fault if
    there is one, sorted by file name; the error is given back with
    them. *)
Definition os_ReadDir (listing : list DirEntry) (fault : option nat)
    : list DirEntry * bool :=
  let seen := match fault with
              | Some k => take k listing
              | None => listing
              end in
  (insertionSort (fun a b => string_lt (Name a) (Name b)) seen,
   bool_decide (is_Some fault)).

(** The comparison handed to [sort.Slice]. *)
Definition entry_less (a b : DirEntry) : bool :=
  string_lt (strings_ToLower (Name a)) (strings_ToLower (Name b)).

(** [for _, entry := range entries { ... }]. *)
Fixpoint range_entries (entries : list DirEntry)
    (hashedEntries : list HashedEntry) : M (list HashedEntry) :=
  match entries with
  | [] => mret hashedEntries
  | entry :: rest =>
      if IsDir entry then
        if String.eqb (Name entry) ".git" then
          range_entries rest hashedEntries
        else
          h ← subtree entry;
          let he := {| name := Name entry; mode := "40000"; hash := h |} in
          range_entries rest (hashedEntries ++ [he])
      else
        h ← createFileBlobObject (target entry);
        let he := {| name := Name entry; mode := "100644"; hash := h |} in
        range_entries rest (hashedEntries ++ [he])
  end.

(** [fmt.Sprintf("%v %v\x00%v", he.mode, he.name, string(he.hash))]. *)
Definition format_entry (he : HashedEntry) : string :=
  mode he ++ " " ++ name he ++ NUL ++ string_of_bytes (hash he).

(** [path] is the working-tree node the path names.  On anything but a
    directory [os.ReadDir] fails; its error is dropped in either case. *)
Fixpoint createTreeObjects (path : node) : M (list byte) :=
  let '(entries, _) :=
    match path with
    | Dir children fault =>
        os_ReadDir
          (map (fun c => {| Name := fst c; target := snd c;
                            subtree := createTreeObjects (snd c) |})
               children)
          fault
    | File _ => ([], true)
    end in
  let entries := sort_Slice entry_less entries in
  hashedEntries ← range_entries entries [];
  let treeObjectContent :=
    fold_left (fun acc he => String.append acc (format_entry he))
      hashedEntries EmptyString in
  createObject "tree" (bytes_of_string treeObjectContent).

Definition writeTree : M unit :=
  root ← current_directory;
  treeObjectHash ← createTreeObjects root;
  fmt_Println (hex_EncodeToString treeObjectHash).

(** *** The commit builder *)

Definition author : string := "John Doe <john@example.com> 1631234567 -0700".
Definition committer : string := "Jane Smith <jane@example.com> 1631234789 -0700".

Definition commit_content (treeSHA parentCommitSHA commitMessage : string)
    : string :=
  let content := ("tree " ++ treeSHA ++ LF)%string in
  let content := (content ++ ("parent " ++ parentCommitSHA ++ LF))%string in
  let content := (content ++ ("author " ++ author ++ LF))%string in
  let content := (content ++ ("committer " ++ committer ++ LF))%string in
  (content ++ (LF ++ commitMessage ++ LF))%string.

Definition commitTree : M unit :=
  args ← os_Args;
  treeSHA ← checked (args !! 2%nat);
  parentCommitSHA ← checked (args !! 4%nat);
  commitMessage ← checked (args !! 6%nat);
  let content := commit_content treeSHA parentCommitSHA commitMessage in
  let header :=
    ("commit " ++ fmt_d (length (bytes_of_string content)) ++ NUL)%string in
  let payload := (header ++ content)%string in
  let hash := SHA1.Sum (bytes_of_string payload) in
  let compressedContent := compressContent (bytes_of_string payload) in
  _ ← writeObject hash compressedContent;
  fmt_Println (hex_EncodeToString hash).

End Program.

(** ** A reference library

    An instance of [GoLib] that runs: the zlib stream with stored blocks
    only (RFC 1950, RFC 1951 section 3.2.4), which is what a writer at
    level [NoCompression] emits and every reader accepts; insertion sort;
    the lower-case mapping of ASCII letters.  The program's writer runs
    at the default level and emits another stream for the same data; the
    theorems below hold for every instance, this one included. *)
Module Reference.

(** [hash/adler32]. *)
Definition adler_mod : Z := 65521.

Definition adler32_update (s : Z * Z) (b : byte) : Z * Z :=
  let a := (fst s + byte_to_Z b) mod adler_mod in
  (a, (snd s + a) mod adler_mod).

Definition adler32 (data : list byte) : list byte :=
  let '(a, b) := fold_left adler32_update data (1, 0) in
  SHA1.be_bytes 4 (Z.lor (Z.shiftl b 16) a).

Definition maxStoreBlockSize : nat := Z.to_nat 65535.

(** The data cut into blocks of at most [maxStoreBlockSize] bytes. *)
Fixpoint store_chunks (fuel : nat) (data : list byte) : list (list byte) :=
  match fuel with
  | O => []
  | S fuel' =>
      match data with
      | [] => []
      | _ => take maxStoreBlockSize data
             :: store_chunks fuel' (drop maxStoreBlockSize data)
      end
  end.

(** The header of a stored block: BFINAL, BTYPE = 00, LEN and its
    one's complement, low byte first. *)
Definition writeStoredHeader (len : Z) (isEof : bool) : list byte :=
  [ (if isEof then x01 else x00);
    byte_of_Z len; byte_of_Z (Z.shiftr len 8);
    byte_of_Z (Z.lxor len 0xFFFF); byte_of_Z (Z.shiftr (Z.lxor len 0xFFFF) 8) ].

Definition writeStoredBlock (c : list byte) : list byte :=
  writeStoredHeader (Z.of_nat (length c)) false ++ c.

Definition deflate_stored (data : list byte) : list byte :=
  concat (map writeStoredBlock (store_chunks (length data) data))
    ++ writeStoredHeader 0 true.

Definition stream (data : list byte) : list byte :=
  [x78; x01] ++ deflate_stored data ++ adler32 data.

(** What the buffer holds before [Close]: the header and the blocks
    that are full. *)
Definition pending (data : list byte) : list byte :=
  [x78; x01]
    ++ concat (map writeStoredBlock
         (filter (fun c => bool_decide (length c = maxStoreBlockSize))
            (store_chunks (length data) data))).

(** The two header bytes: method 8, window at most 32K, a multiple of
    31, no preset dictionary. *)
Definition NewReader (s : list byte) : bool :=
  match s with
  | cmf :: flg :: _ =>
      let c := byte_to_Z cmf in
      let f := byte_to_Z flg in
      (Z.land c 0x0F =? 8) && (Z.shiftr c 4 <=? 7)
        && ((Z.lor (Z.shiftl c 8) f) mod 31 =? 0)
        && (Z.land f 0x20 =? 0)
  | _ => false
  end.

(** The blocks of a deflate stream, stored blocks only: the data, and
    what follows the final block. *)
Fixpoint inflate_stored (fuel : nat) (s : list byte)
    : option (list byte * list byte) :=
  match fuel with
  | O => None
  | S fuel' =>
      match s with
      | hdr :: l0 :: l1 :: n0 :: n1 :: rest =>
          let len := Z.lor (byte_to_Z l0) (Z.shiftl (byte_to_Z l1) 8) in
          let nlen := Z.lor (byte_to_Z n0) (Z.shiftl (byte_to_Z n1) 8) in
          if negb (Z.shiftr (byte_to_Z hdr) 1 =? 0) then None
          else if negb (nlen =? Z.lxor len 0xFFFF) then None
          else if (length rest <? Z.to_nat len)%nat then None
          else
            let data := take (Z.to_nat len) rest in
            let s' := drop (Z.to_nat len) rest in
            if Z.land (byte_to_Z hdr) 1 =? 1 then Some (data, s')
            else match inflate_stored fuel' s' with
                 | Some (more, tl) => Some (data ++ more, tl)
                 | None => None
                 end
      | _ => None
      end
  end.

(** [io.ReadAll] on the reader: the data, and whether reading ended on
    an error (a malformed block, a checksum that does not match). *)
Definition ReadAll (s : list byte) : list byte * bool :=
  match inflate_stored (length s) (drop 2 s) with
  | Some (data, trailer) =>
      (data, negb (bool_decide (trailer = adler32 data)))
  | None => ([], true)
  end.

(** [strings.ToLower] on ASCII text; other bytes are left as they are. *)
Definition lower_ascii (c : ascii) : ascii :=
  let n := nat_of_ascii c in
  if ((65 <=? n) && (n <=? 90))%nat then ascii_of_nat (n + 32) else c.

Fixpoint ToLower (s : string) : string :=
  match s with
  | EmptyString => EmptyString
  | String c rest => String (lower_ascii c) (ToLower rest)
  end.

End Reference.

(** ** The object format, in the words of the specification *)

(** The three kinds of object, and their tags. *)
Inductive ObjectKind := blob | tree | commit.

Definition kind_tag (k : ObjectKind) : string :=
  match k with
  | blob => "blob"
  | tree => "tree"
  | commit => "commit"
  end.

(** The encoded payload: the tag, a space, the decimal length of the
    content, a NUL byte, the content. *)
Definition encoded_payload (k : ObjectKind) (content : list byte) : list byte :=
  bytes_of_string (kind_tag k) ++ [" "%byte]
    ++ bytes_of_string (fmt_d (length content)) ++ [x00] ++ content.

Definition ObjectID (k : ObjectKind) (content : list byte) : list byte :=
  SHA1.Sum (encoded_payload k content).

(** [objects/<first 2 hex characters>/<remaining 38 hex characters>]
    below [.git]. *)
Definition object_path (id : list byte) : path :=
  let h := hex_EncodeToString id in
  [".git"; "objects"; substring 0 2 h; substring 2 38 h]%string.

(** [put]: the directory of the object is made, then its file written;
    [None] when the file system refuses either. *)
Definition put (id : list byte) (data : list byte) (fs : gmap path fnode)
    : option (gmap path fnode) :=
  fs' ← os_MkdirAll (removelast (object_path id)) fs;
  os_WriteFile (object_path id) data fs'.

(** The text of a commit: the [tree] line, the [parent] line, the author
    and committer lines, a blank line, the message and a newline. *)
Definition commit_text (T P m : string) : string :=
  ("tree " ++ T ++ LF
   ++ "parent " ++ P ++ LF
   ++ "author John Doe <john@example.com> 1631234567 -0700" ++ LF
   ++ "committer Jane Smith <jane@example.com> 1631234789 -0700" ++ LF
   ++ LF
   ++ m ++ LF)%string.

(** A store that takes every object: nothing but directories on the way
    to an object file, and no directory where an object file goes. *)
Definition healthy (fs : gmap path fnode) : Prop :=
  (forall d, fs !! [".git"%string] <> Some (FFile d))
  /\ (forall d, fs !! [".git"; "objects"]%string <> Some (FFile d))
  /\ (forall x d, fs !! [".git"; "objects"; x]%string <> Some (FFile d))
  /\ (forall x y, fs !! [".git"; "objects"; x; y]%string <> Some FDir).

(** What a write of the object [(id, data)] may change in the files: the
    object file itself, and directories made on the way. *)
Definition object_written (id data : list byte) (fs fs' : gmap path fnode)
    : Prop :=
  forall q, fs' !! q = fs !! q \/ fs' !! q = Some FDir
    \/ (q = object_path id /\ fs' !! q = Some (FFile data)).

(** The header check of [decode], in the words of the specification:
    there is a NUL, and what precedes it is one of the three tags, a
    space and the length of what follows it. *)
Definition well_formed_payload (payload : string) : bool :=
  match strings_Cut payload "000"%char with
  | Some (header, content) =>
      existsb
        (fun k => String.eqb header
                    (kind_tag k ++ " " ++ fmt_d (String.length content)))
        [blob; tree; commit]
  | None => false
  end.

(** The file of an object that [catFile] opens for an id given in
    hexadecimal. *)
Definition blob_path (blobSHA : string) : path :=
  filepath_Join objectsDir
    [substring 0 2 blobSHA; substring 2 (String.length blobSHA - 2) blobSHA].

(** *** Trees *)

(** The entries [os.ReadDir] yields before the fault, if there is one. *)
Definition visible (fault : option nat) (children : list (string * node))
    : list (string * node) :=
  match fault with
  | Some k => take k children
  | None => children
  end.

(** The children that get an entry: all but a directory named [.git]. *)
Definition listed (c : string * node) : Prop :=
  ~ (node_IsDir c.2 = true /\ c.1 = ".git"%string).

#[global] Instance listed_dec (c : string * node) : Decision (listed c).
Proof. unfold listed. apply _. Defined.

Definition entry_mode (child : node) : string :=
  if node_IsDir child then "40000"%string else "100644"%string.

(** The encoding of one entry: mode digits, a space, the name, a NUL, the
    20 raw bytes of the digest. *)
Definition tree_entry (c : string * node) (id : list byte) : list byte :=
  bytes_of_string (entry_mode c.2) ++ [" "%byte]
    ++ bytes_of_string c.1 ++ [x00] ++ id.

(** Every file of the tree can be read, and so can every directory. *)
Fixpoint readable (n : node) : Prop :=
  match n with
  | File contents => is_Some contents
  | Dir children fault =>
      fault = None /\ fold_right (fun c rest => readable c.2 /\ rest) True children
  end.

Section TreeFormat.
Context `{GoLib}.

(** The order of siblings: by name, in lower case. *)
Definition sibling_le (a b : string * node) : Prop :=
  string_lt (strings_ToLower b.1) (strings_ToLower a.1) = false.

(** [tree_content d content]: [content] is the concatenation, in sibling
    order and with nothing in between, of the encodings of the entries of
    the directory [d], where the entry of a subdirectory carries the id
    of the tree object with that subdirectory's content and the entry of
    anything else the id of the blob with the file's bytes. *)
Inductive tree_content : node -> list byte -> Prop :=
| tree_content_dir children fault entries ids :
    entries ≡ₚ filter listed (visible fault children) ->
    StronglySorted sibling_le entries ->
    Forall2 (fun c id => child_id c.2 id) entries ids ->
    tree_content (Dir children fault) (concat (zip_with tree_entry entries ids))
with child_id : node -> list byte -> Prop :=
| child_id_blob bytes :
    child_id (File (Some bytes)) (ObjectID blob bytes)
| child_id_tree children fault content :
    tree_content (Dir children fault) content ->
    child_id (Dir children fault) (ObjectID tree content).

(** What the program's writes may change in the files: directories made
    on the way, and object files that hold the compressed payload whose
    digest names them. *)
Definition objects_written (fs fs' : gmap path fnode) : Prop :=
  forall q, fs' !! q = fs !! q \/ fs' !! q = Some FDir
    \/ exists payload,
         q = object_path (SHA1.Sum payload)
         /\ fs' !! q = Some (FFile (compressContent payload)).

(** [w'] is [w] but for objects written. *)
Definition extends (w w' : world) : Prop :=
  exists fs', w' = set_files fs' w /\ objects_written (files w) fs'.

(** The outcome [r] of a command run on [w]: the world is [w] but for
    objects written; a normal return satisfies [Q]; the only other way
    out is [os.Exit(1)]. *)
Definition outcome {A} (w : world) (r : result A * world)
    (Q : A -> world -> Prop) : Prop :=
  extends w (snd r)
  /\ match fst r with
     | Ret a => Q a (snd r)
     | Exit code => code = 1
     | Panic => False
     end.

End TreeFormat.

Section TreeWalk.
Context `{GoLib}.

(** The directory entry of a child, and the child of a directory entry. *)
Definition entry_of (c : string * node) : DirEntry :=
  {| Name := c.1; target := c.2; subtree := createTreeObjects c.2 |}.

Definition child_of (entry : DirEntry) : string * node :=
  (Name entry, target entry).

(** The entries of a directory in the order the loop of
    [createTreeObjects] takes them. *)
Definition dir_entries (children : list (string * node)) (fault : option nat)
    : list DirEntry :=
  sort_Slice entry_less (fst (os_ReadDir (map entry_of children) fault)).

(** The [HashedEntry] the loop appends for an entry with digest [id]. *)
Definition hashed (entry : DirEntry) (id : list byte) : HashedEntry :=
  {| mode := entry_mode (target entry); name := Name entry; hash := id |}.

(** The tree object with id [id] is in the files of [w'], and its
    content is a content of the directory [dir]. *)
Definition tree_built (dir : node) (id : list byte) (w' : world) : Prop :=
  exists content,
    tree_content dir content
    /\ id = ObjectID tree content
    /\ files w' !! object_path id
       = Some (FFile (compressContent (encoded_payload tree content))).

(** What the induction on the working tree carries for a node: the run
    of [createTreeObjects] on it only writes objects and, on a directory,
    returns the id of a tree object built to the format; and on a healthy
    store and a readable tree it does return. *)
Definition walk_ok (n : node) : Prop :=
  (forall w,
     outcome w (createTreeObjects n w)
       (fun id w' => node_IsDir n = true -> tree_built n id w'))
  /\ (forall w, healthy (files w) -> readable n ->
        exists id w', createTreeObjects n w = (Ret id, w') /\ healthy (files w')).

Definition entry_ok (entry : DirEntry) : Prop :=
  subtree entry = createTreeObjects (target entry) /\ walk_ok (target entry).

End TreeWalk.

Section StoreInvariant.
Context `{GoLib}.

(** Every object file that [w'] has and [w] had not, or not with these
    bytes, lies at the path of the digest of the payload its bytes
    decompress to. *)
Definition keyed_by_digest (w w' : world) : Prop :=
  forall q data,
    files w' !! q = Some (FFile data) ->
    files w !! q <> Some (FFile data) ->
    exists payload,
      q = object_path (SHA1.Sum payload)
      /\ data = compressContent payload
      /\ zlib_NewReader data = true
      /\ zlib_ReadAll data = (payload, false).

End StoreInvariant.

(** ** Inputs of the examples *)

(** A working tree with a file and a directory that cannot be read. *)
Definition locked_tree : node :=
  Dir [("docs"%string,
        Dir [("secret.txt"%string, File (Some (bytes_of_string "s")))] (Some 0%nat));
       ("a.txt"%string, File (Some (bytes_of_string "x")))] None.

(** A working tree with a file and an empty directory. *)
Definition sample_tree : node :=
  Dir [("sub"%string, Dir [] None);
       ("a.txt"%string, File (Some (bytes_of_string "x")))] None.

Definition empty_world (t : node) (args : list string) : world :=
  World args t ∅ EmptyString.

(** The claim that a write to a location that exists is skipped, at one
    object and one world. *)
Definition write_skipped_when_present
    (hash content : list byte) (w : world) : Prop :=
  is_Some (files w !! object_path hash) ->
  snd (writeObject hash content w) = w.

Definition stale_object : list byte := [x00].
Definition fresh_object : list byte := [x01].

(** A store that holds [stale_object] where the object with the digest of
    the empty message goes. *)
Definition stale_world : world :=
  World [] (Dir [] None)
    (<[object_path (SHA1.Sum []) := FFile stale_object]>
       (<[removelast (object_path (SHA1.Sum [])) := FDir]>
          (<[[".git"; "objects"]%string := FDir]>
             (<[[".git"%string] := FDir]> ∅))))
    EmptyString.

Section Decode.
Context `{GoLib}.

(** An object whose header declares five bytes of content and has
    three, stored where [catFile] looks for the id [mislabelled_sha]. *)
Definition mislabelled_payload : string := ("blob 5" ++ NUL ++ "abc")%string.

Definition mislabelled_sha : string :=
  "0123456789abcdef0123456789abcdef01234567".

Definition mislabelled_world : world :=
  World [] (Dir [] None)
    (<[blob_path mislabelled_sha :=
         FFile (compressContent (bytes_of_string mislabelled_payload))]> ∅)
    EmptyString.

(** The claim that [decode] rejects a payload whose header is not well
    formed, at one id and one world: reading the object ends on an
    error, neither a normal return nor a panic. *)
Definition decode_rejects (blobSHA : string) (w : world) : Prop :=
  forall payload,
    readAndDecompressFile (blob_path blobSHA) w = (Ret payload, w) ->
    well_formed_payload payload = false ->
    exists code, fst (catFile blobSHA w) = Exit code.

End Decode.

(** Two listings of two files whose names differ by case only. *)
Definition listing_1 : list (string * node) :=
  [("a"%string, File (Some (bytes_of_string "x")));
   ("A"%string, File (Some (bytes_of_string "y")))].

Definition listing_2 : list (string * node) :=
  [("A"%string, File (Some (bytes_of_string "y")));
   ("a"%string, File (Some (bytes_of_string "x")))].

(** Two runs of [commitTree] that agree on the tree id, the parent id
    and the message, and on nothing else. *)
Definition commit_run_1 : world :=
  World ["mygit"; "commit-tree"; "T"; "-p"; "P"; "-m"; "init"]%string
    (Dir [] None) ∅ EmptyString.

Definition commit_run_2 : world :=
  World ["git"; "commit"; "T"; "--parent"; "P"; "--message"; "init"; "more"]%string
    sample_tree
    (<[[".git"; "HEAD"]%string := FFile []]> (<[[".git"%string] := FDir]> ∅))
    "earlier output".

(** ** The rest of the program: [lsTree] and [main] *)

(** A string cut at every character that [sep] takes: the pieces between
    the separators, empty ones included, so that [k] separators give
    [k + 1] pieces. *)
Fixpoint split_on (sep : ascii -> bool) (s : string) : list string :=
  match s with
  | EmptyString => [EmptyString]
  | String c rest =>
      if sep c then EmptyString :: split_on sep rest
      else match split_on sep rest with
           | piece :: pieces => String c piece :: pieces
           | [] => [String c EmptyString]
           end
  end.

(** What the expression [[\x00\s]] matches: NUL and the white space of
    [\s], which is tab, line feed, form feed, carriage return and
    space. *)
Definition is_separator (c : ascii) : bool :=
  existsb (Ascii.eqb c) ["000"; "009"; "010"; "012"; "013"; " "]%char.

(** [re.Split(content, -1)] for that expression. *)
Definition regexp_Split (content : string) : list string :=
  split_on is_separator content.

(** [strings.Contains]. *)
Fixpoint strings_Contains (s substr : string) : bool :=
  String.prefix substr s
  || match s with
     | EmptyString => false
     | String _ rest => strings_Contains rest substr
     end.

(** [strings.Join]. *)
Definition strings_Join (elems : list string) (sep : string) : string :=
  String.concat sep elems.

(** The elements of a file name given on the command line, for a name
    relative to the working directory and without [..]: empty elements
    and [.] name nothing. *)
Definition path_elements (name : string) : path :=
  filter (fun e => e <> EmptyString /\ e <> "."%string)
    (split_on (Ascii.eqb "/"%char) name).

Definition modes : list string := ["100644"; "100755"; "120000"; "40000"]%string.

(** [for _, mode := range modes { ... }] at one index of the outer loop
    of [lsTree]. *)
Fixpoint range_modes (ms : list string) (contentParts : list string)
    (index : nat) (filesAndDirs : list string) : M (list string) :=
  match ms with
  | [] => mret filesAndDirs
  | mode :: rest =>
      part ← checked (contentParts !! index);
      if strings_Contains part mode then
        next ← checked (contentParts !! (index + 1)%nat);
        range_modes rest contentParts index (filesAndDirs ++ [next])
      else range_modes rest contentParts index filesAndDirs
  end.

(** [for index := ...; index < len(contentParts); index++ { ... }], with
    [count] iterations left. *)
Fixpoint range_parts (count : nat) (contentParts : list string)
    (index : nat) (filesAndDirs : list string) : M (list string) :=
  match count with
  | O => mret filesAndDirs
  | S count' =>
      filesAndDirs ← range_modes modes contentParts index filesAndDirs;
      range_parts count' contentParts (S index) filesAndDirs
  end.

Section Dispatch.
Context `{GoLib}.

Definition lsTree (treeSHA : string) : M unit :=
  head2 ← checked (slice_to treeSHA 2);
  rest ← checked (slice_from treeSHA 2);
  let treeFilePath := filepath_Join objectsDir [head2; rest] in
  content ← readAndDecompressFile treeFilePath;
  let contentParts := regexp_Split content in
  filesAndDirs ← range_parts (length contentParts) contentParts 0 [];
  fmt_Println (strings_Join filesAndDirs LF).

Definition main : M unit :=
  args ← os_Args;
  if (length args <? 2)%nat then os_Exit 1
  else
    command ← checked (args !! 1%nat);
    if String.eqb command "init" then initRepository
    else if String.eqb command "cat-file" then
      if (length args <? 4)%nat then os_Exit 1
      else blobSHA ← checked (args !! 3%nat); catFile blobSHA
    else if String.eqb command "hash-object" then
      if (length args <? 4)%nat then os_Exit 1
      else filename ← checked (args !! 3%nat);
           hashObject (path_elements filename)
    else if String.eqb command "ls-tree" then
      if (length args <? 4)%nat then os_Exit 1
      else treeSHA ← checked (args !! 3%nat); lsTree treeSHA
    else if String.eqb command "write-tree" then writeTree
    else if String.eqb command "commit-tree" then commitTree
    else os_Exit 1.

End Dispatch.

(** The world [w] with other command-line arguments. *)
Definition set_Args (args : list string) (w : world) : world :=
  World args (worktree w) (files w) (stdout w).

(** A command that does not look at the command-line arguments: with
    other arguments it does the same. *)
Definition args_blind {A} (m : M A) : Prop :=
  forall args w, m (set_Args args w) = (fst (m w), set_Args args (snd (m w))).

(** A command that leaves the files as they are. *)
Definition read_only {A} (m : M A) : Prop :=
  forall w, files (snd (m w)) = files w.

(** The files [initRepository] leaves, written out: each directory is
    made unless something is there, and [HEAD] written unless a directory
    is there; with a file in the place of [.git] nothing can be done. *)
Definition head_contents : list byte :=
  bytes_of_string ("ref: refs/heads/main" ++ LF).

Definition ensure_dir (p : path) (fs : gmap path fnode) : gmap path fnode :=
  match fs !! p with
  | None => <[p := FDir]> fs
  | Some _ => fs
  end.

Definition ensure_head (fs : gmap path fnode) : gmap path fnode :=
  match fs !! [".git"; "HEAD"]%string with
  | Some FDir => fs
  | _ => <[[".git"; "HEAD"]%string := FFile head_contents]> fs
  end.

Definition init_files (fs : gmap path fnode) : gmap path fnode :=
  match fs !! [".git"%string] with
  | Some (FFile _) => fs
  | _ => ensure_head (ensure_dir [".git"; "refs"]%string
           (ensure_dir [".git"; "objects"]%string (ensure_dir [".git"%string] fs)))
  end.

(** The four paths [initRepository] works on. *)
Definition init_paths : list path :=
  [[".git"]; [".git"; "objects"]; [".git"; "refs"]; [".git"; "HEAD"]]%string.

(** Every byte of the string satisfies [P]. *)
Fixpoint string_forall (P : ascii -> bool) (s : string) : bool :=
  match s with
  | EmptyString => true
  | String c rest => P c && string_forall P rest
  end.

Definition is_digit (c : ascii) : bool :=
  existsb (Ascii.eqb c) (list_ascii_of_string "0123456789").

(** ** What [lsTree] can tell apart

    [lsTree] takes the payload for text: it cuts it at every NUL and
    white-space byte and takes for a name whatever follows a piece in
    which one of the four mode strings occurs. *)

(** No byte of the string is a separator. *)
Definition unbroken (s : string) : bool :=
  string_forall (fun c => negb (is_separator c)) s.

(** None of the mode strings occurs in the string. *)
Definition quiet (s : string) : bool :=
  forallb (fun m => negb (strings_Contains s m)) modes.

(** The first character of a mode string is [1] or [4]. *)
Definition no_mode_start (c : ascii) : bool :=
  negb (Ascii.eqb c "1") && negb (Ascii.eqb c "4").

(** A digest none of whose bytes is a separator or starts a mode
    string. *)
Definition plain_digest (h : list byte) : bool :=
  string_forall
    (fun c => negb (is_separator c) && negb (Ascii.eqb c "1") && negb (Ascii.eqb c "4"))
    (string_of_bytes h).

(** An entry that [lsTree] reads as it was written. *)
Definition listable (he : HashedEntry) : bool :=
  existsb (String.eqb (mode he)) modes
  && unbroken (name he) && quiet (name he) && plain_digest (hash he).

(** The content [createTreeObjects] builds from the hashed entries. *)
Definition tree_text (hashedEntries : list HashedEntry) : string :=
  fold_left (fun acc he => String.append acc (format_entry he))
    hashedEntries EmptyString.

(** The pieces of the entries of a tree: each digest runs into the mode
    of the next entry. *)
Fixpoint parts_after (carry : string) (entries : list HashedEntry) : list string :=
  match entries with
  | [] => [carry]
  | he :: rest =>
      (carry ++ mode he)%string :: name he
        :: parts_after (string_of_bytes (hash he)) rest
  end.

(** A working tree whose digests have no byte that [lsTree] trips on,
    and the store after [writeTree] on it. *)
Definition listing_tree : node :=
  Dir [("src"%string, Dir [] None);
       ("README"%string, File (Some (bytes_of_string "v0")))] None.

Definition listing_entries : list HashedEntry :=
  [{| mode := "100644"; name := "README";
      hash := SHA1.Sum (bytes_of_string ("blob 2" ++ NUL ++ "v0")) |};
   {| mode := "40000"; name := "src";
      hash := SHA1.Sum (bytes_of_string ("tree 0" ++ NUL)) |}].

Definition listing_id : list byte :=
  SHA1.Sum
    (bytes_of_string
       ("tree " ++ fmt_d (String.length (tree_text listing_entries)) ++ NUL
        ++ tree_text listing_entries)).

(** A working tree with a file that ends in a mode string. *)
Definition modes_tree : node :=
  Dir [("notes"%string, File (Some (bytes_of_string "mode 40000")))] None.

Definition modes_id : list byte :=
  SHA1.Sum (bytes_of_string ("blob 10" ++ NUL ++ "mode 40000")).

(** ** What a command may change *)

(** Every run of the command relates the world it finds to the world it
    leaves by [R]. *)
Definition keeps (R : world -> world -> Prop) {A} (m : M A) : Prop :=
  forall w, R w (snd (m w)).

(** Files that differ only below [.git], by entries added and files
    rewritten. *)
Definition files_grow (fs fs' : gmap path fnode) : Prop :=
  forall q,
    fs' !! q = fs !! q
    \/ ((exists rest, q = ".git"%string :: rest)
        /\ (fs !! q = None
            \/ exists d d', fs !! q = Some (FFile d) /\ fs' !! q = Some (FFile d'))).

(** Nothing changed but the files, in that way, and output added. *)
Definition only_adds (w w' : world) : Prop :=
  Args w' = Args w
  /\ worktree w' = worktree w
  /\ (exists out, stdout w' = (stdout w ++ out)%string)
  /\ files_grow (files w) (files w').

(** The command returns the same value whatever world it runs on, when
    it returns. *)
Definition same_result {A} (m : M A) : Prop :=
  forall w1 w2 a1 a2 w1' w2',
    m w1 = (Ret a1, w1') -> m w2 = (Ret a2, w2') -> a1 = a2.

(** A directory with a file that cannot be read among the entries that
    [createTreeObjects] comes to: its own, or those of a subdirectory it
    lists. *)
Inductive has_unreadable : node -> Prop :=
| unreadable_here children fault name :
    (name, File None) ∈ visible fault children ->
    has_unreadable (Dir children fault)
| unreadable_below children fault name sub :
    (name, sub) ∈ filter listed (visible fault children) ->
    has_unreadable sub ->
    has_unreadable (Dir children fault).

(** A working tree with a file that cannot be read, one level down. *)
Definition secret_tree : node :=
  Dir [("docs"%string, Dir [("key"%string, File None)] None);
       ("a.txt"%string, File (Some (bytes_of_string "x")))] None.

(** ** Decoding hexadecimal *)

(** The value of a hexadecimal digit, and the byte two digits stand for. *)
Definition hex_value (c : ascii) : N :=
  match find (fun p => Ascii.eqb (snd p) c)
          (combine (map N.of_nat (seq 0 16)) hextable) with
  | Some (v, _) => v
  | None => 0
  end.

Definition hex_byte (hi lo : ascii) : option byte :=
  Byte.of_N (hex_value hi * 16 + hex_value lo).

Fixpoint hex_DecodeString (s : string) : option (list byte) :=
  match s with
  | EmptyString => Some []
  | String hi (String lo rest) =>
      b ← hex_byte hi lo; bs ← hex_DecodeString rest; Some (b :: bs)
  | String _ EmptyString => None
  end.

(** ** How a command may end *)

(** The command returns or leaves with exit code 1; it panics only if
    [may_panic]. *)
Definition ends_well (may_panic : bool) {A} (m : M A) : Prop :=
  forall w,
    match fst (m w) with
    | Ret _ => True
    | Exit code => code = 1
    | Panic => may_panic = true
    end.

(** A store that takes every object is left as one. *)
Definition stays_healthy (w w' : world) : Prop :=
  healthy (files w) -> healthy (files w').

(** An id, and a payload without a NUL, as a file of another program
    may hold it. *)
Definition foreign_id : list byte :=
  [x01; x23; x45; x67; x89; xab; xcd; xef; x01; x23;
   x45; x67; x89; xab; xcd; xef; x01; x23; x45; x67].

Definition foreign_payload : list byte := bytes_of_string "blob 3abc".

(** ** Objects in the store *)

Section TreeStore.
Context `{GoLib}.

(** The store has an object file for the id: at the path of the id, the
    compression of a payload whose SHA-1 digest is the id. *)
Definition holds_object (fs : gmap path fnode) (id : list byte) : Prop :=
  exists payload,
    SHA1.Sum payload = id
    /\ fs !! object_path id = Some (FFile (compressContent payload)).

(** Every id that has its object file in [w] has one in [w']. *)
Definition objects_kept (w w' : world) : Prop :=
  forall id, holds_object (files w) id -> holds_object (files w') id.

(** [object_built fs n id]: the object of the node [n] has the id [id]
    and is in the store, with everything below it.  For a file, [id] is
    the id of the blob of its bytes and the store has the object file of
    that id.  For a directory, [id] is the id of the tree whose content
    is the encodings of its entries in sibling order, the store has the
    object file of that id, and the object of each entry is built in the
    same sense, with the digest its encoding carries. *)
#[warnings="-register-all"] Inductive object_built (fs : gmap path fnode)
    : node -> list byte -> Prop :=
| object_built_blob bytes :
    holds_object fs (ObjectID blob bytes) ->
    object_built fs (File (Some bytes)) (ObjectID blob bytes)
| object_built_tree children fault entries ids :
    entries ≡ₚ filter listed (visible fault children) ->
    StronglySorted sibling_le entries ->
    Forall2 (fun c id => object_built fs c.2 id) entries ids ->
    holds_object fs (ObjectID tree (concat (zip_with tree_entry entries ids))) ->
    object_built fs (Dir children fault)
      (ObjectID tree (concat (zip_with tree_entry entries ids))).

(** A run of [createTreeObjects] on a directory that returns has built
    the object of the directory. *)
Definition stores_tree (n : node) : Prop :=
  forall w id w',
    createTreeObjects n w = (Ret id, w') -> node_IsDir n = true ->
    object_built (files w') n id.

End TreeStore.

(** * Properties *)

(** ** The library models on test vectors *)

Example sha1_abc :
  hex_EncodeToString (SHA1.Sum (bytes_of_string "abc"))
  = "a9993e364706816aba3e25717850c26c9cd0d89d"%string.
Proof. vm_compute. reflexivity. Qed.

Example sha1_empty :
  hex_EncodeToString (SHA1.Sum [])
  = "da39a3ee5e6b4b0d3255bfef95601890afd80709"%string.
Proof. vm_compute. reflexivity. Qed.

Example sha1_two_blocks :
  hex_EncodeToString (SHA1.Sum (bytes_of_string
    "abcdbcdecdefdefgefghfghighijhijkijkljklmklmnlmnomnopnopq"))
  = "84983e441c3bd26ebaae4aa1f95129e5e54670f1"%string.
Proof. vm_compute. reflexivity. Qed.

Example fmt_d_examples :
  fmt_d 0 = "0"%string /\ fmt_d 3 = "3"%string /\ fmt_d 1024 = "1024"%string.
Proof. vm_compute. auto. Qed.

Example stream_abc :
  hex_EncodeToString (Reference.stream (bytes_of_string "abc"))
  = "7801000300fcff616263010000ffff024d0127"%string
  /\ Reference.NewReader (Reference.stream (bytes_of_string "abc")) = true
  /\ Reference.ReadAll (Reference.stream (bytes_of_string "abc"))
     = (bytes_of_string "abc", false)
  /\ Reference.ReadAll (Reference.stream []) = ([], false)
  /\ Reference.ToLower "README.md" = "readme.md"%string.
Proof. vm_compute. auto. Qed.

(** ** Bytes *)

Lemma byte_to_Z_range (b : byte) : 0 <= byte_to_Z b < 256.
Proof.
  unfold byte_to_Z. pose proof (Byte.to_N_bounded b). lia.
Qed.

Lemma byte_to_of_Z (z : Z) : byte_to_Z (byte_of_Z z) = Z.land z 0xFF.
Proof.
  unfold byte_to_Z, byte_of_Z.
  assert (Hr : 0 <= Z.land z 0xFF < 256).
  { change 0xFF with (Z.ones 8). rewrite Z.land_ones by lia.
    apply Z.mod_pos_bound. reflexivity. }
  destruct (Byte.of_N (Z.to_N (Z.land z 255))) as [b|] eqn:E.
  - apply Byte.to_of_N in E. simpl. rewrite E. lia.
  - apply Byte.of_N_None_iff in E. lia.
Qed.

(** Two bytes, low byte first, hold the low sixteen bits. *)
Lemma le16_bytes (v : Z) :
  Z.lor (byte_to_Z (byte_of_Z v))
        (Z.shiftl (byte_to_Z (byte_of_Z (Z.shiftr v 8))) 8)
  = Z.land v 0xFFFF.
Proof.
  rewrite !byte_to_of_Z.
  change 0xFF with (Z.ones 8). change 0xFFFF with (Z.ones 16).
  apply Z.bits_inj'. intros n Hn.
  rewrite Z.lor_spec, !Z.land_spec.
  destruct (Z.lt_ge_cases n 8) as [Hlt|Hge].
  - rewrite Z.shiftl_spec_low by lia.
    rewrite !Z.ones_spec_low by lia. now rewrite orb_false_r.
  - rewrite Z.shiftl_spec by lia. rewrite Z.land_spec, Z.shiftr_spec by lia.
    replace (n - 8 + 8) with n by lia.
    rewrite (Z.ones_spec_high 8 n) by lia. rewrite andb_false_r. simpl.
    destruct (Z.lt_ge_cases n 16).
    + now rewrite !Z.ones_spec_low by lia.
    + now rewrite !Z.ones_spec_high by lia.
Qed.

Lemma land_low16 (v : Z) : 0 <= v < 65536 -> Z.land v 0xFFFF = v.
Proof.
  intros Hv. change 0xFFFF with (Z.ones 16).
  rewrite Z.land_ones by lia. apply Z.mod_small. exact Hv.
Qed.

Lemma lxor_low16 (v : Z) :
  0 <= v < 65536 -> Z.land (Z.lxor v 0xFFFF) 0xFFFF = Z.lxor v 0xFFFF.
Proof.
  intros Hv. change 0xFFFF with (Z.ones 16).
  apply Z.bits_inj'. intros n Hn.
  rewrite Z.land_spec, Z.lxor_spec.
  destruct (Z.lt_ge_cases n 16).
  - rewrite !Z.ones_spec_low by lia. now rewrite andb_true_r.
  - rewrite !Z.ones_spec_high by lia. rewrite andb_false_r, xorb_false_r.
    symmetry. destruct (Z.eq_dec v 0) as [->|Hne].
    + apply Z.bits_0.
    + apply Z.bits_above_log2; [lia|].
      assert (Z.log2 v < 16) by (apply Z.log2_lt_pow2; lia). lia.
Qed.

(** ** The order of strings *)

Lemma ascii_compare_lt_trans (a b c : ascii) :
  Ascii.compare a b = Lt -> Ascii.compare b c = Lt -> Ascii.compare a c = Lt.
Proof.
  unfold Ascii.compare. rewrite !N.compare_lt_iff. lia.
Qed.

Lemma ascii_compare_refl (a : ascii) : Ascii.compare a a = Eq.
Proof. unfold Ascii.compare. apply N.compare_refl. Qed.

Lemma string_compare_refl (s : string) : String.compare s s = Eq.
Proof.
  induction s as [|c s IH]; [reflexivity|].
  simpl. now rewrite ascii_compare_refl.
Qed.

Lemma string_compare_lt_trans (a b c : string) :
  String.compare a b = Lt -> String.compare b c = Lt -> String.compare a c = Lt.
Proof.
  revert b c. induction a as [|x a IH]; intros [|y b] [|z c]; simpl; try congruence.
  destruct (Ascii.compare x y) eqn:Exy; try congruence;
    destruct (Ascii.compare y z) eqn:Eyz; try congruence; intros Hab Hbc.
  - apply Ascii.compare_eq_iff in Exy, Eyz. subst.
    rewrite ascii_compare_refl. eauto.
  - apply Ascii.compare_eq_iff in Exy. subst. now rewrite Eyz.
  - apply Ascii.compare_eq_iff in Eyz. subst. now rewrite Exy.
  - now rewrite (ascii_compare_lt_trans x y z).
Qed.

Lemma string_lt_irrefl (a : string) : string_lt a a = false.
Proof. unfold string_lt, String.ltb. now rewrite string_compare_refl. Qed.

Lemma string_lt_true (a b : string) :
  string_lt a b = true <-> String.compare a b = Lt.
Proof.
  unfold string_lt, String.ltb. destruct (String.compare a b); split; congruence.
Qed.

Lemma string_lt_trans (a b c : string) :
  string_lt a b = true -> string_lt b c = true -> string_lt a c = true.
Proof. rewrite !string_lt_true. apply string_compare_lt_trans. Qed.

(** Two strings are equal, or one is less than the other. *)
Lemma string_lt_total (a b : string) :
  string_lt a b = false -> string_lt b a = false -> a = b.
Proof.
  unfold string_lt, String.ltb. rewrite (String.compare_antisym b a).
  destruct (String.compare a b) eqn:E; simpl; try congruence.
  intros _ _. now apply String.compare_eq_iff.
Qed.

Lemma string_lt_false (a b : string) :
  string_lt a b = false <-> a = b \/ string_lt b a = true.
Proof.
  split.
  - intros Hab. destruct (string_lt b a) eqn:Hba; [now right|].
    left. now apply string_lt_total.
  - intros [->|Hba]; [apply string_lt_irrefl|].
    destruct (string_lt a b) eqn:Hab; [|reflexivity].
    pose proof (string_lt_trans _ _ _ Hab Hba) as Haa.
    now rewrite string_lt_irrefl in Haa.
Qed.

(** Comparing by a string key is a strict weak ordering. *)
Lemma key_lt_swo {A} (key : A -> string) :
  StrictWeakOrder (fun a b => string_lt (key a) (key b)).
Proof.
  split.
  - intros a. apply string_lt_irrefl.
  - intros a b c. apply string_lt_trans.
  - intros a b c. rewrite !string_lt_false.
    intros [Hab|Hab] [Hbc|Hbc].
    + left. congruence.
    + right. now rewrite Hab.
    + right. now rewrite <- Hbc.
    + right. eapply string_lt_trans; eassumption.
Qed.

(** ** Insertion sort *)

Section InsertionSort.
Context {A : Type} (less : A -> A -> bool).

Lemma insert_left_Permutation (x : A) (rp : list A) :
  insert_left less x rp ≡ₚ x :: rp.
Proof.
  induction rp as [|y rp IH]; [reflexivity|].
  simpl. destruct (less x y); [|reflexivity].
  rewrite IH. apply Permutation_swap.
Qed.

Lemma insertion_pass_Permutation (data rp : list A) :
  fold_left (fun rp x => insert_left less x rp) data rp ≡ₚ data ++ rp.
Proof.
  revert rp. induction data as [|x data IH]; intros rp; [reflexivity|].
  simpl. rewrite IH, insert_left_Permutation.
  symmetry. apply Permutation_middle.
Qed.

Lemma insertionSort_Permutation (data : list A) :
  insertionSort less data ≡ₚ data.
Proof.
  unfold insertionSort. rewrite <- Permutation_rev.
  rewrite insertion_pass_Permutation. now rewrite app_nil_r.
Qed.

Hypothesis less_swo : StrictWeakOrder less.

Lemma less_asym (a b : A) : less a b = true -> less b a = false.
Proof.
  intros Hab. destruct (less b a) eqn:Hba; [|reflexivity].
  pose proof (swo_trans less less_swo _ _ _ Hab Hba) as Haa.
  now rewrite (swo_irrefl less less_swo) in Haa.
Qed.

(** The sorted part, last element first: no element is less than one
    that follows it in the list. *)
Lemma insert_left_Sorted (x : A) (rp : list A) :
  StronglySorted (fun a b => less a b = false) rp ->
  StronglySorted (fun a b => less a b = false) (insert_left less x rp).
Proof.
  induction 1 as [|y rp Hs IH Hy]; simpl.
  - repeat constructor.
  - destruct (less x y) eqn:Hxy.
    + constructor; [exact IH|].
      rewrite insert_left_Permutation. constructor; [|exact Hy].
      now apply less_asym.
    + constructor; [now constructor|].
      constructor; [exact Hxy|].
      eapply Forall_impl; [exact Hy|].
      intros z Hyz. simpl in Hyz.
      exact (swo_incomparable less less_swo _ _ _ Hxy Hyz).
Qed.

Lemma StronglySorted_rev_flip (R : A -> A -> Prop) (l : list A) :
  StronglySorted R l -> StronglySorted (fun a b => R b a) (rev l).
Proof.
  induction 1 as [|y l Hs IH Hy]; simpl; [constructor|].
  apply StronglySorted_app_2; [|exact IH|repeat constructor].
  intros a b Ha Hb. apply list_elem_of_singleton in Hb. subst b.
  rewrite Forall_forall in Hy. apply Hy.
  apply list_elem_of_In in Ha. apply in_rev in Ha.
  now apply list_elem_of_In.
Qed.

Lemma insertionSort_Sorted (data : list A) :
  StronglySorted (fun a b => less b a = false) (insertionSort less data).
Proof.
  unfold insertionSort.
  apply (StronglySorted_rev_flip (fun a b => less a b = false)).
  assert (Hgen : forall rp,
    StronglySorted (fun a b => less a b = false) rp ->
    StronglySorted (fun a b => less a b = false)
      (fold_left (fun rp x => insert_left less x rp) data rp)).
  { induction data as [|x data IH]; intros rp Hrp; [exact Hrp|].
    simpl. apply IH. now apply insert_left_Sorted. }
  apply Hgen. constructor.
Qed.

End InsertionSort.

(** ** The reference library is a [GoLib] *)

Module ReferenceFacts.
Import Reference.

Lemma maxStoreBlockSize_Z : Z.of_nat maxStoreBlockSize = 65535.
Proof. unfold maxStoreBlockSize. apply Z2Nat.id. lia. Qed.

#[local] Opaque maxStoreBlockSize.

Lemma store_chunks_concat (fuel : nat) (data : list byte) :
  (length data <= fuel)%nat -> concat (store_chunks fuel data) = data.
Proof.
  revert data. induction fuel as [|fuel IH]; intros data Hlen.
  - destruct data; [reflexivity | cbn in Hlen; lia].
  - destruct data as [|b data]; [reflexivity|].
    cbn [store_chunks concat]. rewrite IH.
    + apply take_drop.
    + rewrite length_drop. cbn [length] in *.
      assert (0 < maxStoreBlockSize)%nat
        by (pose proof maxStoreBlockSize_Z; lia).
      lia.
Qed.

Lemma store_chunks_bounded (fuel : nat) (data : list byte) :
  Forall (fun c => (length c <= maxStoreBlockSize)%nat)
         (store_chunks fuel data).
Proof.
  revert data. induction fuel as [|fuel IH]; intros data; [constructor|].
  destruct data as [|b data]; [constructor|].
  cbn [store_chunks]. constructor; [|apply IH].
  rewrite length_take. lia.
Qed.

Lemma store_chunks_length (fuel : nat) (data : list byte) :
  (length (store_chunks fuel data) <= fuel)%nat.
Proof.
  revert data. induction fuel as [|fuel IH]; intros data; [cbn; lia|].
  destruct data as [|b data]; [cbn; lia|].
  cbn [store_chunks length]. specialize (IH (drop maxStoreBlockSize (b :: data))).
  lia.
Qed.

Lemma blocks_length (chunks : list (list byte)) :
  (length chunks <= length (concat (map writeStoredBlock chunks)))%nat.
Proof.
  induction chunks as [|c chunks IH]; [cbn; lia|].
  cbn [map concat length]. rewrite length_app.
  unfold writeStoredBlock at 1, writeStoredHeader.
  rewrite length_app. cbn [length]. lia.
Qed.

Lemma inflate_final (fuel : nat) (tl : list byte) :
  inflate_stored (S fuel) (writeStoredHeader 0 true ++ tl) = Some ([], tl).
Proof. reflexivity. Qed.

Lemma inflate_block (fuel : nat) (c s : list byte) :
  (length c <= maxStoreBlockSize)%nat ->
  inflate_stored (S fuel) (writeStoredBlock c ++ s)
  = match inflate_stored fuel s with
    | Some (more, tl) => Some (c ++ more, tl)
    | None => None
    end.
Proof.
  intros Hc. pose proof maxStoreBlockSize_Z as Hm.
  set (len := Z.of_nat (length c)).
  assert (Hlen : 0 <= len < 65536) by lia.
  unfold writeStoredBlock, writeStoredHeader. fold len.
  cbn [app inflate_stored].
  rewrite !le16_bytes. rewrite (land_low16 len Hlen), (lxor_low16 len Hlen).
  change (Z.shiftr (byte_to_Z x00) 1 =? 0) with true.
  change (Z.land (byte_to_Z x00) 1 =? 1) with false.
  rewrite Z.eqb_refl. cbn [negb].
  unfold len. rewrite Nat2Z.id.
  replace (length (c ++ s) <? length c)%nat with false
    by (symmetry; apply Nat.ltb_ge; rewrite length_app; lia).
  rewrite take_app_length, drop_app_length. reflexivity.
Qed.

Lemma inflate_blocks (chunks : list (list byte)) (tl : list byte) (fuel : nat) :
  Forall (fun c => (length c <= maxStoreBlockSize)%nat) chunks ->
  (length chunks < fuel)%nat ->
  inflate_stored fuel
    (concat (map writeStoredBlock chunks) ++ writeStoredHeader 0 true ++ tl)
  = Some (concat chunks, tl).
Proof.
  intros Hall. revert fuel.
  induction Hall as [|c chunks Hc Hall IH]; intros fuel Hfuel.
  - destruct fuel as [|fuel]; [lia|]. apply inflate_final.
  - cbn [length] in Hfuel. destruct fuel as [|fuel]; [lia|].
    cbn [map concat]. rewrite <- app_assoc.
    rewrite inflate_block by exact Hc.
    rewrite IH by lia. reflexivity.
Qed.

Lemma NewReader_stream (x : list byte) : NewReader (stream x) = true.
Proof. reflexivity. Qed.

Lemma ReadAll_stream (x : list byte) : ReadAll (stream x) = (x, false).
Proof.
  unfold ReadAll, stream, deflate_stored.
  cbn [app skipn]. rewrite drop_0, <- app_assoc.
  rewrite inflate_blocks.
  - rewrite store_chunks_concat by lia.
    rewrite bool_decide_eq_true_2 by reflexivity. reflexivity.
  - apply store_chunks_bounded.
  - cbn [length]. rewrite !length_app.
    pose proof (blocks_length (store_chunks (length x) x)). lia.
Qed.

End ReferenceFacts.

#[global] Instance reference : GoLib := {|
  zlib_stream := Reference.stream;
  zlib_pending := Reference.pending;
  zlib_NewReader := Reference.NewReader;
  zlib_ReadAll := Reference.ReadAll;
  zlib_NewReader_stream := ReferenceFacts.NewReader_stream;
  zlib_ReadAll_stream := ReferenceFacts.ReadAll_stream;
  sort_Slice := @insertionSort;
  sort_Slice_Permutation := @insertionSort_Permutation;
  sort_Slice_Sorted := fun A less l Hswo => insertionSort_Sorted less Hswo l;
  strings_ToLower := Reference.ToLower
|}.

(** ** Digests, hexadecimal text and object paths *)

Lemma be_bytes_length (n : nat) (x : Z) : length (SHA1.be_bytes n x) = n.
Proof. induction n as [|n IH]; simpl; congruence. Qed.

Lemma Sum_length (data : list byte) : length (SHA1.Sum data) = SHA1.Size.
Proof.
  unfold SHA1.Sum. rewrite !length_app, !be_bytes_length. reflexivity.
Qed.

Lemma hex_length (b : list byte) :
  String.length (hex_EncodeToString b) = (2 * length b)%nat.
Proof. induction b as [|x b IH]; simpl; [reflexivity|]. rewrite IH. lia. Qed.

Lemma substring_all (s : string) : substring 0 (String.length s) s = s.
Proof. induction s as [|c s IH]; simpl; congruence. Qed.

Lemma substring_length (n m : nat) (s : string) :
  (n + m <= String.length s)%nat -> String.length (substring n m s) = m.
Proof.
  revert n m. induction s as [|c s IH]; intros [|n] [|m] Hle;
    simpl in *; try lia; try reflexivity.
  - rewrite (IH 0%nat m); [reflexivity | lia].
  - apply IH. lia.
  - apply IH. lia.
Qed.

Lemma nonempty_of_length (s : string) (n : nat) :
  String.length s = S n -> s <> EmptyString.
Proof. intros Hlen ->. discriminate. Qed.

Lemma bytes_of_string_app (a b : string) :
  bytes_of_string (a ++ b) = bytes_of_string a ++ bytes_of_string b.
Proof.
  unfold bytes_of_string, list_byte_of_string.
  induction a as [|c a IH]; simpl; [reflexivity|]. now rewrite IH.
Qed.

Lemma bytes_of_string_of_bytes (b : list byte) :
  bytes_of_string (string_of_bytes b) = b.
Proof. apply list_byte_of_string_of_list_byte. Qed.

Lemma string_of_bytes_of_string (s : string) :
  string_of_bytes (bytes_of_string s) = s.
Proof. apply string_of_list_byte_of_string. Qed.

(** The path [writeObject] computes for a digest is [object_path]. *)
Lemma slices_of_digest (hash : list byte) :
  length hash = SHA1.Size ->
  let h := hex_EncodeToString hash in
  slice_to h 2 = Some (substring 0 2 h)
  /\ slice_from h 2 = Some (substring 2 38 h)
  /\ filepath_Join objectsDir [substring 0 2 h]
     = removelast (object_path hash)
  /\ filepath_Join (filepath_Join objectsDir [substring 0 2 h])
       [substring 2 38 h]
     = object_path hash.
Proof.
  intros Hlen h. assert (Hh : String.length h = 40%nat).
  { unfold h. rewrite hex_length, Hlen. reflexivity. }
  assert (H2 : substring 0 2 h <> EmptyString).
  { apply (nonempty_of_length _ 1). apply substring_length. lia. }
  assert (H38 : substring 2 38 h <> EmptyString).
  { apply (nonempty_of_length _ 37). apply substring_length. lia. }
  unfold slice_to, slice_from, filepath_Join, object_path. fold h.
  rewrite Hh. cbn [Nat.leb Nat.sub].
  rewrite !filter_cons_True, !filter_nil by assumption.
  repeat split; reflexivity.
Qed.

(** ** The file system calls *)

Lemma set_files_set_files (fs fs' : gmap path fnode) (w : world) :
  set_files fs' (set_files fs w) = set_files fs' w.
Proof. reflexivity. Qed.

Lemma set_files_files (w : world) : set_files (files w) w = w.
Proof. now destruct w. Qed.

(** [os.MkdirAll] changes nothing but the directories it makes, which
    lie on the path. *)
Lemma mkdir_all_frame (elems : list string) :
  forall (pre : path) (fs fs' : gmap path fnode),
    mkdir_all pre elems fs = Some fs' ->
    forall q, fs' !! q = fs !! q
      \/ (fs' !! q = Some FDir
          /\ exists k, (0 < k <= length elems)%nat /\ q = pre ++ take k elems).
Proof.
  induction elems as [|d rest IH]; intros pre fs fs' Hmk q; simpl in Hmk.
  - left. congruence.
  - assert (Hshift : forall k, (pre ++ [d]) ++ take k rest = pre ++ take (S k) (d :: rest)).
    { intros k. now rewrite <- app_assoc. }
    destruct (fs !! (pre ++ [d])) as [[|data]|] eqn:Hp; try discriminate.
    + destruct (IH _ _ _ Hmk q) as [Heq|[Hdir (k & Hk & ->)]]; [now left|].
      right. split; [exact Hdir|]. exists (S k). rewrite Hshift. simpl. split; [lia|reflexivity].
    + destruct (IH _ _ _ Hmk q) as [Heq|[Hdir (k & Hk & ->)]].
      * destruct (decide (q = pre ++ [d])) as [->|Hne].
        -- right. rewrite Heq, lookup_insert_eq. split; [reflexivity|].
           exists 1%nat. simpl. split; [lia|]. now rewrite take_0.
        -- left. now rewrite Heq, lookup_insert_ne.
      * right. split; [exact Hdir|]. exists (S k). rewrite Hshift. simpl.
        split; [lia|reflexivity].
Qed.

(** Directories stay, and the whole path is made of directories. *)
Lemma mkdir_all_dirs (elems : list string) :
  forall (pre : path) (fs fs' : gmap path fnode),
    mkdir_all pre elems fs = Some fs' ->
    (forall q, fs !! q = Some FDir -> fs' !! q = Some FDir)
    /\ (forall k, (0 < k <= length elems)%nat ->
          fs' !! (pre ++ take k elems) = Some FDir).
Proof.
  induction elems as [|d rest IH]; intros pre fs fs' Hmk; simpl in Hmk.
  - injection Hmk as <-. split; [auto|]. simpl. intros k Hk. lia.
  - assert (Hpre : forall fs0, mkdir_all (pre ++ [d]) rest fs0 = Some fs' ->
              fs0 !! (pre ++ [d]) = Some FDir ->
              forall k, (0 < k <= length (d :: rest))%nat ->
                fs' !! (pre ++ take k (d :: rest)) = Some FDir).
    { intros fs0 Hmk0 Hd k Hk. destruct (IH _ _ _ Hmk0) as [Hmono Hpath].
      destruct k as [|k]; [lia|]. simpl.
      destruct k as [|k].
      - rewrite take_0. now apply Hmono.
      - replace (pre ++ d :: take (S k) rest)
          with ((pre ++ [d]) ++ take (S k) rest) by now rewrite <- app_assoc.
        apply Hpath. simpl in Hk. lia. }
    destruct (fs !! (pre ++ [d])) as [[|data]|] eqn:Hp; try discriminate.
    + split; [|now apply (Hpre fs)].
      now apply (IH _ _ _ Hmk).
    + split; [|apply (Hpre _ Hmk); apply lookup_insert_eq].
      intros q Hq. apply (IH _ _ _ Hmk).
      rewrite lookup_insert_ne; [exact Hq|]. congruence.
Qed.

(** On a path made of directories [os.MkdirAll] does nothing. *)
Lemma mkdir_all_fixed (elems : list string) :
  forall (pre : path) (fs : gmap path fnode),
    (forall k, (0 < k <= length elems)%nat ->
       fs !! (pre ++ take k elems) = Some FDir) ->
    mkdir_all pre elems fs = Some fs.
Proof.
  induction elems as [|d rest IH]; intros pre fs Hdirs; simpl; [reflexivity|].
  assert (H1 : fs !! (pre ++ [d]) = Some FDir).
  { specialize (Hdirs 1%nat). simpl in Hdirs. rewrite take_0 in Hdirs.
    apply Hdirs. lia. }
  rewrite H1. apply IH. intros k Hk.
  replace ((pre ++ [d]) ++ take k rest) with (pre ++ take (S k) (d :: rest))
    by now rewrite <- app_assoc.
  apply Hdirs. simpl. lia.
Qed.

Lemma removelast_neq {A} (l : list A) : l <> [] -> removelast l <> l.
Proof.
  intros Hne Heq. apply (f_equal length) in Heq.
  rewrite removelast_firstn_len, length_take in Heq.
  destruct l; [congruence|]. simpl in Heq. lia.
Qed.

(** Making the directory and writing the file, twice: the second time
    nothing changes and the outcome is the same. *)
Lemma store_twice (dir p : path) (content : list byte) (w : world) :
  p <> [] ->
  let store : M unit :=
    _ ← or_exit (os_MkdirAll dir); or_exit (os_WriteFile p content) in
  store (snd (store w)) = store w.
Proof.
  intros Hp store. unfold store, mbind, M_bind, bind, or_exit.
  destruct (os_MkdirAll dir (files w)) as [fs1|] eqn:E1; simpl.
  2:{ now rewrite E1. }
  destruct (mkdir_all_dirs _ _ _ _ E1) as [Hmono Hpath].
  assert (Hfix1 : os_MkdirAll dir fs1 = Some fs1).
  { apply mkdir_all_fixed. exact Hpath. }
  destruct (os_WriteFile p content fs1) as [fs2|] eqn:E2; simpl.
  2:{ rewrite Hfix1. simpl. now rewrite E2. }
  unfold os_WriteFile in E2.
  assert (Hnd : fs1 !! p <> Some FDir).
  { destruct (fs1 !! p) as [[|?]|]; congruence. }
  assert (Hparent : is_dir fs1 (removelast p) = true).
  { destruct (fs1 !! p) as [[|?]|]; try discriminate;
      destruct (is_dir fs1 (removelast p)); congruence. }
  assert (Hfs2 : fs2 = <[p := FFile content]> fs1).
  { rewrite Hparent in E2. destruct (fs1 !! p) as [[|?]|]; congruence. }
  subst fs2.
  assert (Hfix2 : os_MkdirAll dir (<[p := FFile content]> fs1)
                  = Some (<[p := FFile content]> fs1)).
  { apply mkdir_all_fixed. intros k Hk.
    rewrite lookup_insert_ne; [now apply Hpath|].
    intros ->. apply Hnd. now apply Hpath. }
  rewrite Hfix2. simpl. unfold os_WriteFile.
  rewrite lookup_insert_eq.
  assert (Hparent2 : is_dir (<[p := FFile content]> fs1) (removelast p) = true).
  { unfold is_dir in *. destruct (removelast p) as [|x l] eqn:Hr; [reflexivity|].
    rewrite lookup_insert_ne; [exact Hparent|].
    rewrite <- Hr. intros Heq. now apply (removelast_neq p). }
  rewrite Hparent2, insert_insert_eq. reflexivity.
Qed.

(** ** Writing an object *)

Lemma mkdir_all_succeeds (elems : list string) :
  forall (pre : path) (fs : gmap path fnode),
    (forall k d, (0 < k <= length elems)%nat ->
       fs !! (pre ++ take k elems) <> Some (FFile d)) ->
    is_Some (mkdir_all pre elems fs).
Proof.
  induction elems as [|x rest IH]; intros pre fs Hfree; simpl; [eauto|].
  assert (Hshift : forall k, (pre ++ [x]) ++ take k rest = pre ++ take (S k) (x :: rest)).
  { intros k. now rewrite <- app_assoc. }
  destruct (fs !! (pre ++ [x])) as [[|data]|] eqn:Hp.
  - apply IH. intros k d Hk. rewrite Hshift. apply Hfree. simpl. lia.
  - exfalso. apply (Hfree 1%nat data); [simpl; lia|].
    simpl. now rewrite take_0.
  - apply IH. intros k d Hk.
    destruct (decide (pre ++ [x] = (pre ++ [x]) ++ take k rest)) as [<-|Hne].
    + now rewrite lookup_insert_eq.
    + rewrite lookup_insert_ne by exact Hne.
      rewrite Hshift. apply Hfree. simpl. lia.
Qed.

(** A healthy store takes the object and stays healthy. *)
Lemma put_healthy (id data : list byte) (fs : gmap path fnode) :
  healthy fs ->
  exists fs', put id data fs = Some fs' /\ healthy fs'.
Proof.
  intros (H1 & H2 & H3 & H4). unfold put, object_path.
  set (x := substring 0 2 (hex_EncodeToString id)).
  set (y := substring 2 38 (hex_EncodeToString id)).
  cbn [removelast]. unfold os_MkdirAll.
  destruct (mkdir_all_succeeds [".git"; "objects"; x]%string [] fs) as [fs1 E1].
  { intros k d Hk. destruct k as [|[|[|[|k]]]]; simpl in Hk; try lia; simpl; auto. }
  rewrite E1. simpl.
  destruct (mkdir_all_dirs _ _ _ _ E1) as [_ Hpath].
  pose proof (mkdir_all_frame _ _ _ _ E1) as Hframe.
  assert (Hlook : forall q, length q <> 4%nat -> (forall d, fs !! q <> Some (FFile d)) ->
            forall d, fs1 !! q <> Some (FFile d)).
  { intros q _ Hq d. destruct (Hframe q) as [->|[-> _]]; [apply Hq|discriminate]. }
  assert (Hdeep : forall a b, fs1 !! [".git"; "objects"; a; b]%string <> Some FDir).
  { intros a b. destruct (Hframe [".git"; "objects"; a; b]%string)
      as [->|[_ (k & Hk & Hq)]]; [apply H4|].
    apply (f_equal length) in Hq. simpl in Hq. rewrite length_take in Hq.
    simpl in Hq. lia. }
  unfold os_WriteFile.
  assert (Hparent : is_dir fs1 [".git"; "objects"; x]%string = true).
  { unfold is_dir. specialize (Hpath 3%nat ltac:(simpl; lia)).
    cbn [app firstn] in Hpath. now rewrite Hpath. }
  cbn [removelast]. rewrite Hparent.
  exists (<[[".git"; "objects"; x; y]%string := FFile data]> fs1). split.
  - specialize (Hdeep x y).
    destruct (fs1 !! [".git"; "objects"; x; y]%string) as [[|?]|]; congruence.
  - repeat split.
    + intros d. rewrite lookup_insert_ne by discriminate. apply Hlook; [simpl; lia|apply H1].
    + intros d. rewrite lookup_insert_ne by discriminate. apply Hlook; [simpl; lia|apply H2].
    + intros a d. rewrite lookup_insert_ne by discriminate. apply Hlook; [simpl; lia|apply H3].
    + intros a b. destruct (decide ([".git"; "objects"; x; y]%string = [".git"; "objects"; a; b]%string)) as [<-|Hne].
      * rewrite lookup_insert_eq. discriminate.
      * rewrite lookup_insert_ne by exact Hne. apply Hdeep.
Qed.

Lemma healthy_empty : healthy ∅.
Proof. repeat split; intros; now rewrite lookup_empty. Qed.

Lemma writeObject_eq (hash content : list byte) (w : world) :
  length hash = SHA1.Size ->
  writeObject hash content w
  = (_ ← or_exit (os_MkdirAll (removelast (object_path hash)));
     or_exit (os_WriteFile (object_path hash) content)) w.
Proof.
  intros Hlen.
  destruct (slices_of_digest hash Hlen) as (Hto & Hfrom & Hdir & Hfile).
  unfold writeObject. rewrite Hto, Hfrom. cbn [checked].
  rewrite <- Hdir, <- Hfile. reflexivity.
Qed.

(** A store with one object file and the directories above it. *)
Lemma healthy_one_object (x y : string) (data : list byte) :
  healthy (<[[".git"; "objects"; x; y]%string := FFile data]>
             (<[[".git"; "objects"; x]%string := FDir]>
                (<[[".git"; "objects"]%string := FDir]>
                   (<[[".git"%string] := FDir]> ∅)))).
Proof.
  repeat split; intros.
  - rewrite lookup_insert_ne, lookup_insert_ne, lookup_insert_ne by discriminate.
    rewrite lookup_insert_eq. discriminate.
  - rewrite lookup_insert_ne, lookup_insert_ne by discriminate.
    rewrite lookup_insert_eq. discriminate.
  - rewrite lookup_insert_ne by discriminate.
    destruct (decide ([".git"; "objects"; x]%string = [".git"; "objects"; x0]%string))
      as [<-|Hne].
    + rewrite lookup_insert_eq. discriminate.
    + rewrite lookup_insert_ne by exact Hne.
      rewrite lookup_insert_ne, lookup_insert_ne by discriminate.
      now rewrite lookup_empty.
  - destruct (decide ([".git"; "objects"; x; y]%string = [".git"; "objects"; x0; y0]%string))
      as [<-|Hne].
    + rewrite lookup_insert_eq. discriminate.
    + rewrite lookup_insert_ne by exact Hne.
      rewrite lookup_insert_ne, lookup_insert_ne, lookup_insert_ne by discriminate.
      now rewrite lookup_empty.
Qed.

(** [writeObject] on a digest is [put]: the files it leaves differ from
    the ones it found by the object at most, and it returns exactly when
    the file system takes the object. *)
Lemma writeObject_spec (hash content : list byte) (w : world) :
  length hash = SHA1.Size ->
  exists fs',
    snd (writeObject hash content w) = set_files fs' w
    /\ object_written hash content (files w) fs'
    /\ match put hash content (files w) with
       | Some fs2 =>
           fst (writeObject hash content w) = Ret tt /\ fs' = fs2
           /\ fs' !! object_path hash = Some (FFile content)
       | None => fst (writeObject hash content w) = Exit 1
       end.
Proof.
  intros Hlen. rewrite (writeObject_eq hash content w Hlen). unfold put.
  unfold mbind, M_bind, bind, or_exit.
  destruct (os_MkdirAll (removelast (object_path hash)) (files w)) as [fs1|] eqn:E1.
  2:{ exists (files w). simpl. rewrite set_files_files.
      repeat split. intros q. now left. }
  pose proof (mkdir_all_frame _ _ _ _ E1) as Hframe.
  assert (Hw1 : object_written hash content (files w) fs1).
  { intros q. destruct (Hframe q) as [->|[-> _]]; auto. }
  cbn [files set_files mbind option_bind].
  destruct (os_WriteFile (object_path hash) content fs1) as [fs2|] eqn:E2.
  2:{ exists fs1. simpl. repeat split; assumption. }
  exists fs2. simpl.
  assert (Hfs2 : fs2 = <[object_path hash := FFile content]> fs1).
  { unfold os_WriteFile in E2.
    destruct (fs1 !! object_path hash) as [[|?]|];
      destruct (is_dir fs1 (removelast (object_path hash))); congruence. }
  subst fs2. repeat split.
  - intros q. destruct (decide (q = object_path hash)) as [->|Hne].
    + right. right. now rewrite lookup_insert_eq.
    + rewrite lookup_insert_ne by congruence. apply Hw1.
  - apply lookup_insert_eq.
Qed.

Section ObjectFacts.
Context `{GoLib}.

Lemma compressContent_stream (content : list byte) :
  compressContent content = zlib_stream content.
Proof. reflexivity. Qed.

Lemma object_payload_bytes (k : ObjectKind) (content : list byte) :
  bytes_of_string (object_payload (kind_tag k) content)
  = encoded_payload k content.
Proof.
  unfold object_payload, encoded_payload.
  rewrite !bytes_of_string_app, bytes_of_string_of_bytes. reflexivity.
Qed.

(** [createObject] hashes the payload, compresses it and writes the
    result under the digest, which it returns. *)
Lemma createObject_spec (objectType : string) (content : list byte) (w : world) :
  let payload := bytes_of_string (object_payload objectType content) in
  let id := SHA1.Sum payload in
  exists fs',
    snd (createObject objectType content w) = set_files fs' w
    /\ object_written id (compressContent payload) (files w) fs'
    /\ match put id (compressContent payload) (files w) with
       | Some fs2 =>
           createObject objectType content w = (Ret id, set_files fs2 w)
           /\ fs' = fs2
           /\ fs' !! object_path id = Some (FFile (compressContent payload))
       | None => fst (createObject objectType content w) = Exit 1
       end.
Proof.
  intros payload id.
  destruct (writeObject_spec id (compressContent payload) w (Sum_length _))
    as (fs' & Hsnd & Hwritten & Hput).
  exists fs'. unfold createObject. fold payload. fold id.
  unfold mbind, M_bind, bind.
  destruct (writeObject id (compressContent payload) w) as [[[]|c|] w'] eqn:E;
    simpl in Hsnd; subst w'; (split; [reflexivity|]); (split; [exact Hwritten|]);
    destruct (put id (compressContent payload) (files w)) as [fs2|];
    simpl in Hput; try discriminate; try (destruct Hput as (Hr & Hfs & Hl); try discriminate).
  - subst fs2. auto.
  - simpl. congruence.
Qed.

(** C1.  For each of the three kinds and every content, [createObject]
    builds the payload ["<kind> <decimal length>\0<content>"] and nothing
    else, and the id it returns is the 20-byte SHA-1 digest of that
    payload: it returns it whenever the file system takes the object (a
    healthy store always does) and leaves with exit code 1 otherwise, so
    that every call on the same kind and content gives the same id.  For
    the blob ["abc"] the payload is ["blob 3\0abc"] and the id
    [f2ba8f84ab5c1bce84a7b441cb1959cfc7093b7f]. *)
Theorem createObject_encodes (k : ObjectKind) (content : list byte) (w : world) :
  bytes_of_string (object_payload (kind_tag k) content) = encoded_payload k content
  /\ length (ObjectID k content) = 20%nat
  /\ match put (ObjectID k content)
             (compressContent (encoded_payload k content)) (files w) with
     | Some fs' =>
         createObject (kind_tag k) content w
         = (Ret (ObjectID k content), set_files fs' w)
     | None => fst (createObject (kind_tag k) content w) = Exit 1
     end
  /\ (healthy (files w) ->
      fst (createObject (kind_tag k) content w) = Ret (ObjectID k content))
  /\ (forall w2 id1 id2 w1' w2',
        createObject (kind_tag k) content w = (Ret id1, w1') ->
        createObject (kind_tag k) content w2 = (Ret id2, w2') ->
        id1 = id2)
  /\ encoded_payload blob (bytes_of_string "abc")
     = bytes_of_string ("blob 3" ++ NUL ++ "abc")
  /\ hex_EncodeToString (ObjectID blob (bytes_of_string "abc"))
     = "f2ba8f84ab5c1bce84a7b441cb1959cfc7093b7f"%string.
Proof.
  pose proof (createObject_spec (kind_tag k) content w) as Hspec.
  cbv zeta in Hspec. rewrite object_payload_bytes in Hspec.
  fold (ObjectID k content) in Hspec.
  destruct Hspec as (fs' & _ & _ & Hput).
  split; [apply object_payload_bytes|].
  split; [apply Sum_length|].
  split.
  { destruct (put _ _ (files w)) as [fs2|]; [apply Hput | exact Hput]. }
  split.
  { intros Hh.
    destruct (put_healthy (ObjectID k content)
                (compressContent (encoded_payload k content)) _ Hh)
      as (fs2 & E & _).
    rewrite E in Hput. destruct Hput as [-> _]. reflexivity. }
  split.
  { assert (Hid : forall w0 id0 w0',
      createObject (kind_tag k) content w0 = (Ret id0, w0') ->
      id0 = SHA1.Sum (bytes_of_string (object_payload (kind_tag k) content))).
    { intros w0 id0 w0' E.
      destruct (createObject_spec (kind_tag k) content w0) as (fs0 & _ & _ & Hp).
      rewrite E in Hp. destruct (put _ _ (files w0)).
      - destruct Hp as [[= ->] _]. reflexivity.
      - discriminate Hp. }
    intros w2 id1 id2 w1' w2' E1 E2.
    rewrite (Hid _ _ _ E1), (Hid _ _ _ E2). reflexivity. }
  split; vm_compute; reflexivity.
Qed.

(** C5.  What [compressContent] produces for [x], [readAndDecompressFile]
    reads back as [x], from whatever file holds it and for every [x], the
    empty sequence included: the reader accepts the header, reads [x]
    without an error, and the conversion to a string and back loses
    nothing. *)
Theorem decompress_compress (x : list byte) (filePath : path) (w : world) :
  let stored := set_files (<[filePath := FFile (compressContent x)]> (files w)) w in
  zlib_NewReader (compressContent x) = true
  /\ zlib_ReadAll (compressContent x) = (x, false)
  /\ readAndDecompressFile filePath stored = (Ret (string_of_bytes x), stored)
  /\ bytes_of_string (string_of_bytes x) = x
  /\ zlib_ReadAll (compressContent []) = ([], false).
Proof.
  intros stored. rewrite !compressContent_stream.
  split; [apply zlib_NewReader_stream|].
  split; [apply zlib_ReadAll_stream|].
  split.
  { unfold readAndDecompressFile, os_ReadFile, stored. simpl.
    rewrite lookup_insert_eq, compressContent_stream.
    now rewrite zlib_NewReader_stream, zlib_ReadAll_stream. }
  split; [apply bytes_of_string_of_bytes | apply zlib_ReadAll_stream].
Qed.

(** ** The commit builder *)

Lemma put_lookup (id data : list byte) (fs fs' : gmap path fnode) :
  put id data fs = Some fs' -> fs' !! object_path id = Some (FFile data).
Proof.
  unfold put. destruct (os_MkdirAll _ fs) as [fs1|]; [|discriminate 1].
  cbn [mbind option_bind]. unfold os_WriteFile.
  destruct (fs1 !! object_path id) as [[|?]|];
    destruct (is_dir fs1 (removelast (object_path id)));
    intros [= <-]; apply lookup_insert_eq.
Qed.

Lemma string_app_assoc (a b c : string) :
  ((a ++ b) ++ c)%string = (a ++ (b ++ c))%string.
Proof.
  induction a as [|x a IH]; [reflexivity|].
  change (String x ((a ++ b) ++ c) = String x (a ++ (b ++ c)))%string.
  now rewrite IH.
Qed.

Lemma commit_content_text (T P m : string) :
  commit_content T P m = commit_text T P m.
Proof.
  unfold commit_content, commit_text, author, committer.
  now rewrite !string_app_assoc.
Qed.

(** [commitTree] when the three arguments are there. *)
Lemma commitTree_spec (w : world) (T P m : string) :
  Args w !! 2%nat = Some T -> Args w !! 4%nat = Some P ->
  Args w !! 6%nat = Some m ->
  let payload := encoded_payload commit (bytes_of_string (commit_content T P m)) in
  let id := SHA1.Sum payload in
  exists fs',
    files (snd (commitTree w)) = fs'
    /\ object_written id (compressContent payload) (files w) fs'
    /\ match put id (compressContent payload) (files w) with
       | Some fs2 =>
           commitTree w
           = (Ret tt, World (Args w) (worktree w) fs2
                        (stdout w ++ (hex_EncodeToString id ++ LF)))
           /\ fs' = fs2
       | None => fst (commitTree w) = Exit 1
       end.
Proof.
  intros HT HP Hm payload id.
  assert (Hpayload :
    bytes_of_string
      (("commit " ++ fmt_d (length (bytes_of_string (commit_content T P m))) ++ NUL)
       ++ commit_content T P m) = payload).
  { unfold payload, encoded_payload. rewrite !bytes_of_string_app.
    rewrite <- !app_assoc. reflexivity. }
  destruct (writeObject_spec id (compressContent payload) w (Sum_length _))
    as (fs' & Hsnd & Hwritten & Hput).
  exists fs'.
  unfold commitTree, mbind, M_bind, bind, os_Args.
  rewrite HT, HP, Hm. cbn [checked ret]. rewrite Hpayload. fold id.
  destruct (writeObject id (compressContent payload) w) as [[[]|c|] w'] eqn:E;
    cbn [fst snd] in Hsnd, Hput; subst w';
    (split; [reflexivity|]); (split; [exact Hwritten|]);
    destruct (put id (compressContent payload) (files w)) as [fs2|];
    try discriminate Hput;
    try (destruct Hput as (Hr & Hfs & _); try discriminate Hr).
  - subst fs2. split; reflexivity.
  - exact Hput.
Qed.

(** C8.  With tree id [T], parent id [P] and message [m] as its
    arguments, [commitTree] builds the text: line [tree T], line
    [parent P], the author line, the committer line, a blank line, [m]
    and a newline.  It encodes that text as a [commit] object, writes the
    compressed payload under the object's id and prints the id in
    hexadecimal; it returns whenever the file system takes the object,
    and leaves with exit code 1 otherwise. *)
Theorem commitTree_content (T P m a0 a1 a3 a5 : string) (more : list string)
    (wt : node) (fs : gmap path fnode) (out : string) :
  let w := World ([a0; a1; T; a3; P; a5; m] ++ more) wt fs out in
  let content := bytes_of_string (commit_text T P m) in
  commit_content T P m = commit_text T P m
  /\ match put (ObjectID commit content)
             (compressContent (encoded_payload commit content)) fs with
     | Some fs' =>
         commitTree w
         = (Ret tt, World (Args w) wt fs'
                      (out ++ (hex_EncodeToString (ObjectID commit content) ++ LF)))
         /\ fs' !! object_path (ObjectID commit content)
            = Some (FFile (compressContent (encoded_payload commit content)))
     | None => fst (commitTree w) = Exit 1
     end
  /\ (healthy fs -> fst (commitTree w) = Ret tt).
Proof.
  intros w content.
  destruct (commitTree_spec w T P m eq_refl eq_refl eq_refl)
    as (fs' & _ & _ & Hput).
  rewrite commit_content_text in Hput. fold content in Hput.
  fold (ObjectID commit content) in Hput. cbn [files w] in Hput.
  split; [apply commit_content_text|]. split.
  - destruct (put _ _ fs) as [fs2|] eqn:E; [|exact Hput].
    split; [apply Hput | exact (put_lookup _ _ _ _ E)].
  - intros Hh.
    destruct (put_healthy (ObjectID commit content)
                (compressContent (encoded_payload commit content)) fs Hh)
      as (fs2 & E & _).
    rewrite E in Hput. destruct Hput as [-> _]. reflexivity.
Qed.

(** C9.  The author and committer lines are constants, so what
    [commitTree] builds depends on the three arguments alone: two runs
    whose tree id, parent id and message agree, in whatever worlds (other
    arguments, files, earlier output), build the same text; if both
    return they print the same id and have stored the same bytes under
    it; and one panics for a missing argument exactly when the other
    does. *)
Theorem commitTree_deterministic (w1 w2 : world) :
  Args w1 !! 2%nat = Args w2 !! 2%nat ->
  Args w1 !! 4%nat = Args w2 !! 4%nat ->
  Args w1 !! 6%nat = Args w2 !! 6%nat ->
  (fst (commitTree w1) = Panic <-> fst (commitTree w2) = Panic)
  /\ forall w1' w2',
       commitTree w1 = (Ret tt, w1') -> commitTree w2 = (Ret tt, w2') ->
       exists T P m,
         let payload :=
           encoded_payload commit (bytes_of_string (commit_content T P m)) in
         let id := SHA1.Sum payload in
         stdout w1' = (stdout w1 ++ (hex_EncodeToString id ++ LF))%string
         /\ stdout w2' = (stdout w2 ++ (hex_EncodeToString id ++ LF))%string
         /\ files w1' !! object_path id = Some (FFile (compressContent payload))
         /\ files w2' !! object_path id = Some (FFile (compressContent payload)).
Proof.
  intros H2 H4 H6.
  assert (Hmissing : forall w,
    Args w !! 2%nat = None \/ Args w !! 4%nat = None \/ Args w !! 6%nat = None ->
    commitTree w = (Panic, w)).
  { intros w Hnone. unfold commitTree, mbind, M_bind, bind, os_Args.
    destruct (Args w !! 2%nat); [|reflexivity].
    destruct (Args w !! 4%nat); [|reflexivity].
    destruct (Args w !! 6%nat); [|reflexivity].
    destruct Hnone as [Hn|[Hn|Hn]]; discriminate Hn. }
  assert (Hpresent : forall w T P m,
    Args w !! 2%nat = Some T -> Args w !! 4%nat = Some P ->
    Args w !! 6%nat = Some m -> fst (commitTree w) <> Panic).
  { intros w T P m HT HP Hm.
    destruct (commitTree_spec w T P m HT HP Hm) as (fs' & _ & _ & Hput).
    destruct (put _ _ (files w)); [destruct Hput as [-> _]|rewrite Hput];
      discriminate 1. }
  destruct (Args w1 !! 2%nat) as [T|] eqn:E2.
  2:{ rewrite (Hmissing w1), (Hmissing w2) by auto. split; [tauto|].
      intros w1' w2' [=]. }
  destruct (Args w1 !! 4%nat) as [P|] eqn:E4.
  2:{ rewrite (Hmissing w1), (Hmissing w2) by auto. split; [tauto|].
      intros w1' w2' [=]. }
  destruct (Args w1 !! 6%nat) as [m|] eqn:E6.
  2:{ rewrite (Hmissing w1), (Hmissing w2) by auto. split; [tauto|].
      intros w1' w2' [=]. }
  symmetry in H2, H4, H6. split.
  - pose proof (Hpresent w1 T P m E2 E4 E6).
    pose proof (Hpresent w2 T P m H2 H4 H6). tauto.
  - intros w1' w2' R1 R2. exists T, P, m. intros payload id.
    destruct (commitTree_spec w1 T P m E2 E4 E6) as (fs1 & _ & _ & Hput1).
    destruct (commitTree_spec w2 T P m H2 H4 H6) as (fs2 & _ & _ & Hput2).
    fold payload in Hput1, Hput2. fold id in Hput1, Hput2.
    destruct (put id (compressContent payload) (files w1)) as [g1|] eqn:P1;
      [|rewrite R1 in Hput1; discriminate Hput1].
    destruct (put id (compressContent payload) (files w2)) as [g2|] eqn:P2;
      [|rewrite R2 in Hput2; discriminate Hput2].
    destruct Hput1 as [Hrun1 _]. destruct Hput2 as [Hrun2 _].
    rewrite R1 in Hrun1. rewrite R2 in Hrun2.
    apply (f_equal snd) in Hrun1, Hrun2. cbn [snd] in Hrun1, Hrun2.
    subst w1' w2'. cbn [stdout files].
    repeat split; try reflexivity; eapply put_lookup; eassumption.
Qed.

End ObjectFacts.

(** C4, as stated, fails: [writeObject] does not look whether the
    location exists; on a store that holds other bytes there it writes
    the new ones over them. *)
Lemma writeObject_not_skipped :
  ~ write_skipped_when_present (SHA1.Sum []) fresh_object stale_world.
Proof.
  unfold write_skipped_when_present. intros Hskip.
  assert (Hpresent : is_Some (files stale_world !! object_path (SHA1.Sum []))).
  { unfold stale_world. cbn [files]. rewrite lookup_insert_eq. eauto. }
  specialize (Hskip Hpresent).
  destruct (writeObject_spec (SHA1.Sum []) fresh_object stale_world (Sum_length _))
    as (fs' & Hsnd & _ & Hput).
  destruct (put_healthy (SHA1.Sum []) fresh_object (files stale_world))
    as (fs2 & E & _).
  { apply healthy_one_object. }
  rewrite E in Hput. destruct Hput as (_ & _ & Hlook).
  rewrite Hskip in Hsnd. apply (f_equal files) in Hsnd.
  cbn [files set_files] in Hsnd.
  rewrite <- Hsnd in Hlook. unfold stale_world in Hlook. cbn [files] in Hlook.
  rewrite lookup_insert_eq in Hlook. discriminate Hlook.
Qed.

(** C4, amended.  Calling [writeObject] a second time with the same
    digest and bytes gives the outcome of the first call and leaves the
    world the first call left.  The location is not looked at before the
    write: when the call returns, the object file holds the bytes given,
    whatever it held before. *)
Theorem writeObject_idempotent (hash content : list byte) (w : world) :
  writeObject hash content (snd (writeObject hash content w))
  = writeObject hash content w
  /\ (length hash = 20%nat ->
      fst (writeObject hash content w) = Ret tt ->
      files (snd (writeObject hash content w)) !! object_path hash
      = Some (FFile content)).
Proof.
  split.
  - unfold writeObject.
    destruct (slice_to (hex_EncodeToString hash) 2) as [head2|] eqn:Hto;
      [|reflexivity].
    destruct (slice_from (hex_EncodeToString hash) 2) as [rest|] eqn:Hfrom;
      [|reflexivity].
    cbn [checked].
    apply (store_twice (filepath_Join objectsDir [head2])
             (filepath_Join (filepath_Join objectsDir [head2]) [rest])
             content w).
    unfold filepath_Join, objectsDir. simpl. discriminate.
  - intros Hlen Hret.
    destruct (writeObject_spec hash content w Hlen) as (fs' & Hsnd & _ & Hput).
    rewrite Hsnd. simpl.
    destruct (put hash content (files w)) as [fs2|].
    + apply Hput.
    + congruence.
Qed.

(** The amended claim at the stale store: the second call changes
    nothing, and the object file holds the fresh bytes. *)
Lemma writeObject_idempotent_witness :
  writeObject (SHA1.Sum []) fresh_object
    (snd (writeObject (SHA1.Sum []) fresh_object stale_world))
  = writeObject (SHA1.Sum []) fresh_object stale_world
  /\ files (snd (writeObject (SHA1.Sum []) fresh_object stale_world))
       !! object_path (SHA1.Sum [])
     = Some (FFile fresh_object).
Proof.
  destruct (writeObject_idempotent (SHA1.Sum []) fresh_object stale_world)
    as [Htwice Hheld].
  split; [exact Htwice|].
  apply Hheld; vm_compute; reflexivity.
Defined.


(** ** Commands that only write objects *)

Section Outcomes.
Context `{GoLib}.

Lemma objects_written_refl (fs : gmap path fnode) : objects_written fs fs.
Proof. intros q. now left. Qed.

Lemma objects_written_trans (fs1 fs2 fs3 : gmap path fnode) :
  objects_written fs1 fs2 -> objects_written fs2 fs3 -> objects_written fs1 fs3.
Proof.
  intros H12 H23 q.
  destruct (H23 q) as [->|[Hd|Ho]]; [apply H12 | now right; left | now right; right].
Qed.

Lemma object_written_objects (payload : list byte) (fs fs' : gmap path fnode) :
  object_written (SHA1.Sum payload) (compressContent payload) fs fs' ->
  objects_written fs fs'.
Proof.
  intros Hw q. destruct (Hw q) as [Hq|[Hq|[-> Hq]]]; [now left | now right; left|].
  right. right. now exists payload.
Qed.

Lemma extends_refl (w : world) : extends w w.
Proof.
  exists (files w). split; [now rewrite set_files_files | apply objects_written_refl].
Qed.

Lemma extends_trans (w1 w2 w3 : world) :
  extends w1 w2 -> extends w2 w3 -> extends w1 w3.
Proof.
  intros (fs2 & -> & H12) (fs3 & -> & H23). exists fs3.
  split; [reflexivity|]. eapply objects_written_trans; eassumption.
Qed.

Lemma outcome_ret {A} (a : A) (w : world) (Q : A -> world -> Prop) :
  Q a w -> outcome w (Ret a, w) Q.
Proof. intros HQ. split; [apply extends_refl | exact HQ]. Qed.

Lemma outcome_exit {A} (w : world) (Q : A -> world -> Prop) :
  outcome w (@os_Exit A 1 w) Q.
Proof. split; [apply extends_refl | reflexivity]. Qed.

Lemma outcome_bind {A B} (m : M A) (k : A -> M B) (w : world)
    (Q1 : A -> world -> Prop) (Q2 : B -> world -> Prop) :
  outcome w (m w) Q1 ->
  (forall a w1, extends w w1 -> Q1 a w1 -> outcome w1 (k a w1) Q2) ->
  outcome w ((m ≫= k) w) Q2.
Proof.
  intros [Hext HQ1] Hk. unfold mbind, M_bind, bind.
  destruct (m w) as [[a|code|] w1]; cbn [fst snd] in *.
  - destruct (Hk a w1 Hext HQ1) as [Hext2 HQ2].
    split; [eapply extends_trans; eassumption | exact HQ2].
  - split; assumption.
  - contradiction.
Qed.

Lemma outcome_weaken {A} (w : world) (r : result A * world)
    (Q Q' : A -> world -> Prop) :
  outcome w r Q -> (forall a w', Q a w' -> Q' a w') -> outcome w r Q'.
Proof.
  intros [Hext HQ] Himp. split; [exact Hext|].
  destruct (fst r); auto.
Qed.

Lemma createObject_outcome (objectType : string) (content : list byte) (w : world) :
  let payload := bytes_of_string (object_payload objectType content) in
  outcome w (createObject objectType content w)
    (fun id w' =>
       id = SHA1.Sum payload
       /\ files w' !! object_path id = Some (FFile (compressContent payload))).
Proof.
  intros payload.
  destruct (createObject_spec objectType content w) as (fs' & Hsnd & Hw & Hput).
  fold payload in Hw, Hput. split.
  - exists fs'. split; [exact Hsnd | now apply (object_written_objects payload)].
  - destruct (put _ _ (files w)) as [fs2|].
    + destruct Hput as (-> & <- & Hl). cbn [fst snd files set_files]. auto.
    + rewrite Hput. reflexivity.
Qed.

(** On a healthy store [createObject] returns, and the store stays
    healthy. *)
Lemma createObject_healthy (objectType : string) (content : list byte) (w : world) :
  healthy (files w) ->
  exists w',
    createObject objectType content w
    = (Ret (SHA1.Sum (bytes_of_string (object_payload objectType content))), w')
    /\ healthy (files w').
Proof.
  intros Hh.
  destruct (createObject_spec objectType content w) as (fs' & _ & _ & Hput).
  destruct (put_healthy
              (SHA1.Sum (bytes_of_string (object_payload objectType content)))
              (compressContent (bytes_of_string (object_payload objectType content)))
              _ Hh) as (fs2 & E & Hh2).
  rewrite E in Hput. destruct Hput as (-> & _ & _).
  eexists. split; [reflexivity | exact Hh2].
Qed.

End Outcomes.

(** ** The tree builder *)

(** Induction on the working tree. *)
Fixpoint node_ind' (P : node -> Prop)
    (HFile : forall contents, P (File contents))
    (HDir : forall children fault,
        Forall (fun c => P c.2) children -> P (Dir children fault))
    (n : node) : P n :=
  match n with
  | File contents => HFile contents
  | Dir children fault =>
      HDir children fault
        ((fix go (l : list (string * node)) : Forall (fun c => P c.2) l :=
            match l with
            | [] => @List.Forall_nil _ (fun c => P c.2)
            | c :: l' =>
                @List.Forall_cons _ (fun c => P c.2) c l'
                  (node_ind' P HFile HDir c.2) (go l')
            end) children)
  end.

Lemma StronglySorted_filter {A} (R : A -> A -> Prop) (P : A -> Prop)
    `{forall x, Decision (P x)} (l : list A) :
  StronglySorted R l -> StronglySorted R (filter P l).
Proof.
  induction 1 as [|x l Hs IH Hx]; [constructor|].
  rewrite filter_cons. destruct (decide (P x)); [|exact IH].
  constructor; [exact IH|].
  rewrite Forall_forall in *. intros y Hy. apply Hx.
  apply list_elem_of_filter in Hy. tauto.
Qed.

Lemma filter_fmap_comm {A B} (f : A -> B) (P : B -> Prop)
    `{forall x, Decision (P x)} (l : list A) :
  filter P (f <$> l) = f <$> filter (fun a => P (f a)) l.
Proof.
  induction l as [|a l IH]; [reflexivity|].
  rewrite fmap_cons, !filter_cons.
  destruct (decide (P (f a))); rewrite IH; reflexivity.
Qed.

Lemma bytes_of_fold_append {A} (f : A -> string) (l : list A) (acc : string) :
  bytes_of_string (fold_left (fun acc a => acc +:+ f a) l acc)
  = bytes_of_string acc ++ concat ((fun a => bytes_of_string (f a)) <$> l).
Proof.
  revert acc. induction l as [|a l IH]; intros acc; simpl.
  - now rewrite app_nil_r.
  - rewrite IH, bytes_of_string_app, <- app_assoc. reflexivity.
Qed.

Lemma fmap_zip_with {A B C D} (g : C -> D) (f : A -> B -> C)
    (l : list A) (k : list B) :
  g <$> zip_with f l k = zip_with (fun a b => g (f a b)) l k.
Proof.
  revert k. induction l as [|a l IH]; intros [|b k]; simpl; try reflexivity.
  now rewrite <- IH.
Qed.

Section TreeFacts.
Context `{GoLib}.

Lemma child_of_entry_of (c : string * node) : child_of (entry_of c) = c.
Proof. now destruct c. Qed.

Lemma createTreeObjects_Dir (children : list (string * node)) (fault : option nat) :
  createTreeObjects (Dir children fault)
  = (hashedEntries ← range_entries (dir_entries children fault) [];
     createObject "tree"
       (bytes_of_string
          (fold_left (fun acc he => acc +:+ format_entry he)
             hashedEntries EmptyString))).
Proof. reflexivity. Qed.

Lemma createTreeObjects_File (contents : option (list byte)) :
  createTreeObjects (File contents)
  = (hashedEntries ← range_entries (sort_Slice entry_less []) [];
     createObject "tree"
       (bytes_of_string
          (fold_left (fun acc he => acc +:+ format_entry he)
             hashedEntries EmptyString))).
Proof. reflexivity. Qed.

(** The entries of the loop are those of the children the directory
    yields. *)
Lemma dir_entries_Permutation (children : list (string * node)) (fault : option nat) :
  dir_entries children fault ≡ₚ entry_of <$> visible fault children.
Proof.
  unfold dir_entries, os_ReadDir. cbn [fst].
  rewrite sort_Slice_Permutation, insertionSort_Permutation.
  destruct fault as [k|]; cbn [visible]; [|reflexivity].
  now rewrite fmap_take.
Qed.

Lemma dir_entries_Sorted (children : list (string * node)) (fault : option nat) :
  StronglySorted (fun a b => sibling_le (child_of a) (child_of b))
    (dir_entries children fault).
Proof.
  unfold dir_entries.
  apply (sort_Slice_Sorted _ entry_less).
  apply (key_lt_swo (fun e => strings_ToLower (Name e))).
Qed.

Lemma format_entry_bytes (entry : DirEntry) (id : list byte) :
  bytes_of_string (format_entry (hashed entry id))
  = tree_entry (child_of entry) id.
Proof.
  unfold format_entry, tree_entry, hashed, child_of. cbn [mode name hash fst snd].
  rewrite !bytes_of_string_app, bytes_of_string_of_bytes. reflexivity.
Qed.

(** The loop over the entries: it appends, in order, one hashed entry for
    each entry but directories named [.git]. *)
Lemma range_entries_outcome (entries : list DirEntry) :
  Forall entry_ok entries ->
  forall acc w,
    outcome w (range_entries entries acc w)
      (fun hashedEntries _ =>
         exists ids,
           Forall2 (fun e id => child_id (target e) id)
             (filter (fun e => listed (child_of e)) entries) ids
           /\ hashedEntries
              = acc ++ zip_with hashed
                         (filter (fun e => listed (child_of e)) entries) ids).
Proof.
  induction 1 as [|e entries [Hsub [Hout _]] Hall IH]; intros acc w.
  - apply outcome_ret. exists []. split; [constructor|].
    cbn. now rewrite app_nil_r.
  - cbn [range_entries]. unfold IsDir.
    destruct (target e) as [contents|children fault] eqn:Ht; cbn [node_IsDir].
    + assert (Hl : listed (child_of e)).
      { unfold listed, child_of. cbn [fst snd]. rewrite Ht. cbn. intros [[=] _]. }
      rewrite filter_cons_True by exact Hl.
      unfold createFileBlobObject, os_ReadFile_node.
      destruct contents as [bytes|].
      * eapply outcome_bind; [apply createObject_outcome|].
        intros id w1 _ [Hid _]. cbv beta.
        eapply outcome_weaken; [apply IH|].
        intros hes w' (ids & Hf2 & ->). exists (id :: ids). split.
        -- constructor; [|exact Hf2]. rewrite Ht, Hid.
           rewrite (object_payload_bytes blob). apply child_id_blob.
        -- rewrite <- app_assoc. cbn [app zip_with]. unfold hashed at 2.
           rewrite Ht. reflexivity.
      * eapply outcome_bind; [apply (outcome_exit w (fun _ _ => False))|].
        intros a w1 _ [].
    + destruct (String.eqb (Name e) ".git") eqn:Hgit.
      * apply String.eqb_eq in Hgit.
        rewrite filter_cons_False; [apply IH|].
        unfold listed, child_of. cbn [fst snd]. rewrite Ht. cbn. tauto.
      * apply String.eqb_neq in Hgit.
        assert (Hl : listed (child_of e)).
        { unfold listed, child_of. cbn [fst snd]. tauto. }
        rewrite filter_cons_True by exact Hl.
        rewrite Hsub.
        eapply outcome_bind; [apply Hout|].
        intros id w1 _ Hbuilt. cbv beta.
        eapply outcome_weaken; [apply IH|].
        intros hes w' (ids & Hf2 & ->). exists (id :: ids). split.
        -- constructor; [|exact Hf2].
           rewrite Ht in *. destruct (Hbuilt eq_refl) as (content & Hc & -> & _).
           now apply child_id_tree.
        -- rewrite <- app_assoc. cbn [app zip_with]. unfold hashed at 2.
           rewrite Ht. reflexivity.
Qed.

(** On a healthy store the loop returns when every entry can be read. *)
Lemma range_entries_returns (entries : list DirEntry) :
  Forall (fun e => entry_ok e /\ readable (target e)) entries ->
  forall acc w, healthy (files w) ->
    exists hashedEntries w',
      range_entries entries acc w = (Ret hashedEntries, w')
      /\ healthy (files w').
Proof.
  induction 1 as [|e entries [[Hsub [_ Hret]] Hread] Hall IH]; intros acc w Hh.
  - exists acc, w. split; [reflexivity | exact Hh].
  - cbn [range_entries]. unfold IsDir.
    destruct (target e) as [contents|children fault] eqn:Ht; cbn [node_IsDir].
    + destruct Hread as [bytes ->].
      unfold createFileBlobObject, os_ReadFile_node, mbind, M_bind, bind.
      destruct (createObject_healthy "blob" bytes w Hh) as (w1 & -> & Hh1).
      apply IH. exact Hh1.
    + destruct (String.eqb (Name e) ".git"); [now apply IH|].
      rewrite Hsub, ?Ht. unfold mbind, M_bind, bind.
      rewrite ?Ht in Hret.
      destruct (Hret w Hh Hread) as (id & w1 & -> & Hh1).
      apply IH. exact Hh1.
Qed.

Lemma dir_entries_ok (children : list (string * node)) (fault : option nat) :
  Forall (fun c => walk_ok c.2) children ->
  Forall entry_ok (dir_entries children fault).
Proof.
  intros Hall. rewrite dir_entries_Permutation.
  apply Forall_fmap. apply Forall_forall. intros c Hc.
  split; [reflexivity|]. cbn [entry_of target].
  rewrite Forall_forall in Hall. apply Hall.
  destruct fault as [k|]; cbn [visible] in Hc; [|exact Hc].
  eapply elem_of_sublist; [exact Hc | apply sublist_take].
Qed.

(** The bytes that [createTreeObjects] hands to [createObject]. *)
Lemma tree_bytes (es : list DirEntry) (ids : list (list byte)) :
  bytes_of_string
    (fold_left (fun acc he => acc +:+ format_entry he)
       ([] ++ zip_with hashed es ids) EmptyString)
  = concat (zip_with tree_entry (child_of <$> es) ids).
Proof.
  rewrite app_nil_l, bytes_of_fold_append, app_nil_l.
  rewrite fmap_zip_with, zip_with_fmap_l. f_equal.
  apply zip_with_ext; [|reflexivity..].
  intros e id. apply format_entry_bytes.
Qed.

Lemma createTreeObjects_walk_ok (n : node) : walk_ok n.
Proof.
  induction n as [contents|children fault IH] using node_ind'.
  - split.
    + intros w. rewrite createTreeObjects_File.
      assert (Hnil : sort_Slice entry_less [] = []).
      { apply Permutation_nil_r. apply sort_Slice_Permutation. }
      rewrite Hnil. cbn [range_entries].
      eapply (outcome_bind _ _ _ (fun _ _ => True));
        [apply outcome_ret; exact I|].
      intros hes w1 _ _. cbv beta.
      eapply outcome_weaken; [apply createObject_outcome|].
      intros id w' _ [=].
    + intros w Hh _. rewrite createTreeObjects_File.
      assert (Hnil : sort_Slice entry_less [] = []).
      { apply Permutation_nil_r. apply sort_Slice_Permutation. }
      rewrite Hnil. cbn [range_entries]. unfold mbind, M_bind, bind, mret, M_ret, ret.
      destruct (createObject_healthy "tree"
                  (bytes_of_string (fold_left (fun acc he => acc +:+ format_entry he) [] EmptyString))
                  w Hh) as (w' & E & Hh').
      eauto.
  - pose proof (dir_entries_ok children fault IH) as Hok. split.
    + intros w. rewrite createTreeObjects_Dir.
      eapply outcome_bind; [apply (range_entries_outcome _ Hok)|].
      intros hes w1 _ (ids & Hf2 & ->). cbv beta.
      eapply outcome_weaken; [apply createObject_outcome|].
      intros id w' [Hid Hstored] _.
      set (es := filter (fun e => listed (child_of e)) (dir_entries children fault)) in *.
      rewrite (object_payload_bytes tree), tree_bytes in Hid, Hstored.
      exists (concat (zip_with tree_entry (child_of <$> es) ids)).
      split; [|split; [exact Hid | exact Hstored]].
      constructor.
      * unfold es. rewrite <- filter_fmap_comm.
        apply filter_Permutation.
        rewrite dir_entries_Permutation, <- list_fmap_compose.
        rewrite (list_fmap_ext (child_of ∘ entry_of) (@Datatypes.id _) (visible fault children));
          [now rewrite list_fmap_id|].
        intros i c _. apply child_of_entry_of.
      * apply (StronglySorted_fmap child_of
                 (fun a b => sibling_le (child_of a) (child_of b))); [auto|].
        apply StronglySorted_filter, dir_entries_Sorted.
      * apply Forall2_fmap_l. exact Hf2.
    + intros w Hh [-> Hread]. rewrite createTreeObjects_Dir.
      assert (Hall : Forall (fun e => entry_ok e /\ readable (target e))
                       (dir_entries children None)).
      { apply Forall_and. split; [exact Hok|].
        rewrite dir_entries_Permutation. cbn [visible].
        apply Forall_fmap. cbn [compose entry_of target].
        clear -Hread. induction children as [|c children IHc]; [constructor|].
        destruct Hread as [Hc Hrest]. constructor; auto. }
      destruct (range_entries_returns _ Hall [] w Hh) as (hes & w1 & E & Hh1).
      unfold mbind, M_bind, bind. rewrite E.
      destruct (createObject_healthy "tree"
                  (bytes_of_string (fold_left (fun acc he => acc +:+ format_entry he) hes EmptyString))
                  w1 Hh1) as (w' & E' & Hh').
      eauto.
Qed.

(** A run of [createTreeObjects] on a directory that returns has built
    a tree object to the format. *)
Lemma createTreeObjects_built (children : list (string * node))
    (fault : option nat) (w : world) :
  match createTreeObjects (Dir children fault) w with
  | (Ret id, w') =>
      exists entries ids,
        entries ≡ₚ filter listed (visible fault children)
        /\ StronglySorted sibling_le entries
        /\ Forall2 (fun c id => child_id c.2 id) entries ids
        /\ id = ObjectID tree (concat (zip_with tree_entry entries ids))
        /\ files w' !! object_path id
           = Some (FFile (compressContent
                     (encoded_payload tree
                        (concat (zip_with tree_entry entries ids)))))
  | (Exit code, _) => code = 1
  | (Panic, _) => False
  end.
Proof.
  destruct (createTreeObjects_walk_ok (Dir children fault)) as [Hout _].
  destruct (Hout w) as [_ HQ].
  destruct (createTreeObjects (Dir children fault) w) as [[id|code|] w'];
    cbn [fst snd] in HQ; [|exact HQ..].
  destruct (HQ eq_refl) as (content & Hc & Hid & Hstored).
  inversion Hc as [ch f entries ids Hperm Hsorted Hids [Hch Hf] Hcontent].
  subst content. exists entries, ids. auto.
Qed.

Lemma NoDup_fmap_eq {A B} (f : A -> B) (l : list A) (x y : A) :
  NoDup (f <$> l) -> x ∈ l -> y ∈ l -> f x = f y -> x = y.
Proof.
  induction l as [|a l IH]; intros Hnd Hx Hy Hf; [now apply elem_of_nil in Hx|].
  rewrite fmap_cons in Hnd. apply NoDup_cons in Hnd as [Ha Hnd].
  apply elem_of_cons in Hx as [->|Hx]; apply elem_of_cons in Hy as [->|Hy].
  - reflexivity.
  - exfalso. apply Ha. rewrite Hf. now apply list_elem_of_fmap_2.
  - exfalso. apply Ha. rewrite <- Hf. now apply list_elem_of_fmap_2.
  - now apply IH.
Qed.

(** [os.ReadDir] gives the same entries for two listings of the same
    children. *)
Lemma os_ReadDir_Permutation (l1 l2 : list DirEntry) :
  NoDup (Name <$> l1) -> l1 ≡ₚ l2 ->
  os_ReadDir l1 None = os_ReadDir l2 None.
Proof.
  intros Hnd Hperm. unfold os_ReadDir. f_equal.
  pose proof (key_lt_swo Name) as Hswo.
  apply (StronglySorted_unique_strong
           (fun a b => string_lt (Name b) (Name a) = false)).
  - intros x1 x2 Hx1 Hx2 H12 H21.
    apply (NoDup_fmap_eq Name l1); [exact Hnd | | |].
    + now rewrite <- (insertionSort_Permutation (fun a b => string_lt (Name a) (Name b)) l1).
    + rewrite Hperm.
      now rewrite <- (insertionSort_Permutation (fun a b => string_lt (Name a) (Name b)) l2).
    + now apply string_lt_total.
  - now apply insertionSort_Sorted.
  - now apply insertionSort_Sorted.
  - now rewrite !insertionSort_Permutation.
Qed.

(** A directory that cannot be opened is built as the tree object of an
    empty directory, whatever it contains; a file that cannot be read
    ends the run. *)
Lemma unreadable_directory_empty_tree :
  (forall children w,
     createTreeObjects (Dir children (Some 0%nat)) w
     = createObject "tree" [] w)
  /\ (forall w, createFileBlobObject (File None) w = (Exit 1, w)).
Proof.
  split; [|reflexivity].
  intros children w. rewrite createTreeObjects_Dir.
  assert (Hnil : dir_entries children (Some 0%nat) = []).
  { apply Permutation_nil_r. rewrite dir_entries_Permutation.
    cbn [visible]. now rewrite take_0. }
  rewrite Hnil. reflexivity.
Qed.

End TreeFacts.

(** C6.  A directory that cannot be read does not stop the build: the
    error of [os.ReadDir] is dropped.  On [locked_tree], where [docs]
    cannot be read, the run returns the id of a root tree that is in the
    store and has an entry for [docs] with the id of the empty tree, and
    no blob for [docs/secret.txt] is written. *)
Theorem unreadable_directory_committed :
  let r := createTreeObjects locked_tree (empty_world locked_tree []) in
  let empty_id := ObjectID tree [] in
  let root :=
    tree_entry ("a.txt"%string, File (Some (bytes_of_string "x")))
      (ObjectID blob (bytes_of_string "x"))
    ++ tree_entry ("docs"%string, Dir [] None) empty_id in
  fst r = Ret (ObjectID tree root)
  /\ os_ReadFile (object_path (ObjectID tree root)) (files (snd r))
     = Some (compressContent (encoded_payload tree root))
  /\ hex_EncodeToString empty_id
     = "4b825dc642cb6eb9a060e54bf8d69288fbee4904"%string
  /\ files (snd r) !! object_path (ObjectID blob (bytes_of_string "s")) = None.
Proof. vm_compute. auto. Qed.

(** ** The store is keyed by content *)

Section StoreFacts.
Context `{GoLib}.

Lemma objects_written_keyed (w w' : world) :
  objects_written (files w) (files w') -> keyed_by_digest w w'.
Proof.
  intros Hw q data Hq Hne.
  destruct (Hw q) as [Heq|[Hd|(payload & -> & Hp)]].
  - rewrite Heq in Hq. contradiction.
  - rewrite Hd in Hq. discriminate Hq.
  - exists payload. rewrite Hp in Hq. injection Hq as <-.
    rewrite compressContent_stream.
    auto using zlib_NewReader_stream, zlib_ReadAll_stream.
Qed.

Lemma extends_objects_written (w w' : world) :
  extends w w' -> objects_written (files w) (files w').
Proof. now intros (fs' & -> & Hw). Qed.

Lemma println_files {A} (m : M A) (f : A -> string) (w : world) :
  files (snd ((a ← m; fmt_Println (f a)) w)) = files (snd (m w)).
Proof.
  unfold mbind, M_bind, bind. now destruct (m w) as [[a|code|] w1].
Qed.

Lemma commitTree_missing (w : world) :
  Args w !! 2%nat = None \/ Args w !! 4%nat = None \/ Args w !! 6%nat = None ->
  commitTree w = (Panic, w).
Proof.
  intros Hnone. unfold commitTree, mbind, M_bind, bind, os_Args.
  destruct (Args w !! 2%nat); [|reflexivity].
  destruct (Args w !! 4%nat); [|reflexivity].
  destruct (Args w !! 6%nat); [|reflexivity].
  destruct Hnone as [Hn|[Hn|Hn]]; discriminate Hn.
Qed.

Lemma createObject_written (objectType : string) (content : list byte) (w : world) :
  objects_written (files w) (files (snd (createObject objectType content w))).
Proof.
  apply extends_objects_written. apply (createObject_outcome objectType content w).
Qed.

Lemma hashObject_written (filename : path) (w : world) :
  objects_written (files w) (files (snd (hashObject filename w))).
Proof.
  unfold hashObject.
  destruct (node_at (worktree w) filename ≫= os_ReadFile_node) as [fileBytes|].
  - rewrite println_files. apply createObject_written.
  - apply objects_written_refl.
Qed.

Lemma writeTree_written (w : world) :
  objects_written (files w) (files (snd (writeTree w))).
Proof.
  unfold writeTree.
  change ((current_directory ≫= _) w)
    with ((treeObjectHash ← createTreeObjects (worktree w);
           fmt_Println (hex_EncodeToString treeObjectHash)) w).
  rewrite println_files. apply extends_objects_written.
  apply (createTreeObjects_walk_ok (worktree w)).
Qed.

Lemma commitTree_written (w : world) :
  objects_written (files w) (files (snd (commitTree w))).
Proof.
  destruct (Args w !! 2%nat) as [T|] eqn:E2;
    [|rewrite commitTree_missing by auto; apply objects_written_refl].
  destruct (Args w !! 4%nat) as [P|] eqn:E4;
    [|rewrite commitTree_missing by auto; apply objects_written_refl].
  destruct (Args w !! 6%nat) as [m|] eqn:E6;
    [|rewrite commitTree_missing by auto; apply objects_written_refl].
  destruct (commitTree_spec w T P m E2 E4 E6) as (fs' & -> & Hw & _).
  eapply object_written_objects. exact Hw.
Qed.

(** C10.  The path of an object is [.git/objects/], the first two of the
    forty hexadecimal digits of its id, [/], the other thirty-eight; and
    whatever the program runs ([createObject], [hashObject], [writeTree],
    [commitTree]), every object file it writes holds the compression of
    the payload whose SHA-1 digest names the file: reading the file back
    with [readAndDecompressFile] gives that payload, and the path of its
    digest is the path of the file. *)
Theorem objects_keyed_by_digest (w : world) :
  (forall id,
     object_path id
     = [".git"; "objects"; substring 0 2 (hex_EncodeToString id);
        substring 2 38 (hex_EncodeToString id)]%string
     /\ (length id = 20%nat ->
         String.length (hex_EncodeToString id) = 40%nat
         /\ String.length (substring 0 2 (hex_EncodeToString id)) = 2%nat
         /\ String.length (substring 2 38 (hex_EncodeToString id)) = 38%nat))
  /\ (forall objectType content,
        keyed_by_digest w (snd (createObject objectType content w)))
  /\ (forall filename, keyed_by_digest w (snd (hashObject filename w)))
  /\ keyed_by_digest w (snd (writeTree w))
  /\ keyed_by_digest w (snd (commitTree w))
  /\ (forall w' q data,
        keyed_by_digest w w' ->
        files w' !! q = Some (FFile data) ->
        files w !! q <> Some (FFile data) ->
        exists payload,
          readAndDecompressFile q w' = (Ret (string_of_bytes payload), w')
          /\ bytes_of_string (string_of_bytes payload) = payload
          /\ object_path (SHA1.Sum payload) = q).
Proof.
  split.
  { intros id. split; [reflexivity|]. intros Hlen.
    assert (Hh : String.length (hex_EncodeToString id) = 40%nat)
      by (rewrite hex_length, Hlen; reflexivity).
    rewrite !substring_length by lia. auto. }
  split; [intros; apply objects_written_keyed, createObject_written|].
  split; [intros; apply objects_written_keyed, hashObject_written|].
  split; [apply objects_written_keyed, writeTree_written|].
  split; [apply objects_written_keyed, commitTree_written|].
  intros w' q data Hk Hq Hne.
  destruct (Hk q data Hq Hne) as (payload & -> & -> & Hhdr & Hall).
  exists payload. split; [|split; [apply bytes_of_string_of_bytes|reflexivity]].
  unfold readAndDecompressFile, os_ReadFile. rewrite Hq, Hhdr, Hall. reflexivity.
Qed.

(** ** Reading an object *)

Lemma strings_Cut_app (header body : string) (sep : ascii) :
  strings_Cut header sep = None ->
  strings_Cut (header ++ String sep body) sep = Some (header, body).
Proof.
  induction header as [|c header IH]; intros Hcut.
  - change (("" ++ String sep body)%string) with (String sep body).
    cbn [strings_Cut]. now rewrite Ascii.eqb_refl.
  - change ((String c header ++ String sep body)%string)
      with (String c (header ++ String sep body)).
    cbn [strings_Cut] in *. destruct (Ascii.eqb c sep); [discriminate Hcut|].
    destruct (strings_Cut header sep) as [[? ?]|]; [discriminate Hcut|].
    now rewrite IH.
Qed.

(** C3, amended.  [catFile] does not check the header of the object it
    reads: whenever the decompressed bytes contain a NUL it returns
    normally and prints the bytes that follow the first NUL, whatever
    precedes it (kind tag, declared length) and whether or not reading
    the stream ended on an error.  There is no [MalformedObject]
    outcome. *)
Theorem catFile_prints_content (blobSHA : string) (w : world)
    (data bytes : list byte) (err : bool) (header body : string) :
  (2 <= String.length blobSHA)%nat ->
  os_ReadFile (blob_path blobSHA) (files w) = Some data ->
  zlib_NewReader data = true ->
  zlib_ReadAll data = (bytes, err) ->
  string_of_bytes bytes = (header ++ NUL ++ body)%string ->
  strings_Cut header "000"%char = None ->
  catFile blobSHA w = (Ret tt, set_stdout (stdout w ++ body) w).
Proof.
  intros Hlen Hfile Hhdr Hall Hbytes Hcut.
  unfold catFile, slice_to, slice_from.
  assert (Hle : (2 <=? String.length blobSHA)%nat = true) by now apply Nat.leb_le.
  rewrite Hle. cbn [checked].
  unfold mbind, M_bind, bind, ret. fold (blob_path blobSHA).
  unfold readAndDecompressFile. rewrite Hfile, Hhdr, Hall, Hbytes.
  unfold strings_SplitN_2.
  change ((header ++ NUL ++ body)%string)
    with ((header ++ String "000"%char body)%string).
  rewrite (strings_Cut_app header body "000"%char Hcut). reflexivity.
Qed.

End StoreFacts.

(** C3, as stated, fails: the object with the wrong length is read and
    its content printed. *)
Lemma catFile_accepts_malformed :
  ~ decode_rejects mislabelled_sha mislabelled_world.
Proof.
  intros Hrejects.
  destruct (Hrejects mislabelled_payload) as [code Hcode].
  - vm_compute. reflexivity.
  - vm_compute. reflexivity.
  - vm_compute in Hcode. discriminate Hcode.
Qed.

Lemma catFile_prints_content_witness :
  catFile mislabelled_sha mislabelled_world
  = (Ret tt, set_stdout "abc" mislabelled_world).
Proof.
  apply (catFile_prints_content mislabelled_sha mislabelled_world
           (compressContent (bytes_of_string mislabelled_payload))
           (bytes_of_string mislabelled_payload) false "blob 5" "abc");
    vm_compute; (reflexivity || lia).
Defined.

(** Without a NUL the index expression panics. *)
Example catFile_without_NUL :
  fst (catFile mislabelled_sha
         (World [] (Dir [] None)
            (<[blob_path mislabelled_sha :=
                 FFile (compressContent (bytes_of_string "blob 3abc"))]> ∅)
            EmptyString))
  = Panic.
Proof. vm_compute. reflexivity. Qed.

(** ** The theorems at concrete inputs *)

Lemma commitTree_deterministic_witness :
  (fst (commitTree commit_run_1) = Panic <-> fst (commitTree commit_run_2) = Panic)
  /\ forall w1' w2',
       commitTree commit_run_1 = (Ret tt, w1') ->
       commitTree commit_run_2 = (Ret tt, w2') ->
       exists T P m,
         let payload :=
           encoded_payload commit (bytes_of_string (commit_content T P m)) in
         let id := SHA1.Sum payload in
         stdout w1' = (stdout commit_run_1 ++ (hex_EncodeToString id ++ LF))%string
         /\ stdout w2' = (stdout commit_run_2 ++ (hex_EncodeToString id ++ LF))%string
         /\ files w1' !! object_path id = Some (FFile (compressContent payload))
         /\ files w2' !! object_path id = Some (FFile (compressContent payload)).
Proof.
  apply (commitTree_deterministic commit_run_1 commit_run_2); reflexivity.
Defined.

(** Both runs return, and print the id that the format gives. *)
Example commit_runs_return :
  fst (commitTree commit_run_1) = Ret tt
  /\ fst (commitTree commit_run_2) = Ret tt
  /\ stdout (snd (commitTree commit_run_1))
     = ("814e359f7589c4f5f7d15adabac2e77219eba36f" ++ LF)%string
  /\ stdout (snd (commitTree commit_run_2))
     = ("earlier output814e359f7589c4f5f7d15adabac2e77219eba36f" ++ LF)%string.
Proof. vm_compute. auto. Qed.

(** The tree of [sample_tree], as [git] computes it. *)
Example sample_tree_run :
  let r := writeTree (empty_world sample_tree []) in
  fst r = Ret tt
  /\ stdout (snd r) = ("b82156768bf012710817a9dbedc9d920bd5885bf" ++ LF)%string.
Proof. vm_compute. auto. Qed.

(** After [init] the store takes the objects of the tree. *)
Example init_then_writeTree :
  let r := (_ ← initRepository; writeTree) (empty_world sample_tree []) in
  fst r = Ret tt
  /\ stdout (snd r)
     = ("Initialized git directory" ++ LF
        ++ "b82156768bf012710817a9dbedc9d920bd5885bf" ++ LF)%string
  /\ os_ReadFile [".git"; "HEAD"]%string (files (snd r))
     = Some (bytes_of_string ("ref: refs/heads/main" ++ LF)).
Proof. vm_compute. auto. Qed.

(** The comparison handed to [sort.Slice] does not order two names that
    differ by case only, and insertion sort leaves such entries in the
    order it finds them: it is [os.ReadDir] that fixes their order. *)
Example entry_less_case_tie :
  let a := entry_of ("a"%string, File None) in
  let A := entry_of ("A"%string, File None) in
  entry_less a A = false /\ entry_less A a = false
  /\ Name <$> sort_Slice entry_less [a; A] = ["a"; "A"]%string
  /\ Name <$> sort_Slice entry_less [A; a] = ["A"; "a"]%string
  /\ Name <$> fst (os_ReadDir [a; A] None) = ["A"; "a"]%string
  /\ Name <$> fst (os_ReadDir [A; a] None) = ["A"; "a"]%string.
Proof. vm_compute. repeat split. Qed.

(** * More of the program *)

(** ** The dispatch on the command line *)

Section DispatchFacts.
Context `{GoLib}.

Lemma lookup_args_short (args : list string) (i : nat) :
  (length args <= i)%nat -> args !! i = None.
Proof. apply lookup_ge_None_2. Qed.

(** X1.  Called without a command, with a command that is not one of the
    six, or with [cat-file], [hash-object] or [ls-tree] and fewer than
    four arguments, [main] leaves with exit code 1 and has changed
    nothing: no file, no output. *)
Theorem main_usage_exit (w : world) :
  (length (Args w) < 2)%nat
  \/ (exists command,
        Args w !! 1%nat = Some command
        /\ ((In command ["cat-file"; "hash-object"; "ls-tree"]%string
             /\ (length (Args w) < 4)%nat)
            \/ ~ In command ["init"; "cat-file"; "hash-object"; "ls-tree";
                             "write-tree"; "commit-tree"]%string)) ->
  main w = (Exit 1, w).
Proof.
  intros Hcase. unfold main, mbind, M_bind, bind, os_Args.
  destruct Hcase as [Hlen|(command & Hcmd & Hcase)].
  - apply Nat.ltb_lt in Hlen. now rewrite Hlen.
  - assert (Hlen : (length (Args w) <? 2)%nat = false).
    { apply Nat.ltb_ge. apply lookup_lt_Some in Hcmd. lia. }
    rewrite Hlen, Hcmd. cbn [checked ret].
    destruct Hcase as [[Hin Hshort]|Hnot].
    + apply Nat.ltb_lt in Hshort.
      cbn [In] in Hin. destruct Hin as [<-|[<-|[<-|[]]]];
        cbn [String.eqb Ascii.eqb Bool.eqb]; now rewrite Hshort.
    + cbn [In] in Hnot.
      destruct (String.eqb_spec command "init") as [->|_];
        [exfalso; apply Hnot; tauto|].
      destruct (String.eqb_spec command "cat-file") as [->|_];
        [exfalso; apply Hnot; tauto|].
      destruct (String.eqb_spec command "hash-object") as [->|_];
        [exfalso; apply Hnot; tauto|].
      destruct (String.eqb_spec command "ls-tree") as [->|_];
        [exfalso; apply Hnot; tauto|].
      destruct (String.eqb_spec command "write-tree") as [->|_];
        [exfalso; apply Hnot; tauto|].
      destruct (String.eqb_spec command "commit-tree") as [->|_];
        [exfalso; apply Hnot; tauto|].
      reflexivity.
Qed.

(** X2.  [commit-tree] is the one command whose arguments [main] does
    not count: with fewer than seven arguments the run panics on the
    index expression instead of leaving with the usage error, and has
    changed nothing; with seven or more it is [commitTree]. *)
Theorem main_commit_tree_unchecked (w : world) :
  Args w !! 1%nat = Some "commit-tree"%string ->
  main w = commitTree w
  /\ ((length (Args w) < 7)%nat -> main w = (Panic, w)).
Proof.
  intros Hcmd.
  assert (Hmain : main w = commitTree w).
  { unfold main, mbind, M_bind, bind, os_Args.
    assert (Hlen : (length (Args w) <? 2)%nat = false).
    { apply Nat.ltb_ge. apply lookup_lt_Some in Hcmd. lia. }
    rewrite Hlen, Hcmd. reflexivity. }
  split; [exact Hmain|].
  intros Hshort. rewrite Hmain.
  unfold commitTree, mbind, M_bind, bind, os_Args.
  destruct (Args w !! 2%nat) as [T|]; [|reflexivity].
  destruct (Args w !! 4%nat) as [P|]; [|reflexivity].
  rewrite (lookup_args_short (Args w) 6) by lia. reflexivity.
Qed.

End DispatchFacts.

Lemma main_usage_exit_witness :
  main (empty_world sample_tree ["mygit"; "ls-tree"]%string)
  = (Exit 1, empty_world sample_tree ["mygit"; "ls-tree"]%string).
Proof.
  apply main_usage_exit. right. exists "ls-tree"%string.
  split; [reflexivity|]. left. split; [cbn; tauto | cbn; lia].
Defined.

Lemma main_commit_tree_unchecked_witness :
  main (empty_world sample_tree ["mygit"; "commit-tree"; "T"; "-p"; "P"]%string)
  = (Panic, empty_world sample_tree ["mygit"; "commit-tree"; "T"; "-p"; "P"]%string).
Proof.
  apply (main_commit_tree_unchecked
           (empty_world sample_tree ["mygit"; "commit-tree"; "T"; "-p"; "P"]%string)).
  - reflexivity.
  - cbn. lia.
Defined.

(** ** Commands that do not look at the arguments *)

Lemma args_blind_ret {A} (a : A) : args_blind (mret a).
Proof. now intros args w. Qed.

Lemma args_blind_exit {A} (code : Z) : args_blind (@os_Exit A code).
Proof. now intros args w. Qed.

Lemma args_blind_checked {A} (o : option A) : args_blind (checked o).
Proof. now destruct o; intros args w. Qed.

Lemma args_blind_bind {A B} (m : M A) (k : A -> M B) :
  args_blind m -> (forall a, args_blind (k a)) -> args_blind (m ≫= k).
Proof.
  intros Hm Hk args w. unfold mbind, M_bind, bind. rewrite Hm.
  destruct (m w) as [[a|code|] w1]; cbn [fst snd]; [apply Hk|reflexivity..].
Qed.

Lemma args_blind_or_exit (call : gmap path fnode -> option (gmap path fnode)) :
  args_blind (or_exit call).
Proof.
  intros args w. unfold or_exit. cbn [files set_Args].
  now destruct (call (files w)).
Qed.

Lemma args_blind_Print (s : string) : args_blind (fmt_Print s).
Proof. now intros args w. Qed.

Lemma args_blind_range_modes (ms contentParts : list string) (index : nat) :
  forall filesAndDirs, args_blind (range_modes ms contentParts index filesAndDirs).
Proof.
  induction ms as [|mode ms IH]; intros acc; cbn [range_modes].
  - apply args_blind_ret.
  - apply args_blind_bind; [apply args_blind_checked|]. intros part.
    destruct (strings_Contains part mode); [|apply IH].
    apply args_blind_bind; [apply args_blind_checked|]. intros next. apply IH.
Qed.

Lemma args_blind_range_parts (count : nat) (contentParts : list string) :
  forall index filesAndDirs,
    args_blind (range_parts count contentParts index filesAndDirs).
Proof.
  induction count as [|count IH]; intros index acc; cbn [range_parts].
  - apply args_blind_ret.
  - apply args_blind_bind; [apply args_blind_range_modes|]. intros acc'. apply IH.
Qed.

Section BlindFacts.
Context `{GoLib}.

Lemma args_blind_writeObject (hash content : list byte) :
  args_blind (writeObject hash content).
Proof.
  unfold writeObject.
  apply args_blind_bind; [apply args_blind_checked|]. intros head2.
  apply args_blind_bind; [apply args_blind_checked|]. intros rest.
  apply args_blind_bind; [apply args_blind_or_exit|]. intros _.
  apply args_blind_or_exit.
Qed.

Lemma args_blind_createObject (objectType : string) (content : list byte) :
  args_blind (createObject objectType content).
Proof.
  unfold createObject.
  apply args_blind_bind; [apply args_blind_writeObject|]. intros _.
  apply args_blind_ret.
Qed.

Lemma args_blind_readAndDecompressFile (filePath : path) :
  args_blind (readAndDecompressFile filePath).
Proof.
  intros args w. unfold readAndDecompressFile. cbn [files set_Args].
  destruct (os_ReadFile filePath (files w)) as [fileBytes|]; [|reflexivity].
  destruct (zlib_NewReader fileBytes); [|reflexivity].
  now destruct (zlib_ReadAll fileBytes).
Qed.

Lemma args_blind_catFile (blobSHA : string) : args_blind (catFile blobSHA).
Proof.
  unfold catFile.
  apply args_blind_bind; [apply args_blind_checked|]. intros head2.
  apply args_blind_bind; [apply args_blind_checked|]. intros rest.
  apply args_blind_bind; [apply args_blind_readAndDecompressFile|]. intros content.
  apply args_blind_bind; [apply args_blind_checked|]. intros blobContent.
  apply args_blind_Print.
Qed.

Lemma args_blind_lsTree (treeSHA : string) : args_blind (lsTree treeSHA).
Proof.
  unfold lsTree.
  apply args_blind_bind; [apply args_blind_checked|]. intros head2.
  apply args_blind_bind; [apply args_blind_checked|]. intros rest.
  apply args_blind_bind; [apply args_blind_readAndDecompressFile|]. intros content.
  apply args_blind_bind; [apply args_blind_range_parts|]. intros filesAndDirs.
  apply args_blind_Print.
Qed.

Lemma args_blind_hashObject (filename : path) : args_blind (hashObject filename).
Proof.
  intros args w. unfold hashObject. cbn [worktree set_Args].
  destruct (node_at (worktree w) filename ≫= os_ReadFile_node) as [fileBytes|];
    [|reflexivity].
  apply (args_blind_bind (createObject "blob" fileBytes)
           (fun hash => fmt_Println (hex_EncodeToString hash))).
  - apply args_blind_createObject.
  - intros hash. apply args_blind_Print.
Qed.

(** X3.  For [cat-file], [hash-object] and [ls-tree], [main] takes the
    command from the second argument and the operand from the fourth and
    looks at nothing else: the program name, the flag in third place
    ([-p], [-w], anything) and whatever follows the operand have no
    effect on the outcome, the files or the output. *)
Theorem main_ignores_flag (w : world) (args' : list string) (command : string) :
  In command ["cat-file"; "hash-object"; "ls-tree"]%string ->
  Args w !! 1%nat = Some command ->
  args' !! 1%nat = Some command ->
  args' !! 3%nat = Args w !! 3%nat ->
  main (set_Args args' w) = (fst (main w), set_Args args' (snd (main w))).
Proof.
  intros Hin Hcmd Hcmd' Hop.
  assert (H2 : (length (Args w) <? 2)%nat = false).
  { apply Nat.ltb_ge. apply lookup_lt_Some in Hcmd. lia. }
  assert (H2' : (length args' <? 2)%nat = false).
  { apply Nat.ltb_ge. apply lookup_lt_Some in Hcmd'. lia. }
  assert (H4 : (length args' <? 4)%nat = (length (Args w) <? 4)%nat).
  { destruct (Args w !! 3%nat) as [operand|] eqn:E.
    - apply lookup_lt_Some in E, Hop.
      transitivity false; [|symmetry]; apply Nat.ltb_ge; lia.
    - apply lookup_ge_None_1 in E, Hop.
      transitivity true; [|symmetry]; apply Nat.ltb_lt; lia. }
  unfold main, mbind, M_bind, bind, os_Args.
  cbn [Args set_Args]. rewrite H2, H2', Hcmd, Hcmd'. cbn [checked ret].
  rewrite H4, Hop.
  cbn [In] in Hin. destruct Hin as [<-|[<-|[<-|[]]]];
    cbn [String.eqb Ascii.eqb Bool.eqb];
    (destruct (length (Args w) <? 4)%nat; [reflexivity|]);
    (destruct (Args w !! 3%nat) as [operand|]; [|reflexivity]).
  - apply args_blind_catFile.
  - apply args_blind_hashObject.
  - apply args_blind_lsTree.
Qed.

End BlindFacts.

Lemma main_ignores_flag_witness :
  main (set_Args ["git"; "cat-file"; "--batch"; mislabelled_sha; "more"]
          (set_Args ["mygit"; "cat-file"; "-p"; mislabelled_sha] mislabelled_world))
  = (fst (main (set_Args ["mygit"; "cat-file"; "-p"; mislabelled_sha] mislabelled_world)),
     set_Args ["git"; "cat-file"; "--batch"; mislabelled_sha; "more"]
       (snd (main (set_Args ["mygit"; "cat-file"; "-p"; mislabelled_sha]
                     mislabelled_world)))).
Proof.
  apply (main_ignores_flag
           (set_Args ["mygit"; "cat-file"; "-p"; mislabelled_sha] mislabelled_world)
           ["git"; "cat-file"; "--batch"; mislabelled_sha; "more"]
           "cat-file"); try reflexivity.
  cbn. tauto.
Defined.

(** ** [initRepository] *)

Lemma mkdir_one (a : string) (fs : gmap path fnode) :
  default fs (os_MkdirAll [a] fs)
  = match fs !! [a] with Some (FFile _) => fs | _ => ensure_dir [a] fs end.
Proof.
  unfold os_MkdirAll, ensure_dir. cbn [mkdir_all app].
  destruct (fs !! [a]) as [[|d]|]; reflexivity.
Qed.

Lemma mkdir_below_dir (a b : string) (fs : gmap path fnode) :
  fs !! [a] = Some FDir ->
  default fs (os_MkdirAll [a; b] fs) = ensure_dir [a; b] fs.
Proof.
  intros Ha. unfold os_MkdirAll, ensure_dir. cbn [mkdir_all app]. rewrite Ha.
  destruct (fs !! [a; b]) as [[|d]|]; reflexivity.
Qed.

Lemma mkdir_below_file (a b : string) (d : list byte) (fs : gmap path fnode) :
  fs !! [a] = Some (FFile d) ->
  default fs (os_MkdirAll [a; b] fs) = fs.
Proof.
  intros Ha. unfold os_MkdirAll. cbn [mkdir_all app]. now rewrite Ha.
Qed.

Lemma ensure_dir_lookup (p : path) (fs : gmap path fnode) (q : path) :
  ensure_dir p fs !! q
  = if decide (q = p) then Some (default FDir (fs !! q)) else fs !! q.
Proof.
  unfold ensure_dir. destruct (decide (q = p)) as [->|Hne].
  - destruct (fs !! p) as [n|] eqn:E; [exact E|]. now rewrite lookup_insert_eq.
  - destruct (fs !! p); [reflexivity|]. now rewrite lookup_insert_ne.
Qed.

Lemma ensure_head_lookup (fs : gmap path fnode) (q : path) :
  ensure_head fs !! q
  = if decide (q = [".git"; "HEAD"]%string)
    then match fs !! q with
         | Some FDir => Some FDir
         | _ => Some (FFile head_contents)
         end
    else fs !! q.
Proof.
  unfold ensure_head. destruct (decide (q = [".git"; "HEAD"]%string)) as [->|Hne].
  - destruct (fs !! [".git"; "HEAD"]%string) as [[|d]|] eqn:E;
      rewrite ?lookup_insert_eq; auto.
  - destruct (fs !! [".git"; "HEAD"]%string) as [[|d]|] eqn:E;
      rewrite ?lookup_insert_ne; auto.
Qed.

Lemma write_head (fs : gmap path fnode) :
  default fs (os_WriteFile [".git"; "HEAD"]%string head_contents fs)
  = match fs !! [".git"%string] with
    | Some FDir => ensure_head fs
    | _ => fs
    end.
Proof.
  unfold os_WriteFile, ensure_head, is_dir. cbn [removelast].
  destruct (fs !! [".git"; "HEAD"]%string) as [[|d]|];
    destruct (fs !! [".git"%string]) as [[|d']|]; reflexivity.
Qed.

Lemma init_files_lookup (fs : gmap path fnode) (q : path) :
  init_files fs !! q
  = match fs !! [".git"%string] with
    | Some (FFile _) => fs !! q
    | _ =>
      if decide (q = [".git"; "HEAD"]%string)
      then match fs !! q with
           | Some FDir => Some FDir
           | _ => Some (FFile head_contents)
           end
      else if decide (q = [".git"; "refs"]%string) then Some (default FDir (fs !! q))
      else if decide (q = [".git"; "objects"]%string) then Some (default FDir (fs !! q))
      else if decide (q = [".git"%string]) then Some (default FDir (fs !! q))
      else fs !! q
    end.
Proof.
  unfold init_files.
  destruct (fs !! [".git"%string]) as [[|d]|]; [|reflexivity|];
    rewrite ensure_head_lookup, !ensure_dir_lookup;
    repeat case_decide; subst; try discriminate; try reflexivity.
Qed.

Section InitFacts.
Context `{GoLib}.

(** [initRepository] written out: it returns, whatever the calls say. *)
Lemma initRepository_eq (w : world) :
  initRepository w
  = (Ret tt, set_stdout (stdout w ++ ("Initialized git directory" ++ LF))
               (set_files (init_files (files w)) w)).
Proof.
  unfold initRepository, fmt_Println, fmt_Print. cbn [stdout set_files].
  f_equal. f_equal. f_equal. fold head_contents. unfold init_files.
  set (fs := files w). rewrite mkdir_one.
  assert (Hdir : fs !! [".git"%string] = Some FDir \/ fs !! [".git"%string] = None ->
            ensure_dir [".git"%string] fs !! [".git"%string] = Some FDir).
  { intros [E|E]; rewrite ensure_dir_lookup, decide_True, E by reflexivity;
      reflexivity. }
  destruct (fs !! [".git"%string]) as [[|d]|] eqn:E1.
  - specialize (Hdir (or_introl eq_refl)).
    rewrite (mkdir_below_dir ".git" "objects") by exact Hdir.
    rewrite (mkdir_below_dir ".git" "refs")
      by now rewrite ensure_dir_lookup, decide_False.
    rewrite write_head.
    rewrite (ensure_dir_lookup [".git"; "refs"]%string), decide_False by discriminate.
    rewrite (ensure_dir_lookup [".git"; "objects"]%string), decide_False
      by discriminate.
    now rewrite Hdir.
  - rewrite (mkdir_below_file ".git" "objects" d fs E1).
    rewrite (mkdir_below_file ".git" "refs" d fs E1).
    now rewrite write_head, E1.
  - specialize (Hdir (or_intror eq_refl)).
    rewrite (mkdir_below_dir ".git" "objects") by exact Hdir.
    rewrite (mkdir_below_dir ".git" "refs")
      by now rewrite ensure_dir_lookup, decide_False.
    rewrite write_head.
    rewrite (ensure_dir_lookup [".git"; "refs"]%string), decide_False by discriminate.
    rewrite (ensure_dir_lookup [".git"; "objects"]%string), decide_False
      by discriminate.
    now rewrite Hdir.
Qed.

(** X4.  [initRepository] reports its errors and goes on: it always
    returns normally and prints [Initialized git directory], also when
    it could create nothing.  With a regular file in the place of [.git]
    the files are left exactly as they were.  In every case nothing is
    removed and no path changes between file and directory: the only
    entry it may overwrite is the file [.git/HEAD], and the only entries
    it may add are [.git], [.git/objects], [.git/refs] and [.git/HEAD]. *)
Theorem initRepository_reports_success (w : world) :
  exists fs',
    initRepository w
    = (Ret tt, set_stdout (stdout w ++ ("Initialized git directory" ++ LF))
                 (set_files fs' w))
    /\ (forall d, files w !! [".git"%string] = Some (FFile d) -> fs' = files w)
    /\ (forall q n, files w !! q = Some n ->
          fs' !! q = Some n
          \/ (q = [".git"; "HEAD"]%string
              /\ (exists d, n = FFile d)
              /\ fs' !! q = Some (FFile head_contents)))
    /\ (forall q, files w !! q = None -> fs' !! q = None \/ In q init_paths).
Proof.
  exists (init_files (files w)). split; [apply initRepository_eq|].
  split; [|split].
  - intros d Hd. unfold init_files. now rewrite Hd.
  - intros q n Hq. rewrite init_files_lookup.
    destruct (files w !! [".git"%string]) as [[|d]|]; auto;
      repeat case_decide; subst; rewrite Hq; cbn [default]; auto;
      destruct n as [|d']; eauto 6.
  - intros q Hq. rewrite init_files_lookup. unfold init_paths. cbn [In].
    destruct (files w !! [".git"%string]) as [[|d]|]; auto;
      repeat case_decide; subst; auto 6.
Qed.

(** X5.  When no file is in the place of one of the three directories
    and no directory in the place of [HEAD], [initRepository] leaves the
    three directories and a [HEAD] that holds [ref: refs/heads/main] and
    a newline, whatever [HEAD] held before: on a repository that exists
    it resets [HEAD].  A store that takes every object still does
    afterwards, and so does the store made in an empty directory. *)
Theorem initRepository_creates (w : world) :
  (forall d, files w !! [".git"%string] <> Some (FFile d)) ->
  (forall d, files w !! [".git"; "objects"]%string <> Some (FFile d)) ->
  (forall d, files w !! [".git"; "refs"]%string <> Some (FFile d)) ->
  files w !! [".git"; "HEAD"]%string <> Some FDir ->
  let fs' := files (snd (initRepository w)) in
  fs' !! [".git"%string] = Some FDir
  /\ fs' !! [".git"; "objects"]%string = Some FDir
  /\ fs' !! [".git"; "refs"]%string = Some FDir
  /\ fs' !! [".git"; "HEAD"]%string
     = Some (FFile (bytes_of_string ("ref: refs/heads/main" ++ LF)))
  /\ ((healthy (files w) \/ files w = ∅) -> healthy fs').
Proof.
  intros Hgit Hobjects Hrefs Hhead fs'.
  assert (Hfs : fs' = init_files (files w))
    by (unfold fs'; now rewrite initRepository_eq).
  assert (Hlook : forall q, fs' !! q =
      if decide (q = [".git"; "HEAD"]%string)
      then match files w !! q with
           | Some FDir => Some FDir
           | _ => Some (FFile head_contents)
           end
      else if decide (q = [".git"; "refs"]%string)
      then Some (default FDir (files w !! q))
      else if decide (q = [".git"; "objects"]%string)
      then Some (default FDir (files w !! q))
      else if decide (q = [".git"%string]) then Some (default FDir (files w !! q))
      else files w !! q).
  { intros q. rewrite Hfs, init_files_lookup.
    destruct (files w !! [".git"%string]) as [[|d]|] eqn:E; try reflexivity.
    now destruct (Hgit d). }
  clearbody fs'.
  assert (Hg : fs' !! [".git"%string] = Some FDir).
  { rewrite Hlook. repeat (rewrite decide_False by discriminate).
    rewrite decide_True by reflexivity.
    destruct (files w !! [".git"%string]) as [[|d]|]; try reflexivity.
    now destruct (Hgit d). }
  assert (Ho : fs' !! [".git"; "objects"]%string = Some FDir).
  { rewrite Hlook. repeat (rewrite decide_False by discriminate).
    rewrite decide_True by reflexivity.
    destruct (files w !! [".git"; "objects"]%string) as [[|d]|]; try reflexivity.
    now destruct (Hobjects d). }
  split; [exact Hg|]. split; [exact Ho|]. split; [|split].
  - rewrite Hlook. repeat (rewrite decide_False by discriminate).
    rewrite decide_True by reflexivity.
    destruct (files w !! [".git"; "refs"]%string) as [[|d]|]; try reflexivity.
    now destruct (Hrefs d).
  - rewrite Hlook. rewrite decide_True by reflexivity.
    destruct (files w !! [".git"; "HEAD"]%string) as [[|d]|]; try reflexivity.
    now destruct Hhead.
  - intros Hstore. split; [|split; [|split]].
    + intros d. rewrite Hg. discriminate.
    + intros d. rewrite Ho. discriminate.
    + intros x d. rewrite Hlook. repeat (rewrite decide_False by discriminate).
      destruct Hstore as [(_ & _ & H3 & _)| ->];
        [apply H3|now rewrite lookup_empty].
    + intros x y. rewrite Hlook. repeat (rewrite decide_False by discriminate).
      destruct Hstore as [(_ & _ & _ & H4)| ->];
        [apply H4|now rewrite lookup_empty].
Qed.

(** X6.  Running [initRepository] a second time changes no file: what
    the first run made or could not make, the second finds as it is. *)
Theorem initRepository_idempotent (w : world) :
  files (snd (initRepository (snd (initRepository w))))
  = files (snd (initRepository w)).
Proof.
  rewrite (initRepository_eq w). cbn [snd].
  rewrite initRepository_eq. cbn [snd files set_files set_stdout].
  set (fs := files w).
  destruct (fs !! [".git"%string]) as [[|d]|] eqn:E1.
  2:{ assert (E : init_files fs = fs) by (unfold init_files; now rewrite E1).
      now rewrite !E. }
  all: assert (E1' : init_files fs !! [".git"%string] = Some FDir)
    by (rewrite init_files_lookup, E1; reflexivity).
  all: apply map_eq; intros q; rewrite (init_files_lookup (init_files fs)), E1'.
  all: rewrite init_files_lookup, E1.
  all: repeat case_decide; try reflexivity.
  all: destruct (fs !! q) as [[|d]|]; reflexivity.
Qed.

End InitFacts.

Lemma initRepository_creates_witness :
  files (snd (initRepository (empty_world sample_tree ["mygit"; "init"])))
    !! [".git"; "HEAD"]%string
  = Some (FFile (bytes_of_string ("ref: refs/heads/main" ++ LF))).
Proof.
  apply (initRepository_creates (empty_world sample_tree ["mygit"; "init"]));
    intros; cbn [files empty_world]; rewrite lookup_empty; discriminate.
Defined.

(** ** Writing an object and reading it back *)

Lemma string_forall_app (P : ascii -> bool) (a b : string) :
  string_forall P (a ++ b) = string_forall P a && string_forall P b.
Proof.
  induction a as [|c a IH]; [reflexivity|].
  change ((String c a ++ b)%string) with (String c (a ++ b)).
  cbn [string_forall]. now rewrite IH, andb_assoc.
Qed.

Lemma string_forall_impl (P Q : ascii -> bool) (s : string) :
  (forall c, P c = true -> Q c = true) ->
  string_forall P s = true -> string_forall Q s = true.
Proof.
  intros HPQ. induction s as [|c s IH]; [reflexivity|]. cbn [string_forall].
  intros [Hc Hs]%andb_true_iff. now rewrite (HPQ c Hc), IH.
Qed.

Lemma string_of_uint_digits (d : Decimal.uint) :
  string_forall is_digit (NilEmpty.string_of_uint d) = true.
Proof. induction d; cbn [NilEmpty.string_of_uint string_forall]; auto. Qed.

Lemma fmt_d_digits (n : nat) : string_forall is_digit (fmt_d n) = true.
Proof.
  unfold fmt_d, NilZero.string_of_uint.
  destruct (N.to_uint (N.of_nat n)) eqn:E; try reflexivity;
    rewrite <- E; apply string_of_uint_digits.
Qed.

Lemma strings_Cut_None (s : string) (sep : ascii) :
  string_forall (fun c => negb (Ascii.eqb c sep)) s = true ->
  strings_Cut s sep = None.
Proof.
  induction s as [|c s IH]; [reflexivity|]. cbn [string_forall strings_Cut].
  intros [Hc Hs]%andb_true_iff. apply negb_true_iff in Hc. now rewrite Hc, IH.
Qed.

(** The header of an object has no NUL. *)
Lemma header_without_NUL (k : ObjectKind) (n : nat) :
  strings_Cut (kind_tag k ++ " " ++ fmt_d n) "000"%char = None.
Proof.
  apply strings_Cut_None. rewrite !string_forall_app.
  rewrite (string_forall_impl is_digit _ (fmt_d n)); [|idtac|apply fmt_d_digits].
  - now destruct k.
  - intros c Hc. unfold is_digit in Hc. cbn [list_ascii_of_string existsb] in Hc.
    destruct (Ascii.eqb_spec c "000"%char) as [->|_]; [discriminate Hc|reflexivity].
Qed.

Lemma blob_path_hex (id : list byte) :
  length id = SHA1.Size ->
  blob_path (hex_EncodeToString id) = object_path id
  /\ (2 <= String.length (hex_EncodeToString id))%nat.
Proof.
  intros Hlen. destruct (slices_of_digest id Hlen) as (_ & _ & _ & Hpath).
  assert (Hh : String.length (hex_EncodeToString id) = 40%nat)
    by (rewrite hex_length, Hlen; reflexivity).
  split; [|lia]. rewrite <- Hpath. unfold blob_path, filepath_Join. rewrite Hh.
  cbn [Nat.sub]. rewrite <- app_assoc. f_equal.
  assert (H2 : substring 0 2 (hex_EncodeToString id) <> EmptyString).
  { apply (nonempty_of_length _ 1). apply substring_length. lia. }
  assert (H38 : substring 2 38 (hex_EncodeToString id) <> EmptyString).
  { apply (nonempty_of_length _ 37). apply substring_length. lia. }
  now rewrite !filter_cons_True, !filter_nil by assumption.
Qed.

Section RoundTrip.
Context `{GoLib}.

(** [catFile] on an object the program stored. *)
Lemma catFile_stored (blobSHA : string) (w : world) (payload : list byte)
    (header body : string) :
  (2 <= String.length blobSHA)%nat ->
  files w !! blob_path blobSHA = Some (FFile (compressContent payload)) ->
  string_of_bytes payload = (header ++ NUL ++ body)%string ->
  strings_Cut header "000"%char = None ->
  catFile blobSHA w = (Ret tt, set_stdout (stdout w ++ body) w).
Proof.
  intros Hlen Hfile Hbytes Hcut.
  unfold catFile, slice_to, slice_from.
  assert (Hle : (2 <=? String.length blobSHA)%nat = true) by now apply Nat.leb_le.
  rewrite Hle. cbn [checked].
  unfold mbind, M_bind, bind, ret. fold (blob_path blobSHA).
  unfold readAndDecompressFile, os_ReadFile. rewrite Hfile.
  rewrite compressContent_stream, zlib_NewReader_stream, zlib_ReadAll_stream.
  rewrite Hbytes. unfold strings_SplitN_2.
  change ((header ++ NUL ++ body)%string)
    with ((header ++ String "000"%char body)%string).
  rewrite (strings_Cut_app header body "000"%char Hcut). reflexivity.
Qed.

(** What [catFile] prints for the object of a kind and a content. *)
Lemma catFile_object (k : ObjectKind) (content : list byte) (w : world) :
  files w !! object_path (ObjectID k content)
  = Some (FFile (compressContent (encoded_payload k content))) ->
  catFile (hex_EncodeToString (ObjectID k content)) w
  = (Ret tt, set_stdout (stdout w ++ string_of_bytes content) w).
Proof.
  intros Hfile.
  destruct (blob_path_hex (ObjectID k content) (Sum_length _)) as [Hpath Hlen].
  apply (catFile_stored _ w (encoded_payload k content)
           (kind_tag k ++ " " ++ fmt_d (length content))).
  - exact Hlen.
  - now rewrite Hpath.
  - rewrite <- object_payload_bytes, string_of_bytes_of_string.
    unfold object_payload. now rewrite !string_app_assoc.
  - apply header_without_NUL.
Qed.

(** X7.  [hash-object] followed by [cat-file]: on a store that takes
    every object, [hashObject] on a file that can be read returns,
    prints the forty hexadecimal digits of the blob id and a newline,
    and [catFile] on these digits then prints the bytes of the file,
    all of them and nothing else. *)
Theorem hashObject_then_catFile (filename : path) (w : world)
    (fileBytes : list byte) :
  healthy (files w) ->
  node_at (worktree w) filename ≫= os_ReadFile_node = Some fileBytes ->
  let sha := hex_EncodeToString (ObjectID blob fileBytes) in
  exists w1,
    hashObject filename w = (Ret tt, w1)
    /\ stdout w1 = (stdout w ++ (sha ++ LF))%string
    /\ String.length sha = 40%nat
    /\ catFile sha w1
       = (Ret tt, set_stdout (stdout w1 ++ string_of_bytes fileBytes) w1).
Proof.
  intros Hhealthy Hread sha.
  destruct (createObject_spec "blob" fileBytes w) as (fs' & _ & _ & Hput).
  rewrite (object_payload_bytes blob) in Hput. fold (ObjectID blob fileBytes) in Hput.
  destruct (put_healthy (ObjectID blob fileBytes)
              (compressContent (encoded_payload blob fileBytes)) (files w) Hhealthy)
    as (fs2 & Hfs2 & _).
  rewrite Hfs2 in Hput. destruct Hput as (Hrun & -> & Hfile).
  exists (set_stdout (stdout w ++ (sha ++ LF)) (set_files fs2 w)).
  split; [|split; [reflexivity|split]].
  - unfold hashObject. rewrite Hread. unfold mbind, M_bind, bind.
    rewrite Hrun. reflexivity.
  - unfold sha. rewrite hex_length. unfold ObjectID. now rewrite Sum_length.
  - apply catFile_object. exact Hfile.
Qed.

(** X8.  [commit-tree] followed by [cat-file]: on a store that takes
    every object, [commitTree] returns and prints the id of the commit,
    and [catFile] on that id prints the text of the commit: the [tree]
    and [parent] lines with the arguments as they were given, the two
    fixed lines, the blank line and the message. *)
Theorem commitTree_then_catFile (w : world) (T P m : string) :
  healthy (files w) ->
  Args w !! 2%nat = Some T -> Args w !! 4%nat = Some P ->
  Args w !! 6%nat = Some m ->
  let sha := hex_EncodeToString
               (ObjectID commit (bytes_of_string (commit_content T P m))) in
  exists w1,
    commitTree w = (Ret tt, w1)
    /\ stdout w1 = (stdout w ++ (sha ++ LF))%string
    /\ catFile sha w1
       = (Ret tt, set_stdout (stdout w1 ++ commit_text T P m) w1).
Proof.
  intros Hhealthy HT HP Hm sha.
  destruct (commitTree_spec w T P m HT HP Hm) as (fs' & _ & _ & Hput).
  set (content := bytes_of_string (commit_content T P m)) in *.
  fold (ObjectID commit content) in Hput.
  destruct (put_healthy (ObjectID commit content)
              (compressContent (encoded_payload commit content)) (files w) Hhealthy)
    as (fs2 & Hfs2 & _).
  rewrite Hfs2 in Hput. destruct Hput as (Hrun & ->).
  exists (World (Args w) (worktree w) fs2 (stdout w ++ (sha ++ LF))).
  split; [exact Hrun|]. split; [reflexivity|].
  rewrite <- commit_content_text.
  rewrite <- (string_of_bytes_of_string (commit_content T P m)).
  apply catFile_object. cbn [files]. apply (put_lookup _ _ _ _ Hfs2).
Qed.

End RoundTrip.

Lemma hashObject_then_catFile_witness :
  exists w1,
    hashObject ["a.txt"] (empty_world sample_tree []) = (Ret tt, w1)
    /\ catFile (hex_EncodeToString (ObjectID blob (bytes_of_string "x"))) w1
       = (Ret tt, set_stdout (stdout w1 ++ "x") w1).
Proof.
  destruct (hashObject_then_catFile ["a.txt"]%string (empty_world sample_tree [])
              (bytes_of_string "x") healthy_empty eq_refl)
    as (w1 & Hrun & _ & _ & Hcat).
  exists w1. split; [exact Hrun|exact Hcat].
Defined.

Lemma commitTree_then_catFile_witness :
  exists w1,
    commitTree (empty_world sample_tree ["mygit"; "commit-tree"; "T"; "-p"; "P"; "-m"; "m"])
    = (Ret tt, w1)
    /\ catFile (hex_EncodeToString
                  (ObjectID commit (bytes_of_string (commit_content "T" "P" "m")))) w1
       = (Ret tt, set_stdout (stdout w1 ++ commit_text "T" "P" "m") w1).
Proof.
  destruct (commitTree_then_catFile
              (empty_world sample_tree
                 ["mygit"; "commit-tree"; "T"; "-p"; "P"; "-m"; "m"])
              "T" "P" "m" healthy_empty eq_refl eq_refl eq_refl)
    as (w1 & Hrun & _ & Hcat).
  exists w1. split; [exact Hrun|exact Hcat].
Defined.

(** ** [lsTree] *)

Lemma string_app_nil_r (s : string) : (s ++ "")%string = s.
Proof.
  induction s as [|c s IH]; [reflexivity|].
  change ((String c s ++ "")%string) with (String c (s ++ "")%string). now rewrite IH.
Qed.

Lemma split_on_unbroken_sep (sep : ascii -> bool) (a b : string) (c : ascii) :
  string_forall (fun x => negb (sep x)) a = true -> sep c = true ->
  split_on sep (a ++ String c b)%string = a :: split_on sep b.
Proof.
  intros Ha Hc. induction a as [|x a IH].
  - change (("" ++ String c b)%string) with (String c b).
    cbn [split_on]. now rewrite Hc.
  - change ((String x a ++ String c b)%string) with (String x (a ++ String c b)%string).
    cbn [split_on string_forall] in *.
    apply andb_true_iff in Ha as [Hx Ha]. apply negb_true_iff in Hx.
    now rewrite Hx, (IH Ha).
Qed.

Lemma split_on_unbroken (sep : ascii -> bool) (a : string) :
  string_forall (fun x => negb (sep x)) a = true -> split_on sep a = [a].
Proof.
  induction a as [|x a IH]; [reflexivity|]. cbn [split_on string_forall].
  intros [Hx Ha]%andb_true_iff. apply negb_true_iff in Hx.
  now rewrite Hx, (IH Ha).
Qed.

Lemma fold_append {A} (f : A -> string) (l : list A) (acc : string) :
  fold_left (fun acc a => String.append acc (f a)) l acc
  = (acc ++ foldr (fun a r => f a ++ r)%string "" l)%string.
Proof.
  revert acc. induction l as [|a l IH]; intros acc; cbn [fold_left foldr].
  - now rewrite string_app_nil_r.
  - now rewrite IH, string_app_assoc.
Qed.

Lemma split_tree_text (carry : string) (entries : list HashedEntry) :
  unbroken carry = true ->
  forallb listable entries = true ->
  regexp_Split
    (carry ++ foldr (fun he r => format_entry he ++ r) "" entries)%string
  = parts_after carry entries.
Proof.
  revert carry. induction entries as [|he entries IH]; intros carry Hc Hes.
  - cbn [foldr parts_after]. rewrite string_app_nil_r.
    now apply split_on_unbroken.
  - cbn [foldr parts_after forallb] in *.
    apply andb_true_iff in Hes as [Hhe Hes].
    unfold listable in Hhe.
    apply andb_true_iff in Hhe as [[[Hm Hn]%andb_true_iff Hq]%andb_true_iff Hd].
    assert (Hmode : unbroken (mode he) = true).
    { apply existsb_exists in Hm as (m & Hin & ->%String.eqb_eq).
      cbn [modes In] in Hin. destruct Hin as [<-|[<-|[<-|[<-|[]]]]]; reflexivity. }
    assert (Hhash : unbroken (string_of_bytes (hash he)) = true).
    { revert Hd. apply string_forall_impl. intros c.
      now intros [[-> _]%andb_true_iff _]%andb_true_iff. }
    set (rest := foldr (fun he r => format_entry he ++ r)%string ""%string entries) in *.
    assert (Htext :
      (carry ++ format_entry he ++ rest
       = (carry ++ mode he)
           ++ String " " (name he ++ String "000" (string_of_bytes (hash he) ++ rest)))%string).
    { unfold format_entry, NUL. rewrite !string_app_assoc. reflexivity. }
    rewrite Htext. unfold regexp_Split.
    rewrite split_on_unbroken_sep;
      [|unfold unbroken in *; now rewrite string_forall_app, Hc, Hmode|reflexivity].
    rewrite split_on_unbroken_sep; [|exact Hn|reflexivity].
    f_equal. f_equal. apply (IH _ Hhash Hes).
Qed.

Lemma prefix_other (m s : string) (d a : ascii) :
  d <> a -> String.prefix (String d m) (String a s) = false.
Proof. intros Hne. cbn [String.prefix]. now destruct (ascii_dec d a). Qed.

Lemma Contains_carry (carry s m : string) :
  string_forall no_mode_start carry = true ->
  In m modes ->
  strings_Contains (carry ++ s)%string m = strings_Contains s m.
Proof.
  intros Hc Hm. induction carry as [|a carry IH]; [reflexivity|].
  change ((String a carry ++ s)%string) with (String a (carry ++ s)%string).
  cbn [string_forall] in Hc. apply andb_true_iff in Hc as [Ha Hc].
  unfold no_mode_start in Ha.
  apply andb_true_iff in Ha as [H1%negb_true_iff%Ascii.eqb_neq H4%negb_true_iff%Ascii.eqb_neq].
  cbn [strings_Contains]. rewrite (IH Hc).
  cbn [modes In] in Hm. destruct Hm as [<-|[<-|[<-|[<-|[]]]]];
    rewrite prefix_other by congruence; reflexivity.
Qed.

Lemma plain_quiet (carry : string) :
  string_forall no_mode_start carry = true -> quiet carry = true.
Proof.
  intros Hc. unfold quiet. apply forallb_forall. intros m Hm.
  rewrite <- (string_app_nil_r carry), (Contains_carry carry ""%string m Hc Hm).
  cbn [modes In] in Hm. destruct Hm as [<-|[<-|[<-|[<-|[]]]]]; reflexivity.
Qed.

Lemma range_modes_quiet (ms parts : list string) (index : nat) (part : string)
    (acc : list string) (w : world) :
  parts !! index = Some part ->
  forallb (fun m => negb (strings_Contains part m)) ms = true ->
  range_modes ms parts index acc w = (Ret acc, w).
Proof.
  intros Hpart. induction ms as [|m ms IH]; intros Hq; [reflexivity|].
  cbn [forallb] in Hq. apply andb_true_iff in Hq as [Hm%negb_true_iff Hq].
  cbn [range_modes]. rewrite Hpart. unfold mbind, M_bind, bind. cbn [checked ret].
  rewrite Hm. now apply IH.
Qed.

Lemma range_modes_mode (parts : list string) (index : nat)
    (carry m next : string) (acc : list string) (w : world) :
  string_forall no_mode_start carry = true ->
  In m modes ->
  parts !! index = Some (carry ++ m)%string ->
  parts !! (index + 1)%nat = Some next ->
  range_modes modes parts index acc w = (Ret (acc ++ [next]), w).
Proof.
  intros Hc Hm Hpart Hnext.
  unfold modes. cbn [range_modes]. rewrite Hpart, Hnext.
  unfold mbind, M_bind, bind. cbn [checked ret].
  rewrite !(Contains_carry carry m) by (cbn [modes In]; tauto).
  cbn [modes In] in Hm. destruct Hm as [<-|[<-|[<-|[<-|[]]]]]; reflexivity.
Qed.

Lemma range_parts_entries (entries : list HashedEntry) :
  forallb listable entries = true ->
  forall (pre : list string) (carry : string) (acc : list string) (w : world),
    string_forall no_mode_start carry = true ->
    range_parts (length (parts_after carry entries))
      (pre ++ parts_after carry entries) (length pre) acc w
    = (Ret (acc ++ map name entries), w).
Proof.
  induction entries as [|he entries IH]; intros Hes pre carry acc w Hc.
  - cbn [parts_after length range_parts map]. unfold mbind, M_bind, bind.
    rewrite (range_modes_quiet modes _ _ carry).
    + now rewrite app_nil_r.
    + now rewrite lookup_app_r, Nat.sub_diag by lia.
    + now apply plain_quiet.
  - cbn [forallb] in Hes. apply andb_true_iff in Hes as [Hhe Hes].
    unfold listable in Hhe.
    apply andb_true_iff in Hhe as [[[Hm Hn]%andb_true_iff Hq]%andb_true_iff Hd].
    apply existsb_exists in Hm as (m & Hin & Hmeq%String.eqb_eq).
    cbn [parts_after length range_parts map]. unfold mbind, M_bind, bind.
    rewrite (range_modes_mode _ _ carry (mode he) (name he)).
    2: exact Hc.
    2: now rewrite Hmeq.
    2: now rewrite lookup_app_r, Nat.sub_diag by lia.
    2:{ rewrite lookup_app_r by lia. now replace (length pre + 1 - length pre)%nat with 1%nat by lia. }
    rewrite (range_modes_quiet modes _ _ (name he)).
    2:{ rewrite lookup_app_r by lia. now replace (S (length pre) - length pre)%nat with 1%nat by lia. }
    2: exact Hq.
    specialize (IH Hes (pre ++ [(carry ++ mode he)%string; name he])
                  (string_of_bytes (hash he)) (acc ++ [name he]) w).
    rewrite <- app_assoc in IH. cbn [app] in IH.
    rewrite length_app in IH. cbn [length] in IH.
    replace (length pre + 2)%nat with (S (S (length pre))) in IH by lia.
    rewrite IH, <- app_assoc; [reflexivity|].
    revert Hd. apply string_forall_impl. intros c.
    unfold no_mode_start. intros [[_ ->]%andb_true_iff ->]%andb_true_iff. reflexivity.
Qed.

Lemma digits_unbroken (s : string) :
  string_forall is_digit s = true -> unbroken s = true.
Proof.
  apply string_forall_impl. intros c Hc.
  unfold is_digit in Hc. cbn [list_ascii_of_string existsb] in Hc.
  unfold is_separator. cbn [existsb].
  repeat (apply orb_true_iff in Hc as [->%Ascii.eqb_eq|Hc]; [reflexivity|]).
  discriminate Hc.
Qed.

Lemma split_on_nonempty (sep : ascii -> bool) (s : string) : split_on sep s <> [].
Proof.
  induction s as [|c s IH]; [discriminate|]. cbn [split_on].
  destruct (sep c); [discriminate|]. now destruct (split_on sep s).
Qed.

Section LsTree.
Context `{GoLib}.

(** [lsTree] on the digits of an id whose object file can be read. *)
Lemma lsTree_eq (id : list byte) (w : world) (data : list byte) :
  length id = SHA1.Size ->
  files w !! object_path id = Some (FFile data) ->
  zlib_NewReader data = true ->
  lsTree (hex_EncodeToString id) w
  = (let contentParts := regexp_Split (string_of_bytes (fst (zlib_ReadAll data))) in
     filesAndDirs ← range_parts (length contentParts) contentParts 0 [];
     fmt_Println (strings_Join filesAndDirs LF)) w.
Proof.
  intros Hlen Hfile Hhdr.
  destruct (blob_path_hex id Hlen) as [Hpath Hlen2].
  unfold lsTree, slice_to, slice_from.
  assert (Hle : (2 <=? String.length (hex_EncodeToString id))%nat = true)
    by now apply Nat.leb_le.
  rewrite Hle. cbn [checked].
  unfold mbind at 1 2 3, M_bind at 1 2 3, bind at 1 2 3, ret.
  fold (blob_path (hex_EncodeToString id)). rewrite Hpath.
  unfold readAndDecompressFile, os_ReadFile. rewrite Hfile, Hhdr.
  now destruct (zlib_ReadAll data).
Qed.

(** The loop of [lsTree] on the payload of a tree whose entries are
    [listable]. *)
Lemma range_parts_tree_payload (hashedEntries : list HashedEntry) (w : world) :
  let content := bytes_of_string (tree_text hashedEntries) in
  let contentParts :=
    regexp_Split (string_of_bytes (encoded_payload tree content)) in
  forallb listable hashedEntries = true ->
  quiet (fmt_d (length content)) = true ->
  range_parts (length contentParts) contentParts 0 [] w
  = (Ret (map name hashedEntries), w).
Proof.
  intros content contentParts Hes Hn.
  assert (Hparts :
    contentParts
    = ["tree"%string; fmt_d (length content)] ++ parts_after "" hashedEntries).
  { unfold contentParts.
    rewrite <- object_payload_bytes, string_of_bytes_of_string.
    unfold object_payload, content. rewrite string_of_bytes_of_string.
    unfold tree_text at 2. rewrite fold_append. unfold regexp_Split, NUL.
    cbn [kind_tag].
    change ("tree" ++ " " ++ ?x)%string with ("tree" ++ String " " x)%string.
    rewrite split_on_unbroken_sep by reflexivity.
    change (fmt_d ?n ++ String "000" "" ++ ?x)%string
      with (fmt_d n ++ String "000" x)%string.
    rewrite split_on_unbroken_sep;
      [|apply digits_unbroken, fmt_d_digits|reflexivity].
    cbn [app]. f_equal. f_equal. now apply split_tree_text. }
  rewrite Hparts. rewrite length_app. cbn [length Nat.add range_parts].
  unfold mbind, M_bind, bind.
  rewrite (range_modes_quiet modes _ 0 "tree") by reflexivity.
  rewrite (range_modes_quiet modes _ 1 (fmt_d (length content)))
    by (try reflexivity; exact Hn).
  pose proof (range_parts_entries hashedEntries Hes
                ["tree"%string; fmt_d (length content)] "" [] w eq_refl) as Hrun.
  cbn [app length] in Hrun. cbn [app]. exact Hrun.
Qed.

(** X9.  [lsTree] on a stored tree object prints the names of its
    entries, in the order of the entries, one on a line, when the payload
    reads as text the way [lsTree] takes it: every mode is one of the
    four it knows, no name contains a NUL or white space or one of the
    mode strings, no digest contains a NUL or white-space byte or the
    characters [1] and [4] that start a mode string, and no mode string
    occurs in the decimal length.  The id is not compared with the
    digest of the payload. *)
Theorem lsTree_lists_names (id : list byte) (w : world)
    (hashedEntries : list HashedEntry) :
  length id = 20%nat ->
  let content := bytes_of_string (tree_text hashedEntries) in
  files w !! object_path id
  = Some (FFile (compressContent (encoded_payload tree content))) ->
  forallb listable hashedEntries = true ->
  quiet (fmt_d (length content)) = true ->
  lsTree (hex_EncodeToString id) w
  = (Ret tt,
     set_stdout (stdout w ++ (strings_Join (map name hashedEntries) LF ++ LF)) w).
Proof.
  intros Hlen content Hfile Hes Hn. subst content.
  rewrite (lsTree_eq id w _ Hlen Hfile)
    by (rewrite compressContent_stream; apply zlib_NewReader_stream).
  rewrite compressContent_stream, zlib_ReadAll_stream. cbn [fst]. cbv zeta.
  unfold mbind, M_bind, bind.
  rewrite (range_parts_tree_payload hashedEntries w Hes Hn). reflexivity.
Qed.

(** The hashed entries of a directory's children are [listable] when the
    names and the digests are. *)
Lemma hashed_listable (entries : list (string * node)) (ids : list (list byte)) :
  forallb (fun c => unbroken c.1 && quiet c.1) entries = true ->
  forallb plain_digest ids = true ->
  forallb listable (zip_with hashed (entry_of <$> entries) ids) = true.
Proof.
  revert ids. induction entries as [|c entries IH]; intros [|id ids] Hnames Hids;
    try reflexivity.
  cbn [forallb fmap list_fmap zip_with] in *.
  apply andb_true_iff in Hnames as [[Hu Hq]%andb_true_iff Hnames].
  apply andb_true_iff in Hids as [Hid Hids].
  rewrite (IH ids Hnames Hids), andb_true_r.
  unfold listable, hashed, entry_of. cbn [mode name hash target Name].
  rewrite Hu, Hq, Hid, !andb_true_r.
  unfold entry_mode. now destruct (node_IsDir c.2).
Qed.

Lemma hashed_names (entries : list (string * node)) (ids : list (list byte)) :
  length entries = length ids ->
  map name (zip_with hashed (entry_of <$> entries) ids) = entries.*1.
Proof.
  revert ids. induction entries as [|c entries IH]; intros [|id ids] Hlen;
    try reflexivity; try discriminate Hlen.
  cbn [fmap list_fmap zip_with map]. f_equal. apply IH.
  now injection Hlen.
Qed.

(** X19.  [write-tree] followed by [ls-tree]: a run of [writeTree] on a
    directory that returns prints the id of the tree of its entries (all
    children but directories named [.git], in sibling order), and
    [lsTree] on that id prints the names of these entries, in that
    order, one on a line, provided no name contains a NUL, white space
    or a mode string, no digest of an entry contains a NUL or
    white-space byte or the characters [1] and [4], and no mode string
    occurs in the decimal length of the content. *)
Theorem writeTree_then_lsTree (w : world) (children : list (string * node))
    (fault : option nat) :
  worktree w = Dir children fault ->
  fst (writeTree w) = Ret tt ->
  exists entries ids,
    entries ≡ₚ filter listed (visible fault children)
    /\ StronglySorted sibling_le entries
    /\ Forall2 (fun c id => child_id c.2 id) entries ids
    /\ stdout (snd (writeTree w))
       = (stdout w
          ++ (hex_EncodeToString
                (ObjectID tree (concat (zip_with tree_entry entries ids))) ++ LF))%string
    /\ (forallb (fun c => unbroken c.1 && quiet c.1) entries = true ->
        forallb plain_digest ids = true ->
        quiet (fmt_d (length (concat (zip_with tree_entry entries ids)))) = true ->
        lsTree
          (hex_EncodeToString
             (ObjectID tree (concat (zip_with tree_entry entries ids))))
          (snd (writeTree w))
        = (Ret tt,
           set_stdout
             (stdout (snd (writeTree w)) ++ (strings_Join entries.*1 LF ++ LF))
             (snd (writeTree w)))).
Proof.
  intros Hroot. unfold writeTree, mbind, M_bind, bind, current_directory.
  rewrite Hroot.
  pose proof (createTreeObjects_built children fault w) as Hbuilt.
  destruct (createTreeObjects_walk_ok (Dir children fault)) as [Hout _].
  destruct (Hout w) as [(fs' & Hw' & _) _].
  destruct (createTreeObjects (Dir children fault) w) as [[id|code|] w'];
    try discriminate 1.
  intros _. cbn [snd] in Hw'. subst w'.
  destruct Hbuilt as (entries & ids & Hperm & Hsorted & Hids & -> & Hfile).
  exists entries, ids. repeat (split; [assumption || reflexivity|]).
  intros Hnames Hplain Hsize.
  set (content := concat (zip_with tree_entry entries ids)) in *.
  set (hes := zip_with hashed (entry_of <$> entries) ids).
  assert (Hcontent : content = bytes_of_string (tree_text hes)).
  { unfold content, hes, tree_text.
    pose proof (tree_bytes (entry_of <$> entries) ids) as Hb.
    rewrite app_nil_l in Hb. rewrite Hb. f_equal. f_equal.
    rewrite <- list_fmap_compose.
    rewrite (list_fmap_ext (child_of ∘ entry_of) (@Datatypes.id _) entries);
      [now rewrite list_fmap_id|].
    intros i c _. apply child_of_entry_of. }
  unfold fmt_Println, fmt_Print. cbn [snd].
  match goal with |- lsTree _ ?v = _ => set (w1 := v) end.
  assert (Hfile1 : files w1 !! object_path (ObjectID tree content)
                   = Some (FFile (compressContent (encoded_payload tree content))))
    by exact Hfile.
  rewrite (lsTree_eq (ObjectID tree content) w1 _ (Sum_length _) Hfile1)
    by (rewrite compressContent_stream; apply zlib_NewReader_stream).
  rewrite compressContent_stream, zlib_ReadAll_stream. cbn [fst]. cbv zeta.
  unfold mbind, M_bind, bind. rewrite Hcontent.
  rewrite (range_parts_tree_payload hes); cycle 1.
  - now apply hashed_listable.
  - now rewrite <- Hcontent.
  - unfold hes. rewrite hashed_names by (eapply Forall2_length; eassumption).
    reflexivity.
Qed.

End LsTree.

Lemma range_modes_inside (ms parts : list string) (index : nat) :
  (index + 1 < length parts)%nat ->
  forall acc w, exists acc', range_modes ms parts index acc w = (Ret acc', w).
Proof.
  intros Hlt.
  destruct (lookup_lt_is_Some_2 parts index ltac:(lia)) as [part Hpart].
  destruct (lookup_lt_is_Some_2 parts (index + 1) Hlt) as [next Hnext].
  induction ms as [|m ms IH]; intros acc w; [now exists acc|].
  cbn [range_modes]. rewrite Hpart, Hnext. unfold mbind, M_bind, bind.
  cbn [checked ret]. destruct (strings_Contains part m); apply IH.
Qed.

Lemma range_modes_last (ms parts : list string) (index : nat) (part : string) :
  parts !! index = Some part ->
  parts !! (index + 1)%nat = None ->
  forall acc w,
    range_modes ms parts index acc w
    = if forallb (fun m => negb (strings_Contains part m)) ms
      then (Ret acc, w) else (Panic, w).
Proof.
  intros Hpart Hnext. induction ms as [|m ms IH]; intros acc w; [reflexivity|].
  cbn [range_modes forallb]. rewrite Hpart, Hnext. unfold mbind, M_bind, bind.
  cbn [checked ret panic]. destruct (strings_Contains part m); [reflexivity|].
  apply IH.
Qed.

Lemma range_parts_run (parts : list string) (part : string) (w : world) :
  last parts = Some part ->
  forall count index acc,
    (index + count = length parts)%nat -> (0 < count)%nat ->
    if quiet part
    then exists acc', range_parts count parts index acc w = (Ret acc', w)
    else range_parts count parts index acc w = (Panic, w).
Proof.
  intros Hlast. induction count as [|count IH]; intros index acc Hlen Hpos; [lia|].
  cbn [range_parts]. unfold mbind, M_bind, bind.
  destruct count as [|count].
  - assert (Hpart : parts !! index = Some part).
    { rewrite <- Hlast, last_lookup. f_equal. lia. }
    rewrite (range_modes_last modes parts index part Hpart)
      by (apply lookup_ge_None_2; lia).
    fold (quiet part). destruct (quiet part); [|reflexivity].
    cbn [range_parts]. now exists acc.
  - destruct (range_modes_inside modes parts index ltac:(lia) acc w) as [acc' ->].
    apply IH; lia.
Qed.

Section LsTreePanic.
Context `{GoLib}.

(** X10.  Once the object is read, [lsTree] does not check that it is a
    tree and never leaves with an error: it cuts the payload at NULs and
    white space, and the index [index+1] is not guarded.  So it panics
    exactly when one of the mode strings occurs in the last piece of the
    payload, and prints nothing then; in every other case it returns and
    prints one line per piece found, or an empty line. *)
Theorem lsTree_last_part (id : list byte) (w : world) (data : list byte)
    (part : string) :
  length id = 20%nat ->
  files w !! object_path id = Some (FFile data) ->
  zlib_NewReader data = true ->
  last (regexp_Split (string_of_bytes (fst (zlib_ReadAll data)))) = Some part ->
  if forallb (fun mode => negb (strings_Contains part mode)) modes
  then exists filesAndDirs,
         lsTree (hex_EncodeToString id) w
         = (Ret tt, set_stdout (stdout w ++ (strings_Join filesAndDirs LF ++ LF)) w)
  else lsTree (hex_EncodeToString id) w = (Panic, w).
Proof.
  intros Hlen Hfile Hhdr Hlast. rewrite (lsTree_eq id w data Hlen Hfile Hhdr).
  cbv zeta. set (parts := regexp_Split _) in *.
  assert (Hpos : (0 < length parts)%nat).
  { destruct parts eqn:E; [|cbn; lia]. now apply split_on_nonempty in E. }
  pose proof (range_parts_run parts part w Hlast (length parts) 0 [] eq_refl Hpos)
    as Hrun.
  fold (quiet part). unfold mbind, M_bind, bind.
  destruct (quiet part).
  - destruct Hrun as [names ->]. now exists names.
  - now rewrite Hrun.
Qed.

(** X11.  The two readers fail the same way and leave no output: on an
    id shorter than two characters the slice expressions panic, before
    any file is opened; on the forty digits of an id for which the store
    has no file, or a file that does not start as a zlib stream, they
    leave with exit code 1. *)
Theorem readers_fail (sha : string) (w : world) (r : result unit) :
  ((String.length sha < 2)%nat /\ r = Panic)
  \/ (exists id,
        sha = hex_EncodeToString id /\ length id = 20%nat
        /\ (forall data, files w !! object_path id = Some (FFile data) ->
              zlib_NewReader data = false)
        /\ r = Exit 1) ->
  catFile sha w = (r, w) /\ lsTree sha w = (r, w).
Proof.
  intros [[Hshort ->]|(id & -> & Hlen & Hbad & ->)].
  - unfold catFile, lsTree, slice_to.
    assert (Hle : (2 <=? String.length sha)%nat = false) by (apply Nat.leb_gt; lia).
    rewrite Hle. split; reflexivity.
  - destruct (blob_path_hex id Hlen) as [Hpath Hlen2].
    assert (Hle : (2 <=? String.length (hex_EncodeToString id))%nat = true)
      by now apply Nat.leb_le.
    assert (Hread : readAndDecompressFile (object_path id) w = (Exit 1, w)).
    { unfold readAndDecompressFile, os_ReadFile.
      destruct (files w !! object_path id) as [[|data]|] eqn:E; try reflexivity.
      now rewrite (Hbad data eq_refl). }
    unfold catFile, lsTree, slice_to, slice_from. rewrite Hle. cbn [checked].
    unfold mbind, M_bind, bind, ret.
    fold (blob_path (hex_EncodeToString id)). rewrite Hpath, Hread.
    split; reflexivity.
Qed.

End LsTreePanic.

Lemma lsTree_lists_names_witness :
  lsTree (hex_EncodeToString listing_id)
    (snd (writeTree (empty_world listing_tree [])))
  = (Ret tt,
     set_stdout
       (stdout (snd (writeTree (empty_world listing_tree [])))
        ++ (strings_Join ["README"; "src"] LF ++ LF))
       (snd (writeTree (empty_world listing_tree [])))).
Proof.
  apply (lsTree_lists_names listing_id
           (snd (writeTree (empty_world listing_tree []))) listing_entries).
  - reflexivity.
  - vm_compute. reflexivity.
  - vm_compute. reflexivity.
  - vm_compute. reflexivity.
Defined.

Lemma lsTree_last_part_witness :
  lsTree (hex_EncodeToString modes_id)
    (snd (hashObject ["notes"] (empty_world modes_tree [])))
  = (Panic, snd (hashObject ["notes"] (empty_world modes_tree []))).
Proof.
  apply (lsTree_last_part modes_id
           (snd (hashObject ["notes"]%string (empty_world modes_tree [])))
           (compressContent (bytes_of_string ("blob 10" ++ NUL ++ "mode 40000")))
           "40000").
  - reflexivity.
  - vm_compute. reflexivity.
  - vm_compute. reflexivity.
  - vm_compute. reflexivity.
Defined.

Lemma readers_fail_witness :
  catFile "a" (empty_world sample_tree []) = (Panic, empty_world sample_tree [])
  /\ lsTree "a" (empty_world sample_tree []) = (Panic, empty_world sample_tree []).
Proof.
  apply (readers_fail "a" (empty_world sample_tree []) Panic).
  left. split; [cbn; lia|reflexivity].
Defined.

(** ** What the commands leave alone *)

Lemma files_grow_refl (fs : gmap path fnode) : files_grow fs fs.
Proof. intros q. now left. Qed.

Lemma files_grow_trans (fs1 fs2 fs3 : gmap path fnode) :
  files_grow fs1 fs2 -> files_grow fs2 fs3 -> files_grow fs1 fs3.
Proof.
  intros H12 H23 q.
  destruct (H23 q) as [E23|[Hgit H23q]].
  - rewrite E23. apply H12.
  - destruct (H12 q) as [E12|[_ H12q]].
    + right. split; [exact Hgit|]. now rewrite <- E12.
    + right. split; [exact Hgit|].
      destruct H12q as [Hnone|(d & d' & Hd & Hd')]; [now left|].
      destruct H23q as [Hnone|(e & e' & He & He')]; [congruence|].
      right. eauto.
Qed.

Lemma only_adds_refl (w : world) : only_adds w w.
Proof.
  repeat split; [exists ""%string; now rewrite string_app_nil_r|apply files_grow_refl].
Qed.

Lemma only_adds_trans (w1 w2 w3 : world) :
  only_adds w1 w2 -> only_adds w2 w3 -> only_adds w1 w3.
Proof.
  intros (Ha & Ht & [o1 Ho1] & Hf) (Ha' & Ht' & [o2 Ho2] & Hf').
  split; [congruence|]. split; [congruence|]. split.
  - exists (o1 ++ o2)%string. now rewrite Ho2, Ho1, string_app_assoc.
  - eapply files_grow_trans; eassumption.
Qed.

Lemma mkdir_all_adds (elems : list string) :
  forall (pre : path) (fs fs' : gmap path fnode),
    mkdir_all pre elems fs = Some fs' ->
    forall q, fs' !! q = fs !! q
      \/ (fs !! q = None
          /\ exists k, (0 < k <= length elems)%nat /\ q = pre ++ take k elems).
Proof.
  induction elems as [|d rest IH]; intros pre fs fs' Hmk q; simpl in Hmk.
  - left. congruence.
  - assert (Hshift : forall k, (pre ++ [d]) ++ take k rest = pre ++ take (S k) (d :: rest)).
    { intros k. now rewrite <- app_assoc. }
    destruct (fs !! (pre ++ [d])) as [[|data]|] eqn:Hp; try discriminate.
    + destruct (IH _ _ _ Hmk q) as [Heq|[Hnone (k & Hk & ->)]]; [now left|].
      right. split; [exact Hnone|]. exists (S k). rewrite Hshift. simpl.
      split; [lia|reflexivity].
    + destruct (decide (q = pre ++ [d])) as [->|Hne].
      * right. split; [exact Hp|]. exists 1%nat. simpl. split; [lia|].
        now rewrite take_0.
      * destruct (IH _ _ _ Hmk q) as [Heq|[Hnone (k & Hk & ->)]].
        -- left. now rewrite Heq, lookup_insert_ne.
        -- right. rewrite lookup_insert_ne in Hnone by congruence.
           split; [exact Hnone|]. exists (S k). rewrite Hshift. simpl.
           split; [lia|reflexivity].
Qed.

Lemma os_MkdirAll_grows (rest : list string) (fs fs' : gmap path fnode) :
  os_MkdirAll (".git"%string :: rest) fs = Some fs' -> files_grow fs fs'.
Proof.
  intros Hmk q. destruct (mkdir_all_adds _ _ _ _ Hmk q) as [Heq|[Hnone (k & Hk & ->)]];
    [now left|].
  right. split; [|now left]. destruct k as [|k]; [lia|]. cbn. eauto.
Qed.

Lemma os_WriteFile_grows (rest : list string) (data : list byte)
    (fs fs' : gmap path fnode) :
  os_WriteFile (".git"%string :: rest) data fs = Some fs' -> files_grow fs fs'.
Proof.
  unfold os_WriteFile. intros Hwr q.
  destruct (decide (q = ".git"%string :: rest)) as [->|Hne].
  - right. split; [eauto|].
    destruct (fs !! (".git"%string :: rest)) as [[|d]|] eqn:E; [discriminate Hwr| |];
      destruct (is_dir fs (removelast (".git"%string :: rest))); try discriminate Hwr;
      injection Hwr as <-; rewrite lookup_insert_eq; eauto.
  - left.
    destruct (fs !! (".git"%string :: rest)) as [[|d]|] eqn:E; [discriminate Hwr| |];
      destruct (is_dir fs (removelast (".git"%string :: rest))); try discriminate Hwr;
      injection Hwr as <-; now rewrite lookup_insert_ne.
Qed.

Section Keeps.
Variable R : world -> world -> Prop.
Hypothesis R_refl : forall w, R w w.
Hypothesis R_trans : forall w1 w2 w3, R w1 w2 -> R w2 w3 -> R w1 w3.

Lemma keeps_ret {A} (a : A) : keeps R (mret a).
Proof. intros w. apply R_refl. Qed.

Lemma keeps_exit {A} (code : Z) : keeps R (@os_Exit A code).
Proof. intros w. apply R_refl. Qed.

Lemma keeps_checked {A} (o : option A) : keeps R (checked o).
Proof. destruct o; intros w; apply R_refl. Qed.

Lemma keeps_bind {A B} (m : M A) (k : A -> M B) :
  keeps R m -> (forall a, keeps R (k a)) -> keeps R (m ≫= k).
Proof.
  intros Hm Hk w. specialize (Hm w). unfold mbind, M_bind, bind.
  destruct (m w) as [[a|code|] w1]; cbn [snd] in *; [|exact Hm..].
  eapply R_trans; [exact Hm|apply Hk].
Qed.

Lemma keeps_range_modes (ms contentParts : list string) (index : nat) :
  forall filesAndDirs, keeps R (range_modes ms contentParts index filesAndDirs).
Proof.
  induction ms as [|mode ms IH]; intros acc; cbn [range_modes].
  - apply keeps_ret.
  - apply keeps_bind; [apply keeps_checked|]. intros part.
    destruct (strings_Contains part mode); [|apply IH].
    apply keeps_bind; [apply keeps_checked|]. intros next. apply IH.
Qed.

Lemma keeps_range_parts (count : nat) (contentParts : list string) :
  forall index filesAndDirs,
    keeps R (range_parts count contentParts index filesAndDirs).
Proof.
  induction count as [|count IH]; intros index acc; cbn [range_parts].
  - apply keeps_ret.
  - apply keeps_bind; [apply keeps_range_modes|]. intros acc'. apply IH.
Qed.

Context `{GoLib}.

Lemma keeps_readAndDecompressFile (filePath : path) :
  keeps R (readAndDecompressFile filePath).
Proof.
  intros w. unfold readAndDecompressFile.
  destruct (os_ReadFile filePath (files w)) as [fileBytes|]; [|apply R_refl].
  destruct (zlib_NewReader fileBytes); [|apply R_refl].
  destruct (zlib_ReadAll fileBytes). apply R_refl.
Qed.

Hypothesis R_createObject : forall objectType content,
  keeps R (createObject objectType content).

Lemma keeps_range_entries (entries : list DirEntry) :
  Forall (fun e => keeps R (subtree e)) entries ->
  forall acc, keeps R (range_entries entries acc).
Proof.
  induction 1 as [|e entries He Hall IH]; intros acc; cbn [range_entries].
  - apply keeps_ret.
  - destruct (IsDir e).
    + destruct (String.eqb (Name e) ".git"); [apply IH|].
      apply keeps_bind; [exact He|]. intros h. apply IH.
    + apply keeps_bind; [|intros h; apply IH].
      unfold createFileBlobObject.
      destruct (os_ReadFile_node (target e)); [apply R_createObject|apply keeps_exit].
Qed.

Lemma keeps_createTreeObjects (n : node) : keeps R (createTreeObjects n).
Proof.
  induction n as [contents|children fault IH] using node_ind'.
  - rewrite createTreeObjects_File.
    assert (Hnil : sort_Slice entry_less [] = []).
    { apply Permutation_nil_r. apply sort_Slice_Permutation. }
    rewrite Hnil. cbn [range_entries].
    apply keeps_bind; [apply keeps_ret|]. intros hes. apply R_createObject.
  - rewrite createTreeObjects_Dir.
    apply keeps_bind; [|intros hes; apply R_createObject].
    apply keeps_range_entries. rewrite dir_entries_Permutation.
    apply Forall_fmap. apply Forall_forall. intros c Hc. cbn [compose entry_of subtree].
    rewrite Forall_forall in IH. apply IH.
    destruct fault as [k|]; cbn [visible] in Hc; [|exact Hc].
    eapply elem_of_sublist; [exact Hc | apply sublist_take].
Qed.

End Keeps.

Lemma keeps_or_exit (call : gmap path fnode -> option (gmap path fnode)) :
  (forall fs fs', call fs = Some fs' -> files_grow fs fs') ->
  keeps only_adds (or_exit call).
Proof.
  intros Hcall w. unfold or_exit.
  destruct (call (files w)) as [fs'|] eqn:E; [|apply only_adds_refl].
  cbn [snd]. repeat split; cbn [files stdout set_files].
  - exists ""%string. now rewrite string_app_nil_r.
  - now apply Hcall.
Qed.

Lemma keeps_Print (s : string) : keeps only_adds (fmt_Print s).
Proof.
  intros w. repeat split; cbn; [now exists s|apply files_grow_refl].
Qed.

Lemma files_grow_init (fs : gmap path fnode) : files_grow fs (init_files fs).
Proof.
  intros q. rewrite init_files_lookup.
  assert (Hdir : forall p : path, (exists rest, p = ".git"%string :: rest) ->
            Some (default FDir (fs !! p)) = fs !! p
            \/ ((exists rest, p = ".git"%string :: rest)
                /\ (fs !! p = None
                    \/ exists d d', fs !! p = Some (FFile d)
                         /\ Some (default FDir (fs !! p)) = Some (FFile d')))).
  { intros p Hp. destruct (fs !! p) as [n|]; [now left|]. right. auto. }
  assert (Hgo :
    (if decide (q = [".git"; "HEAD"]%string)
     then match fs !! q with
          | Some FDir => Some FDir
          | _ => Some (FFile head_contents)
          end
     else if decide (q = [".git"; "refs"]%string) then Some (default FDir (fs !! q))
     else if decide (q = [".git"; "objects"]%string) then Some (default FDir (fs !! q))
     else if decide (q = [".git"%string]) then Some (default FDir (fs !! q))
     else fs !! q) = fs !! q
    \/ ((exists rest, q = ".git"%string :: rest)
        /\ (fs !! q = None
            \/ exists d d', fs !! q = Some (FFile d)
                 /\ (if decide (q = [".git"; "HEAD"]%string)
                     then match fs !! q with
                          | Some FDir => Some FDir
                          | _ => Some (FFile head_contents)
                          end
                     else if decide (q = [".git"; "refs"]%string)
                     then Some (default FDir (fs !! q))
                     else if decide (q = [".git"; "objects"]%string)
                     then Some (default FDir (fs !! q))
                     else if decide (q = [".git"%string])
                     then Some (default FDir (fs !! q))
                     else fs !! q) = Some (FFile d')))).
  { repeat case_decide; subst; try (apply Hdir; eauto); try (now left).
    destruct (fs !! [".git"; "HEAD"]%string) as [[|d]|]; [now left|right..];
      (split; [eauto|]); eauto. }
  destruct (fs !! [".git"%string]) as [[|d]|]; [exact Hgo|now left|exact Hgo].
Qed.

Ltac adds_bind := apply (keeps_bind only_adds only_adds_trans).
Ltac adds_pure :=
  first [apply (keeps_checked only_adds only_adds_refl)
        |apply (keeps_exit only_adds only_adds_refl)
        |apply (keeps_ret only_adds only_adds_refl)].

Section OnlyAdds.
Context `{GoLib}.

Lemma keeps_writeObject (hash content : list byte) :
  length hash = SHA1.Size -> keeps only_adds (writeObject hash content).
Proof.
  intros Hlen w. rewrite (writeObject_eq hash content w Hlen). revert w.
  adds_bind.
  - apply keeps_or_exit. intros fs fs'. apply os_MkdirAll_grows.
  - intros _. apply keeps_or_exit. intros fs fs'. apply os_WriteFile_grows.
Qed.

Lemma keeps_createObject (objectType : string) (content : list byte) :
  keeps only_adds (createObject objectType content).
Proof.
  unfold createObject. adds_bind.
  - apply keeps_writeObject, Sum_length.
  - intros _. adds_pure.
Qed.

(** X12.  Whatever the command and however the run ends, [main] leaves
    the arguments and the working tree as they were, only adds to the
    output, and changes the files only below [.git], by adding entries
    and by rewriting files: it removes nothing, and never puts a file in
    the place of a directory or a directory in the place of a file. *)
Theorem main_only_adds (w : world) :
  Args (snd (main w)) = Args w
  /\ worktree (snd (main w)) = worktree w
  /\ (exists out, stdout (snd (main w)) = (stdout w ++ out)%string)
  /\ forall q,
       files (snd (main w)) !! q = files w !! q
       \/ ((exists rest, q = ".git"%string :: rest)
           /\ (files w !! q = None
               \/ exists d d', files w !! q = Some (FFile d)
                    /\ files (snd (main w)) !! q = Some (FFile d'))).
Proof.
  revert w. change (keeps only_adds main).
  unfold main. adds_bind; [intros w; apply only_adds_refl|]. intros args.
  destruct (length args <? 2)%nat; [adds_pure|].
  adds_bind; [adds_pure|]. intros command.
  destruct (String.eqb command "init").
  { intros w. rewrite initRepository_eq. cbn [snd].
    repeat split; cbn; [eauto|apply files_grow_init]. }
  destruct (String.eqb command "cat-file").
  { destruct (length args <? 4)%nat; [adds_pure|].
    adds_bind; [adds_pure|]. intros blobSHA. unfold catFile.
    adds_bind; [adds_pure|]. intros head2.
    adds_bind; [adds_pure|]. intros rest.
    adds_bind; [apply keeps_readAndDecompressFile, only_adds_refl|]. intros content.
    adds_bind; [adds_pure|]. intros blobContent.
    apply keeps_Print. }
  destruct (String.eqb command "hash-object").
  { destruct (length args <? 4)%nat; [adds_pure|].
    adds_bind; [adds_pure|]. intros filename w.
    unfold hashObject.
    destruct (node_at (worktree w) (path_elements filename) ≫= os_ReadFile_node)
      as [fileBytes|]; [|apply only_adds_refl].
    apply (keeps_bind only_adds only_adds_trans (createObject "blob" fileBytes)
             (fun hash => fmt_Println (hex_EncodeToString hash))).
    - apply keeps_createObject.
    - intros hash. apply keeps_Print. }
  destruct (String.eqb command "ls-tree").
  { destruct (length args <? 4)%nat; [adds_pure|].
    adds_bind; [adds_pure|]. intros treeSHA. unfold lsTree.
    adds_bind; [adds_pure|]. intros head2.
    adds_bind; [adds_pure|]. intros rest.
    adds_bind; [apply keeps_readAndDecompressFile, only_adds_refl|]. intros content.
    adds_bind;
      [apply keeps_range_parts; [apply only_adds_refl|apply only_adds_trans]|].
    intros filesAndDirs. apply keeps_Print. }
  destruct (String.eqb command "write-tree").
  { unfold writeTree. adds_bind; [intros w; apply only_adds_refl|]. intros root.
    adds_bind; [|intros treeObjectHash; apply keeps_Print].
    apply keeps_createTreeObjects;
      [apply only_adds_refl|apply only_adds_trans|apply keeps_createObject]. }
  destruct (String.eqb command "commit-tree"); [|adds_pure].
  unfold commitTree. adds_bind; [intros w; apply only_adds_refl|]. intros args'.
  adds_bind; [adds_pure|]. intros treeSHA.
  adds_bind; [adds_pure|]. intros parentCommitSHA.
  adds_bind; [adds_pure|]. intros commitMessage.
  cbv zeta. adds_bind; [apply keeps_writeObject, Sum_length|]. intros _.
  apply keeps_Print.
Qed.

End OnlyAdds.

(** ** Files that cannot be read *)

Section Unreadable.
Context `{GoLib}.

Lemma unreadable_no_content (n : node) :
  has_unreadable n -> forall content, ~ tree_content n content.
Proof.
  induction 1 as [children fault name Hin|children fault name sub Hin Hsub IH];
    intros content Hc;
    inversion Hc as [ch f entries ids Hperm Hsorted Hids [Hch Hf] Hcontent];
    subst ch f.
  - assert (Hin' : (name, File None) ∈ entries).
    { rewrite Hperm. apply list_elem_of_filter. split; [|exact Hin].
      unfold listed. cbn. intros [[=] _]. }
    apply list_elem_of_lookup in Hin' as [i Hi].
    destruct (Forall2_lookup_l _ _ _ _ _ Hids Hi) as (id & _ & Hid).
    cbn in Hid. inversion Hid.
  - assert (Hin' : (name, sub) ∈ entries) by now rewrite Hperm.
    apply list_elem_of_lookup in Hin' as [i Hi].
    destruct (Forall2_lookup_l _ _ _ _ _ Hids Hi) as (id & _ & Hid).
    cbn in Hid. inversion Hid as [bytes Hb|ch f content' Hc' Hn]; subst.
    + inversion Hsub.
    + now apply (IH content').
Qed.

(** X13.  A file that cannot be read stops the build: when one of the
    entries [createTreeObjects] comes to, in the directory or in a
    subdirectory it lists, is a file that [os.ReadFile] refuses, the run
    leaves with exit code 1 and [writeTree] prints no id.  (A directory
    that cannot be read does not stop it.) *)
Theorem unreadable_file_aborts (n : node) (w : world) :
  has_unreadable n ->
  exists w',
    createTreeObjects n w = (Exit 1, w')
    /\ stdout w' = stdout w
    /\ (worktree w = n -> writeTree w = (Exit 1, w')).
Proof.
  intros Hn. destruct (createTreeObjects_walk_ok n) as [Hout _].
  destruct (Hout w) as [(fs' & Hw' & _) HQ].
  destruct (createTreeObjects n w) as [[id|code|] w'] eqn:E; cbn [fst snd] in *.
  - exfalso. destruct HQ as (content & Hc & _).
    + now destruct Hn.
    + now apply (unreadable_no_content n Hn content).
  - subst code. exists w'. split; [reflexivity|]. split; [now subst w'|].
    intros Hroot. unfold writeTree, mbind, M_bind, bind, current_directory.
    now rewrite Hroot, E.
  - destruct HQ.
Qed.

End Unreadable.

(** ** One file for each id *)

Lemma hex_byte_digits (b : byte) :
  hex_byte (hex_digit (Z.shiftr (byte_to_Z b) 4))
           (hex_digit (Z.land (byte_to_Z b) 0x0F)) = Some b.
Proof. destruct b; vm_compute; reflexivity. Qed.

Lemma hex_Decode_Encode (src : list byte) :
  hex_DecodeString (hex_EncodeToString src) = Some src.
Proof.
  induction src as [|b src IH]; [reflexivity|].
  cbn [hex_EncodeToString hex_DecodeString].
  now rewrite hex_byte_digits, IH.
Qed.

Lemma substring_split (s : string) (n : nat) :
  (substring 0 n s ++ substring n (String.length s - n) s)%string = s.
Proof.
  revert n. induction s as [|c s IH]; intros [|n]; cbn; try reflexivity.
  - now rewrite substring_all.
  - change (String c (substring 0 n s) ++ substring n (String.length s - n) s)%string
      with (String c (substring 0 n s ++ substring n (String.length s - n) s)%string).
    now rewrite IH.
Qed.

Lemma object_path_inj (id id' : list byte) :
  length id = 20%nat -> length id' = 20%nat ->
  object_path id = object_path id' -> id = id'.
Proof.
  intros Hlen Hlen' Hpath.
  assert (Hhex : hex_EncodeToString id = hex_EncodeToString id').
  { unfold object_path in Hpath. injection Hpath as H2 H38.
    rewrite <- (substring_split (hex_EncodeToString id) 2).
    rewrite <- (substring_split (hex_EncodeToString id') 2).
    rewrite !hex_length, Hlen, Hlen'. cbn [Nat.mul Nat.add Nat.sub].
    now rewrite H2, H38. }
  apply (f_equal hex_DecodeString) in Hhex.
  rewrite !hex_Decode_Encode in Hhex. congruence.
Qed.

Section Independent.
Context `{GoLib}.

(** X14.  Writing an object leaves the file of every other id as it
    was, whether the write succeeds or not: two ids of twenty bytes have
    the same path only when they are equal, and the directories made on
    the way are not object files. *)
Theorem createObject_keeps_others (objectType : string) (content : list byte)
    (w : world) (id' : list byte) :
  length id' = 20%nat ->
  id' <> SHA1.Sum (bytes_of_string (object_payload objectType content)) ->
  files (snd (createObject objectType content w)) !! object_path id'
  = files w !! object_path id'.
Proof.
  intros Hlen Hne.
  set (id := SHA1.Sum (bytes_of_string (object_payload objectType content))) in *.
  assert (Hpath : object_path id' <> object_path id).
  { intros Hp. apply Hne.
    apply object_path_inj; [exact Hlen|apply Sum_length|exact Hp]. }
  unfold createObject. fold id.
  set (data := compressContent _).
  unfold mbind, M_bind, bind.
  assert (Hw : files (snd (writeObject id data w)) !! object_path id'
               = files w !! object_path id').
  { rewrite (writeObject_eq id data w (Sum_length _)).
    unfold mbind, M_bind, bind, or_exit.
    destruct (os_MkdirAll (removelast (object_path id)) (files w)) as [fs1|] eqn:E1;
      [|reflexivity].
    assert (H1 : fs1 !! object_path id' = files w !! object_path id').
    { destruct (mkdir_all_frame _ _ _ _ E1 (object_path id'))
        as [Heq|[_ (k & Hk & Hq)]]; [exact Heq|].
      apply (f_equal length) in Hq. rewrite length_app, length_take in Hq.
      unfold object_path in Hq. cbn [length removelast] in Hq. lia. }
    cbn [files set_files].
    destruct (os_WriteFile (object_path id) data fs1) as [fs2|] eqn:E2;
      cbn [snd files set_files]; [|exact H1].
    unfold os_WriteFile in E2.
    destruct (fs1 !! object_path id) as [[|?]|];
      destruct (is_dir fs1 (removelast (object_path id))); try discriminate E2;
      injection E2 as <-; now rewrite lookup_insert_ne. }
  destruct (writeObject id data w) as [[[]|code|] w1]; exact Hw.
Qed.

End Independent.

(** ** The id of a tree *)

Lemma same_result_bind {A B} (m : M A) (k : A -> M B) :
  same_result m -> (forall a, same_result (k a)) -> same_result (m ≫= k).
Proof.
  intros Hm Hk w1 w2 b1 b2 w1' w2'. unfold mbind, M_bind, bind.
  destruct (m w1) as [[a1|c1|] v1] eqn:E1; try discriminate 1.
  destruct (m w2) as [[a2|c2|] v2] eqn:E2; try discriminate 2.
  rewrite (Hm _ _ _ _ _ _ E1 E2). apply Hk.
Qed.

Lemma same_result_ret {A} (a : A) : same_result (mret a).
Proof. intros w1 w2 a1 a2 w1' w2' [= <- _] [= <- _]. reflexivity. Qed.

Section SameId.
Context `{GoLib}.

Lemma same_result_createObject (objectType : string) (content : list byte) :
  same_result (createObject objectType content).
Proof.
  unfold createObject. apply same_result_bind.
  - intros w1 w2 [] []. reflexivity.
  - intros _. apply same_result_ret.
Qed.

Lemma same_result_range_entries (entries : list DirEntry) :
  Forall (fun e => same_result (subtree e)) entries ->
  forall acc, same_result (range_entries entries acc).
Proof.
  induction 1 as [|e entries He Hall IH]; intros acc; cbn [range_entries].
  - apply same_result_ret.
  - destruct (IsDir e).
    + destruct (String.eqb (Name e) ".git"); [apply IH|].
      apply same_result_bind; [exact He|]. intros h. apply IH.
    + apply same_result_bind; [|intros h; apply IH].
      unfold createFileBlobObject.
      destruct (os_ReadFile_node (target e));
        [apply same_result_createObject|].
      intros w1 w2 a1 a2 w1' w2' [=].
Qed.

Lemma same_result_createTreeObjects (n : node) : same_result (createTreeObjects n).
Proof.
  induction n as [contents|children fault IH] using node_ind'.
  - rewrite createTreeObjects_File.
    assert (Hnil : sort_Slice entry_less [] = []).
    { apply Permutation_nil_r. apply sort_Slice_Permutation. }
    rewrite Hnil. cbn [range_entries].
    apply same_result_bind; [apply same_result_ret|].
    intros hes. apply same_result_createObject.
  - rewrite createTreeObjects_Dir.
    apply same_result_bind; [|intros hes; apply same_result_createObject].
    apply same_result_range_entries. rewrite dir_entries_Permutation.
    apply Forall_fmap. apply Forall_forall. intros c Hc. cbn [compose entry_of subtree].
    rewrite Forall_forall in IH. apply IH.
    destruct fault as [k|]; cbn [visible] in Hc; [|exact Hc].
    eapply elem_of_sublist; [exact Hc | apply sublist_take].
Qed.

(** X15.  The id [writeTree] prints depends on the working tree alone:
    two runs on the same working tree that return print the same id,
    whatever the arguments, the files below [.git] and the earlier
    output are. *)
Theorem writeTree_id_of_worktree (w1 w2 : world) :
  worktree w1 = worktree w2 ->
  fst (writeTree w1) = Ret tt ->
  fst (writeTree w2) = Ret tt ->
  exists id,
    stdout (snd (writeTree w1))
    = (stdout w1 ++ (hex_EncodeToString id ++ LF))%string
    /\ stdout (snd (writeTree w2))
       = (stdout w2 ++ (hex_EncodeToString id ++ LF))%string.
Proof.
  intros Htree. unfold writeTree, mbind, M_bind, bind, current_directory.
  rewrite <- Htree.
  destruct (createTreeObjects_walk_ok (worktree w1)) as [Hout _].
  pose proof (Hout w1) as [(fs1 & Hv1 & _) _].
  pose proof (Hout w2) as [(fs2 & Hv2 & _) _].
  destruct (createTreeObjects (worktree w1) w1) as [[id1|c1|] v1] eqn:E1;
    try discriminate 1.
  destruct (createTreeObjects (worktree w1) w2) as [[id2|c2|] v2] eqn:E2;
    try discriminate 2.
  cbn [snd] in Hv1, Hv2. subst v1 v2.
  rewrite (same_result_createTreeObjects _ _ _ _ _ _ _ E1 E2).
  intros _ _. exists id2. split; reflexivity.
Qed.

End SameId.

Lemma unreadable_file_aborts_witness :
  exists w',
    createTreeObjects secret_tree (empty_world secret_tree []) = (Exit 1, w')
    /\ writeTree (empty_world secret_tree []) = (Exit 1, w').
Proof.
  destruct (unreadable_file_aborts secret_tree (empty_world secret_tree []))
    as (w' & Hrun & _ & Hwrite).
  - apply (unreadable_below _ _ "docs"%string (Dir [("key"%string, File None)] None)).
    + apply list_elem_of_filter. split; [|apply list_elem_of_here].
      unfold listed. cbn [fst snd]. intros [_ Hname]. discriminate Hname.
    + apply (unreadable_here _ _ "key"%string). apply list_elem_of_here.
  - exists w'. split; [exact Hrun|]. now apply Hwrite.
Defined.

Lemma createObject_keeps_others_witness :
  files (snd (createObject "blob" (bytes_of_string "abc")
                (empty_world sample_tree [])))
    !! object_path (SHA1.Sum (bytes_of_string "abc"))
  = files (empty_world sample_tree [])
      !! object_path (SHA1.Sum (bytes_of_string "abc")).
Proof.
  apply (createObject_keeps_others "blob" (bytes_of_string "abc")
           (empty_world sample_tree []) (SHA1.Sum (bytes_of_string "abc"))).
  - apply Sum_length.
  - intros Heq. apply (f_equal hex_EncodeToString) in Heq.
    vm_compute in Heq. discriminate Heq.
Defined.

Lemma writeTree_id_of_worktree_witness :
  exists id,
    stdout (snd (writeTree (empty_world sample_tree [])))
    = (hex_EncodeToString id ++ LF)%string
    /\ stdout (snd (writeTree
                     (World ["mygit"; "write-tree"] sample_tree
                        (<[[".git"%string] := FDir]> ∅) "earlier output")))
       = ("earlier output" ++ (hex_EncodeToString id ++ LF))%string.
Proof.
  apply (writeTree_id_of_worktree (empty_world sample_tree [])
           (World ["mygit"; "write-tree"]%string sample_tree
              (<[[".git"%string] := FDir]> ∅) "earlier output")).
  - reflexivity.
  - vm_compute. reflexivity.
  - vm_compute. reflexivity.
Defined.

(** ** How the commands end *)

Lemma ends_well_bind (b : bool) {A B} (m : M A) (k : A -> M B) :
  ends_well b m -> (forall a, ends_well b (k a)) -> ends_well b (m ≫= k).
Proof.
  intros Hm Hk w. specialize (Hm w). unfold mbind, M_bind, bind.
  destruct (m w) as [[a|code|] w1]; cbn [fst] in *; [apply Hk|exact Hm..].
Qed.

Lemma ends_well_weaken {A} (m : M A) : ends_well false m -> ends_well true m.
Proof.
  intros Hm w. specialize (Hm w). destruct (fst (m w)); auto.
Qed.

Lemma ends_well_ret (b : bool) {A} (a : A) : ends_well b (mret a).
Proof. now intros w. Qed.

Lemma ends_well_exit (b : bool) {A} : ends_well b (@os_Exit A 1).
Proof. now intros w. Qed.

Lemma ends_well_checked {A} (o : option A) : ends_well true (checked o).
Proof. now destruct o; intros w. Qed.

Lemma ends_well_or_exit (b : bool)
    (call : gmap path fnode -> option (gmap path fnode)) :
  ends_well b (or_exit call).
Proof. intros w. unfold or_exit. now destruct (call (files w)). Qed.

Lemma ends_well_Print (b : bool) (s : string) : ends_well b (fmt_Print s).
Proof. now intros w. Qed.

Lemma ends_well_range_modes (ms contentParts : list string) (index : nat) :
  forall filesAndDirs,
    ends_well true (range_modes ms contentParts index filesAndDirs).
Proof.
  induction ms as [|mode ms IH]; intros acc; cbn [range_modes].
  - apply ends_well_ret.
  - apply ends_well_bind; [apply ends_well_checked|]. intros part.
    destruct (strings_Contains part mode); [|apply IH].
    apply ends_well_bind; [apply ends_well_checked|]. intros next. apply IH.
Qed.

Lemma ends_well_range_parts (count : nat) (contentParts : list string) :
  forall index filesAndDirs,
    ends_well true (range_parts count contentParts index filesAndDirs).
Proof.
  induction count as [|count IH]; intros index acc; cbn [range_parts].
  - apply ends_well_ret.
  - apply ends_well_bind; [apply ends_well_range_modes|]. intros acc'. apply IH.
Qed.

Section Failures.
Context `{GoLib}.

Lemma ends_well_readAndDecompressFile (b : bool) (filePath : path) :
  ends_well b (readAndDecompressFile filePath).
Proof.
  intros w. unfold readAndDecompressFile.
  destruct (os_ReadFile filePath (files w)) as [fileBytes|]; [|reflexivity].
  destruct (zlib_NewReader fileBytes); [|reflexivity].
  now destruct (zlib_ReadAll fileBytes).
Qed.

Lemma ends_well_outcome {A} (m : M A) (Q : A -> world -> Prop) :
  (forall w, outcome w (m w) Q) -> ends_well false m.
Proof.
  intros Hm w. destruct (Hm w) as [_ HQ].
  destruct (fst (m w)); [exact I|exact HQ|destruct HQ].
Qed.

(** X16.  The ways [main] can fail: every exit is with code 1, and a
    panic can only come from [cat-file], [ls-tree] and [commit-tree];
    [init], [hash-object] and [write-tree] never panic, whatever the
    arguments, the working tree and the files are. *)
Theorem main_failures (w : world) :
  match fst (main w) with
  | Ret _ => True
  | Exit code => code = 1
  | Panic =>
      exists command,
        Args w !! 1%nat = Some command
        /\ In command ["cat-file"; "ls-tree"; "commit-tree"]%string
  end.
Proof.
  unfold main, mbind at 1, M_bind at 1, bind at 1, os_Args.
  destruct (length (Args w) <? 2)%nat eqn:Hlen; [reflexivity|].
  destruct (Args w !! 1%nat) as [command|] eqn:Hcmd.
  2:{ apply Nat.ltb_ge in Hlen. apply lookup_ge_None_1 in Hcmd. lia. }
  unfold mbind at 1, M_bind at 1, bind at 1. cbn [checked ret].
  assert (Hyes : forall m : M unit, ends_well true m ->
            In command ["cat-file"; "ls-tree"; "commit-tree"]%string ->
            match fst (m w) with
            | Ret _ => True
            | Exit code => code = 1
            | Panic =>
                exists command0,
                  Some command = Some command0
                  /\ In command0 ["cat-file"; "ls-tree"; "commit-tree"]%string
            end).
  { intros m Hm Hin. specialize (Hm w). destruct (fst (m w)); eauto. }
  assert (Hno : forall m : M unit, ends_well false m ->
            match fst (m w) with
            | Ret _ => True
            | Exit code => code = 1
            | Panic =>
                exists command0,
                  Some command = Some command0
                  /\ In command0 ["cat-file"; "ls-tree"; "commit-tree"]%string
            end).
  { intros m Hm. specialize (Hm w). destruct (fst (m w)); auto. discriminate Hm. }
  destruct (String.eqb_spec command "init") as [->|_].
  { rewrite initRepository_eq. exact I. }
  destruct (String.eqb_spec command "cat-file") as [->|_].
  { apply Hyes; [|cbn; tauto].
    destruct (length (Args w) <? 4)%nat; [apply ends_well_exit|].
    apply ends_well_bind; [apply ends_well_checked|]. intros blobSHA. unfold catFile.
    apply ends_well_bind; [apply ends_well_checked|]. intros head2.
    apply ends_well_bind; [apply ends_well_checked|]. intros rest.
    apply ends_well_bind; [apply ends_well_readAndDecompressFile|]. intros content.
    apply ends_well_bind; [apply ends_well_checked|]. intros blobContent.
    apply ends_well_Print. }
  destruct (String.eqb_spec command "hash-object") as [->|_].
  { destruct (length (Args w) <? 4)%nat eqn:H4; [reflexivity|].
    destruct (Args w !! 3%nat) as [filename|] eqn:Hname.
    2:{ apply Nat.ltb_ge in H4. apply lookup_ge_None_1 in Hname. lia. }
    unfold mbind at 1, M_bind at 1, bind at 1. cbn [checked ret].
    unfold hashObject.
    destruct (node_at (worktree w) (path_elements filename) ≫= os_ReadFile_node)
      as [fileBytes|]; [|reflexivity].
    apply (Hno (hash ← createObject "blob" fileBytes;
                fmt_Println (hex_EncodeToString hash))).
    apply ends_well_bind; [|intros hash; apply ends_well_Print].
    eapply ends_well_outcome. apply createObject_outcome. }
  destruct (String.eqb_spec command "ls-tree") as [->|_].
  { apply Hyes; [|cbn; tauto].
    destruct (length (Args w) <? 4)%nat; [apply ends_well_exit|].
    apply ends_well_bind; [apply ends_well_checked|]. intros treeSHA. unfold lsTree.
    apply ends_well_bind; [apply ends_well_checked|]. intros head2.
    apply ends_well_bind; [apply ends_well_checked|]. intros rest.
    apply ends_well_bind; [apply ends_well_readAndDecompressFile|]. intros content.
    apply ends_well_bind; [apply ends_well_range_parts|]. intros filesAndDirs.
    apply ends_well_Print. }
  destruct (String.eqb_spec command "write-tree") as [->|_].
  { apply Hno. unfold writeTree.
    apply ends_well_bind; [now intros w'|]. intros root.
    apply ends_well_bind; [|intros treeObjectHash; apply ends_well_Print].
    eapply ends_well_outcome. apply (createTreeObjects_walk_ok root). }
  destruct (String.eqb_spec command "commit-tree") as [->|_]; [|reflexivity].
  apply Hyes; [|cbn; tauto]. unfold commitTree.
  apply ends_well_bind; [now intros w'|]. intros args'.
  apply ends_well_bind; [apply ends_well_checked|]. intros treeSHA.
  apply ends_well_bind; [apply ends_well_checked|]. intros parentCommitSHA.
  apply ends_well_bind; [apply ends_well_checked|]. intros commitMessage.
  cbv zeta. apply ends_well_bind; [|intros _; apply ends_well_Print].
  unfold writeObject.
  apply ends_well_bind; [apply ends_well_checked|]. intros head2.
  apply ends_well_bind; [apply ends_well_checked|]. intros rest.
  apply ends_well_bind; [apply ends_well_or_exit|]. intros _.
  apply ends_well_or_exit.
Qed.

End Failures.

(** ** The store stays usable *)

Lemma stays_healthy_refl (w : world) : stays_healthy w w.
Proof. now intros Hh. Qed.

Lemma stays_healthy_trans (w1 w2 w3 : world) :
  stays_healthy w1 w2 -> stays_healthy w2 w3 -> stays_healthy w1 w3.
Proof. unfold stays_healthy. auto. Qed.

Lemma healthy_init (fs : gmap path fnode) : healthy fs -> healthy (init_files fs).
Proof.
  intros (H1 & H2 & H3 & H4).
  assert (Hlook : forall q, q <> [".git"; "HEAD"]%string -> q <> [".git"; "refs"]%string ->
            forall d, fs !! q <> Some (FFile d) -> init_files fs !! q <> Some (FFile d)).
  { intros q Hh Hr d Hq. rewrite init_files_lookup.
    assert (Hmade : Some (default FDir (fs !! q)) <> Some (FFile d)).
    { destruct (fs !! q) as [[|d'']|]; cbn; congruence. }
    destruct (fs !! [".git"%string]) as [[|d']|]; try exact Hq;
      rewrite !decide_False by assumption;
      repeat case_decide; assumption. }
  repeat split.
  - intros d. apply Hlook; [discriminate..|apply H1].
  - intros d. apply Hlook; [discriminate..|apply H2].
  - intros x d. apply Hlook; [discriminate..|apply H3].
  - intros x y. rewrite init_files_lookup.
    destruct (fs !! [".git"%string]) as [[|d']|]; try apply H4;
      rewrite !decide_False by discriminate; apply H4.
Qed.

Ltac healthy_bind := apply (keeps_bind stays_healthy stays_healthy_trans).
Ltac healthy_pure :=
  first [apply (keeps_checked stays_healthy stays_healthy_refl)
        |apply (keeps_exit stays_healthy stays_healthy_refl)
        |apply (keeps_ret stays_healthy stays_healthy_refl)].

Lemma healthy_Print (s : string) : keeps stays_healthy (fmt_Print s).
Proof. now intros w Hh. Qed.

Section Healthy.
Context `{GoLib}.

Lemma healthy_writeObject (hash content : list byte) :
  length hash = SHA1.Size -> keeps stays_healthy (writeObject hash content).
Proof.
  intros Hlen w Hh.
  destruct (writeObject_spec hash content w Hlen) as (fs' & Hsnd & _ & Hput).
  destruct (put_healthy hash content (files w) Hh) as (fs2 & E & Hh2).
  rewrite E in Hput. destruct Hput as (_ & -> & _). now rewrite Hsnd.
Qed.

Lemma healthy_createObject (objectType : string) (content : list byte) :
  keeps stays_healthy (createObject objectType content).
Proof.
  unfold createObject. healthy_bind.
  - apply healthy_writeObject, Sum_length.
  - intros _. healthy_pure.
Qed.

(** X17.  A store that takes every object is left as one by every
    command, however the run ends: nothing [main] does puts a file in
    the place of [.git], [.git/objects] or one of its subdirectories,
    or a directory in the place of an object file. *)
Theorem main_keeps_store_healthy (w : world) :
  healthy (files w) -> healthy (files (snd (main w))).
Proof.
  revert w. change (keeps stays_healthy main).
  unfold main. healthy_bind; [intros w; apply stays_healthy_refl|]. intros args.
  destruct (length args <? 2)%nat; [healthy_pure|].
  healthy_bind; [healthy_pure|]. intros command.
  destruct (String.eqb command "init").
  { intros w Hh. rewrite initRepository_eq. now apply healthy_init. }
  destruct (String.eqb command "cat-file").
  { destruct (length args <? 4)%nat; [healthy_pure|].
    healthy_bind; [healthy_pure|]. intros blobSHA. unfold catFile.
    healthy_bind; [healthy_pure|]. intros head2.
    healthy_bind; [healthy_pure|]. intros rest.
    healthy_bind; [apply keeps_readAndDecompressFile, stays_healthy_refl|].
    intros content.
    healthy_bind; [healthy_pure|]. intros blobContent.
    apply healthy_Print. }
  destruct (String.eqb command "hash-object").
  { destruct (length args <? 4)%nat; [healthy_pure|].
    healthy_bind; [healthy_pure|]. intros filename w.
    unfold hashObject.
    destruct (node_at (worktree w) (path_elements filename) ≫= os_ReadFile_node)
      as [fileBytes|]; [|apply stays_healthy_refl].
    apply (keeps_bind stays_healthy stays_healthy_trans
             (createObject "blob" fileBytes)
             (fun hash => fmt_Println (hex_EncodeToString hash))).
    - apply healthy_createObject.
    - intros hash. apply healthy_Print. }
  destruct (String.eqb command "ls-tree").
  { destruct (length args <? 4)%nat; [healthy_pure|].
    healthy_bind; [healthy_pure|]. intros treeSHA. unfold lsTree.
    healthy_bind; [healthy_pure|]. intros head2.
    healthy_bind; [healthy_pure|]. intros rest.
    healthy_bind; [apply keeps_readAndDecompressFile, stays_healthy_refl|].
    intros content.
    healthy_bind;
      [apply keeps_range_parts;
         [apply stays_healthy_refl|apply stays_healthy_trans]|].
    intros filesAndDirs. apply healthy_Print. }
  destruct (String.eqb command "write-tree").
  { unfold writeTree. healthy_bind; [intros w; apply stays_healthy_refl|].
    intros root.
    healthy_bind; [|intros treeObjectHash; apply healthy_Print].
    apply keeps_createTreeObjects;
      [apply stays_healthy_refl|apply stays_healthy_trans
      |apply healthy_createObject]. }
  destruct (String.eqb command "commit-tree"); [|healthy_pure].
  unfold commitTree. healthy_bind; [intros w; apply stays_healthy_refl|].
  intros args'.
  healthy_bind; [healthy_pure|]. intros treeSHA.
  healthy_bind; [healthy_pure|]. intros parentCommitSHA.
  healthy_bind; [healthy_pure|]. intros commitMessage.
  cbv zeta. healthy_bind; [apply healthy_writeObject, Sum_length|]. intros _.
  apply healthy_Print.
Qed.

End Healthy.

Lemma main_keeps_store_healthy_witness :
  healthy (files (snd (main (empty_world sample_tree ["mygit"; "write-tree"])))).
Proof.
  apply (main_keeps_store_healthy (empty_world sample_tree ["mygit"; "write-tree"])).
  apply healthy_empty.
Defined.

(** ** [catFile] on a payload without a header *)

Section CatFilePanic.
Context `{GoLib}.

(** X18.  [catFile] takes the second of the pieces [strings.SplitN]
    gives without looking how many there are: on an object file whose
    payload has no NUL byte it panics, and prints nothing. *)
Theorem catFile_without_header (id : list byte) (w : world) (data : list byte) :
  length id = 20%nat ->
  files w !! object_path id = Some (FFile data) ->
  zlib_NewReader data = true ->
  string_forall (fun c => negb (Ascii.eqb c "000"))
    (string_of_bytes (fst (zlib_ReadAll data))) = true ->
  catFile (hex_EncodeToString id) w = (Panic, w).
Proof.
  intros Hlen Hfile Hhdr Hnul.
  destruct (blob_path_hex id Hlen) as [Hpath Hlen2].
  unfold catFile, slice_to, slice_from.
  assert (Hle : (2 <=? String.length (hex_EncodeToString id))%nat = true)
    by now apply Nat.leb_le.
  rewrite Hle. cbn [checked].
  unfold mbind, M_bind, bind, ret.
  fold (blob_path (hex_EncodeToString id)). rewrite Hpath.
  unfold readAndDecompressFile, os_ReadFile. rewrite Hfile, Hhdr.
  destruct (zlib_ReadAll data) as [bytes err]. cbn [fst] in Hnul.
  unfold strings_SplitN_2. now rewrite (strings_Cut_None _ _ Hnul).
Qed.

End CatFilePanic.

Lemma catFile_without_header_witness :
  catFile (hex_EncodeToString foreign_id)
    (World [] (Dir [] None)
       (<[object_path foreign_id := FFile (compressContent foreign_payload)]> ∅)
       EmptyString)
  = (Panic,
     World [] (Dir [] None)
       (<[object_path foreign_id := FFile (compressContent foreign_payload)]> ∅)
       EmptyString).
Proof.
  apply (catFile_without_header foreign_id
           (World [] (Dir [] None)
              (<[object_path foreign_id := FFile (compressContent foreign_payload)]> ∅)
              EmptyString)
           (compressContent foreign_payload)).
  - reflexivity.
  - apply lookup_insert_eq.
  - vm_compute. reflexivity.
  - vm_compute. reflexivity.
Defined.

Lemma writeTree_then_lsTree_witness :
  exists entries ids,
    entries ≡ₚ filter listed
                 [("src"%string, Dir [] None);
                  ("README"%string, File (Some (bytes_of_string "v0")))]
    /\ StronglySorted sibling_le entries
    /\ Forall2 (fun c id => child_id c.2 id) entries ids
    /\ stdout (snd (writeTree (empty_world listing_tree [])))
       = (hex_EncodeToString
            (ObjectID tree (concat (zip_with tree_entry entries ids))) ++ LF)%string
    /\ (forallb (fun c => unbroken c.1 && quiet c.1) entries = true ->
        forallb plain_digest ids = true ->
        quiet (fmt_d (length (concat (zip_with tree_entry entries ids)))) = true ->
        lsTree
          (hex_EncodeToString
             (ObjectID tree (concat (zip_with tree_entry entries ids))))
          (snd (writeTree (empty_world listing_tree [])))
        = (Ret tt,
           set_stdout
             (stdout (snd (writeTree (empty_world listing_tree [])))
              ++ (strings_Join entries.*1 LF ++ LF))
             (snd (writeTree (empty_world listing_tree []))))).
Proof.
  apply (writeTree_then_lsTree (empty_world listing_tree [])
           [("src"%string, Dir [] None);
            ("README"%string, File (Some (bytes_of_string "v0")))] None).
  - reflexivity.
  - vm_compute. reflexivity.
Defined.

(** ** The objects of a tree *)

Section TreeStoreFacts.
Context `{GoLib}.

Lemma objects_kept_refl (w : world) : objects_kept w w.
Proof. now intros id. Qed.

Lemma objects_kept_trans (w1 w2 w3 : world) :
  objects_kept w1 w2 -> objects_kept w2 w3 -> objects_kept w1 w3.
Proof. unfold objects_kept. auto. Qed.

Lemma object_built_kept (w w' : world) :
  objects_kept w w' ->
  forall n id, object_built (files w) n id -> object_built (files w') n id.
Proof.
  intros Hk. fix IH 3.
  intros n id [bytes Hh|children fault entries ids Hp Hs Hf Hh].
  - constructor. now apply Hk.
  - constructor; [assumption..| |now apply Hk].
    clear Hp Hs Hh.
    induction Hf as [|c i entries ids Hc Hf IHf];
      [constructor|constructor; [apply IH; exact Hc|exact IHf]].
Qed.

Lemma object_built_child_id :
  forall fs n id, object_built fs n id -> child_id n id.
Proof.
  intros fs. fix IH 3.
  intros n id [bytes Hh|children fault entries ids Hp Hs Hf Hh].
  - constructor.
  - apply child_id_tree. constructor; [assumption..|].
    clear Hp Hs Hh.
    induction Hf as [|c i entries ids Hc Hf IHf];
      [constructor|constructor; [apply IH; exact Hc|exact IHf]].
Qed.


(** Writing an object keeps the object file of every id. *)
Lemma kept_createObject (objectType : string) (content : list byte) :
  keeps objects_kept (createObject objectType content).
Proof.
  intros w id (payload & Hsum & Hfile).
  destruct (createObject_spec objectType content w) as (fs' & Hsnd & Hw & _).
  pose proof (keeps_createObject objectType content w) as (_ & _ & _ & Hgrow).
  rewrite Hsnd in *. cbn [files set_files] in *.
  set (p0 := bytes_of_string (object_payload objectType content)) in *.
  destruct (Hw (object_path id)) as [Heq|[Hdir|[Hpath Hnew]]].
  - exists payload. split; [exact Hsum|]. now rewrite Heq.
  - exfalso. destruct (Hgrow (object_path id)) as [Heq|[_ [Hnone|(d & d' & _ & Hd')]]];
      congruence.
  - assert (Hid : id = SHA1.Sum p0).
    { apply object_path_inj; [|apply Sum_length|exact Hpath].
      rewrite <- Hsum. apply Sum_length. }
    exists p0. split; [now symmetry|]. rewrite Hid in *. exact Hnew.
Qed.

Lemma kept_createTreeObjects (n : node) : keeps objects_kept (createTreeObjects n).
Proof.
  apply keeps_createTreeObjects;
    [apply objects_kept_refl|apply objects_kept_trans|apply kept_createObject].
Qed.

(** The loop over the entries returns with the object of every entry it
    lists in the store. *)
Lemma range_entries_built (entries : list DirEntry) :
  Forall (fun e => subtree e = createTreeObjects (target e)
                   /\ stores_tree (target e)) entries ->
  forall acc w hashedEntries w',
    range_entries entries acc w = (Ret hashedEntries, w') ->
    exists ids,
      hashedEntries
      = acc ++ zip_with hashed (filter (fun e => listed (child_of e)) entries) ids
      /\ Forall2 (fun e id => object_built (files w') (target e) id)
           (filter (fun e => listed (child_of e)) entries) ids.
Proof.
  induction 1 as [|e entries [Hsub Hstores] Hall IH]; intros acc w hes w' Hrun.
  - injection Hrun as <- <-. exists []. split; [|constructor].
    cbn. now rewrite app_nil_r.
  - assert (Hrest : forall acc1, keeps objects_kept (range_entries entries acc1)).
    { apply keeps_range_entries;
        [apply objects_kept_refl|apply objects_kept_trans|apply kept_createObject|].
      apply Forall_forall. intros e' He'. rewrite Forall_forall in Hall.
      destruct (Hall e' He') as [-> _]. apply kept_createTreeObjects. }
    cbn [range_entries] in Hrun. unfold IsDir in Hrun.
    destruct (target e) as [contents|children fault] eqn:Ht; cbn [node_IsDir] in Hrun.
    + assert (Hl : listed (child_of e)).
      { unfold listed, child_of. cbn [fst snd]. rewrite Ht. cbn. intros [[=] _]. }
      rewrite filter_cons_True by exact Hl.
      unfold createFileBlobObject, os_ReadFile_node, mbind, M_bind, bind in Hrun.
      destruct contents as [bytes|]; [|discriminate Hrun].
      pose proof (createObject_outcome "blob" bytes w) as [_ Hout].
      destruct (createObject "blob" bytes w) as [[id|code|] w1] eqn:E;
        try discriminate Hrun.
      cbn [fst snd] in Hout. destruct Hout as [Hid Hstored].
      rewrite (object_payload_bytes blob) in Hid, Hstored.
      assert (Hk : objects_kept w1 w').
      { match type of Hrun with
        | range_entries _ ?a _ = _ => pose proof (Hrest a w1) as Hk
        end. now rewrite Hrun in Hk. }
      destruct (IH _ _ _ _ Hrun) as (ids & -> & Hf2).
      exists (id :: ids). split.
      * rewrite <- app_assoc. cbn [app zip_with]. unfold hashed at 2.
        rewrite Ht. reflexivity.
      * constructor; [|exact Hf2]. rewrite Ht.
        apply (object_built_kept w1 w'); [exact Hk|].
        rewrite Hid in *. apply object_built_blob.
        exists (encoded_payload blob bytes). split; [reflexivity|exact Hstored].
    + destruct (String.eqb (Name e) ".git") eqn:Hgit.
      * apply String.eqb_eq in Hgit.
        rewrite filter_cons_False; [exact (IH _ _ _ _ Hrun)|].
        unfold listed, child_of. cbn [fst snd]. rewrite Ht. cbn. tauto.
      * apply String.eqb_neq in Hgit.
        assert (Hl : listed (child_of e)).
        { unfold listed, child_of. cbn [fst snd]. tauto. }
        rewrite filter_cons_True by exact Hl.
        rewrite Hsub in Hrun. unfold mbind, M_bind, bind in Hrun.
        destruct (createTreeObjects (Dir children fault) w) as [[id|code|] w1] eqn:E;
          try discriminate Hrun.
        cbv beta zeta in Hrun.
        assert (Hk : objects_kept w1 w').
        { match type of Hrun with
          | range_entries _ ?a _ = _ => pose proof (Hrest a w1) as Hk
          end. now rewrite Hrun in Hk. }
        destruct (IH _ _ _ _ Hrun) as (ids & -> & Hf2).
        exists (id :: ids). split.
        -- rewrite <- app_assoc. cbn [app zip_with]. unfold hashed at 2.
           rewrite Ht. reflexivity.
        -- constructor; [|exact Hf2].
           apply (object_built_kept w1 w'); [exact Hk|].
           rewrite Ht. apply (Hstores w id w1 E). reflexivity.
Qed.

(** A run on a directory that returns: the entries, their objects and
    the tree object. *)
Lemma createTreeObjects_stored (children : list (string * node))
    (fault : option nat) :
  Forall (fun c => stores_tree c.2) children ->
  forall w id w',
    createTreeObjects (Dir children fault) w = (Ret id, w') ->
    exists entries ids,
      entries ≡ₚ filter listed (visible fault children)
      /\ StronglySorted sibling_le entries
      /\ Forall2 (fun c id => object_built (files w') c.2 id) entries ids
      /\ id = ObjectID tree (concat (zip_with tree_entry entries ids))
      /\ files w' !! object_path id
         = Some (FFile (compressContent
                   (encoded_payload tree
                      (concat (zip_with tree_entry entries ids))))).
Proof.
  intros IH w id w' Hrun. rewrite createTreeObjects_Dir in Hrun.
  unfold mbind, M_bind, bind in Hrun.
  destruct (range_entries (dir_entries children fault) [] w)
    as [[hes|code|] w1] eqn:Eloop; try discriminate Hrun.
  assert (Hok : Forall (fun e => subtree e = createTreeObjects (target e)
                                 /\ stores_tree (target e))
                  (dir_entries children fault)).
  { rewrite dir_entries_Permutation.
    apply Forall_fmap. apply Forall_forall. intros c Hc.
    split; [reflexivity|]. cbn [entry_of target].
    rewrite Forall_forall in IH. apply IH.
    destruct fault as [k|]; cbn [visible] in Hc; [|exact Hc].
    eapply elem_of_sublist; [exact Hc | apply sublist_take]. }
  destruct (range_entries_built _ Hok _ _ _ _ Eloop) as (ids & -> & Hf2).
  set (es := filter (fun e => listed (child_of e)) (dir_entries children fault)) in *.
  pose proof (createObject_outcome "tree"
                (bytes_of_string
                   (fold_left (fun acc he => acc +:+ format_entry he)
                      ([] ++ zip_with hashed es ids) EmptyString)) w1) as [_ Hout].
  rewrite Hrun in Hout. cbn [fst snd] in Hout. destruct Hout as [Hid Hstored].
  rewrite (object_payload_bytes tree), tree_bytes in Hid, Hstored.
  exists (child_of <$> es), ids. split; [|split; [|split; [|split]]].
  - unfold es. rewrite <- filter_fmap_comm.
    apply filter_Permutation.
    rewrite dir_entries_Permutation, <- list_fmap_compose.
    rewrite (list_fmap_ext (child_of ∘ entry_of) (@Datatypes.id _) (visible fault children));
      [now rewrite list_fmap_id|].
    intros i c _. apply child_of_entry_of.
  - apply (StronglySorted_fmap child_of
             (fun a b => sibling_le (child_of a) (child_of b))); [auto|].
    apply StronglySorted_filter, dir_entries_Sorted.
  - apply Forall2_fmap_l.
    assert (Hk : objects_kept w1 w').
    { pose proof (kept_createObject "tree"
                (bytes_of_string
                   (fold_left (fun acc he => acc +:+ format_entry he)
                      ([] ++ zip_with hashed es ids) EmptyString)) w1) as Hk.
      now rewrite Hrun in Hk. }
    eapply Forall2_impl; [exact Hf2|]. intros e i He. cbn [child_of snd].
    now apply (object_built_kept w1 w').
  - exact Hid.
  - exact Hstored.
Qed.

Lemma createTreeObjects_stores (n : node) : stores_tree n.
Proof.
  induction n as [contents|children fault IH] using node_ind'.
  - intros w id w' _ [=].
  - intros w id w' Hrun _.
    destruct (createTreeObjects_stored children fault IH w id w' Hrun)
      as (entries & ids & Hp & Hs & Hf & -> & Hfile).
    constructor; try assumption.
    exists (encoded_payload tree (concat (zip_with tree_entry entries ids))).
    split; [unfold ObjectID; reflexivity|exact Hfile].
Qed.


(** What [os.ReadDir] gives depends on the entries it comes to, not on
    the order in which the directory yields them. *)
Lemma os_ReadDir_visible (children1 children2 : list (string * node))
    (fault1 fault2 : option nat) :
  NoDup (visible fault1 children1).*1 ->
  visible fault1 children1 ≡ₚ visible fault2 children2 ->
  fst (os_ReadDir (map entry_of children1) fault1)
  = fst (os_ReadDir (map entry_of children2) fault2).
Proof.
  intros Hnd Hperm.
  assert (Hseen : forall children fault,
            fst (os_ReadDir (map entry_of children) fault)
            = fst (os_ReadDir (map entry_of (visible fault children)) None)).
  { intros children [k|]; unfold os_ReadDir; cbn [fst visible]; [|reflexivity].
    f_equal. change (take k (entry_of <$> children) = entry_of <$> take k children).
    now rewrite fmap_take. }
  rewrite (Hseen children1), (Hseen children2). f_equal.
  apply os_ReadDir_Permutation.
  - change (NoDup (Name <$> (entry_of <$> visible fault1 children1))).
    now rewrite <- list_fmap_compose.
  - change (entry_of <$> visible fault1 children1
            ≡ₚ entry_of <$> visible fault2 children2).
    now rewrite Hperm.
Qed.

(** A stored object is the one written under its id, unless two
    payloads have the same digest. *)
Lemma holds_object_payload (fs : gmap path fnode) (payload : list byte) :
  holds_object fs (SHA1.Sum payload) ->
  fs !! object_path (SHA1.Sum payload) = Some (FFile (compressContent payload))
  \/ exists other,
       other <> payload /\ SHA1.Sum other = SHA1.Sum payload
       /\ fs !! object_path (SHA1.Sum payload)
          = Some (FFile (compressContent other)).
Proof.
  intros (other & Hsum & Hfile).
  destruct (decide (other = payload)) as [->|Hne]; [now left|].
  right. exists other. auto.
Qed.

(** C7.  For every directory, a run of [createTreeObjects] that returns
    has written, under the id it returns, the tree object whose content
    is the concatenation, with nothing in between, of the encodings
    [<mode> <name>\0<20 digest bytes>] of the directory's entries (all
    children listed but directories named [.git]) in sibling order, with
    mode [40000] and the id of the subdirectory's own tree object for a
    subdirectory, and mode [100644] and the id of the blob of the file's
    bytes for anything else.  The objects the digests name are in the
    store when the run returns: for a file the blob, for a subdirectory
    its tree and, in the same way, the objects of its entries, each as
    the object file of its id.  The only other outcome is exit code 1,
    and on a healthy store and a readable tree the run returns. *)
Theorem createTreeObjects_content (children : list (string * node))
    (fault : option nat) (w : world) :
  match createTreeObjects (Dir children fault) w with
  | (Ret id, w') =>
      exists entries ids,
        entries ≡ₚ filter listed (visible fault children)
        /\ StronglySorted sibling_le entries
        /\ Forall2 (fun c id => child_id c.2 id) entries ids
        /\ Forall2 (fun c id => object_built (files w') c.2 id) entries ids
        /\ id = ObjectID tree (concat (zip_with tree_entry entries ids))
        /\ files w' !! object_path id
           = Some (FFile (compressContent
                     (encoded_payload tree
                        (concat (zip_with tree_entry entries ids)))))
  | (Exit code, _) => code = 1
  | (Panic, _) => False
  end
  /\ (healthy (files w) -> readable (Dir children fault) ->
      exists id w', createTreeObjects (Dir children fault) w = (Ret id, w')).
Proof.
  split.
  - pose proof (createTreeObjects_built children fault w) as Hbuilt.
    destruct (createTreeObjects (Dir children fault) w) as [[id|code|] w'] eqn:E;
      [|exact Hbuilt..].
    assert (IH : Forall (fun c => stores_tree c.2) children).
    { apply Forall_forall. intros c _. apply createTreeObjects_stores. }
    destruct (createTreeObjects_stored children fault IH w id w' E)
      as (entries & ids & Hp & Hs & Hf & Hid & Hfile).
    exists entries, ids. repeat (split; [assumption|]).
    split; [|split; [exact Hf|split; assumption]].
    eapply Forall2_impl; [exact Hf|].
    intros c i Hc. exact (object_built_child_id _ _ _ Hc).
  - intros Hh Hr.
    destruct (createTreeObjects_walk_ok (Dir children fault)) as [_ Hret].
    destruct (Hret w Hh Hr) as (id & w' & E & _). eauto.
Qed.

(** C2.  For a directory whose entry names are pairwise distinct, the
    order in which the directory yields its children has no effect on
    the run of the tree builder: on two listings that show the same
    children (all of them or, with a read error, those that come before
    it) [createTreeObjects] does the same, so the tree id and the
    objects written are the same.  The entries are emitted in one fixed
    order, that of their names in lower case: a run that returns has
    stored, under the id it returns, the concatenation in this order of
    the encodings of the entries, each with the digest of the object
    built and stored for it. *)
Theorem tree_id_listing_order (children1 children2 : list (string * node))
    (fault1 fault2 : option nat) (w : world) :
  NoDup (visible fault1 children1).*1 ->
  visible fault1 children1 ≡ₚ visible fault2 children2 ->
  createTreeObjects (Dir children1 fault1) w
  = createTreeObjects (Dir children2 fault2) w
  /\ forall id w',
       createTreeObjects (Dir children1 fault1) w = (Ret id, w') ->
       exists entries ids,
         entries ≡ₚ filter listed (visible fault1 children1)
         /\ entries ≡ₚ filter listed (visible fault2 children2)
         /\ StronglySorted sibling_le entries
         /\ Forall2 (fun c id => child_id c.2 id) entries ids
         /\ Forall2 (fun c id => object_built (files w') c.2 id) entries ids
         /\ id = ObjectID tree (concat (zip_with tree_entry entries ids))
         /\ files w' !! object_path id
            = Some (FFile (compressContent
                      (encoded_payload tree
                         (concat (zip_with tree_entry entries ids))))).
Proof.
  intros Hnd Hperm. split.
  - rewrite !createTreeObjects_Dir. unfold dir_entries.
    now rewrite (os_ReadDir_visible children1 children2 fault1 fault2).
  - intros id w' E.
    assert (IH : Forall (fun c => stores_tree c.2) children1).
    { apply Forall_forall. intros c _. apply createTreeObjects_stores. }
    destruct (createTreeObjects_stored children1 fault1 IH w id w' E)
      as (entries & ids & Hp & Hs & Hf & Hid & Hfile).
    exists entries, ids. split; [exact Hp|]. split; [now rewrite Hp, Hperm|].
    split; [exact Hs|]. split; [|split; [exact Hf|split; assumption]].
    eapply Forall2_impl; [exact Hf|].
    intros c i Hc. exact (object_built_child_id _ _ _ Hc).
Qed.

End TreeStoreFacts.

Lemma createTreeObjects_content_witness :
  exists id w',
    createTreeObjects sample_tree (empty_world sample_tree []) = (Ret id, w').
Proof.
  apply (createTreeObjects_content
           [("sub"%string, Dir [] None);
            ("a.txt"%string, File (Some (bytes_of_string "x")))]
           None (empty_world sample_tree [])).
  - apply healthy_empty.
  - cbn. repeat split; eauto.
Defined.

Lemma tree_id_listing_order_witness :
  createTreeObjects (Dir listing_1 None) (empty_world (Dir listing_1 None) [])
  = createTreeObjects (Dir listing_2 None) (empty_world (Dir listing_1 None) [])
  /\ forall id w',
       createTreeObjects (Dir listing_1 None) (empty_world (Dir listing_1 None) [])
       = (Ret id, w') ->
       exists entries ids,
         entries ≡ₚ filter listed listing_1
         /\ entries ≡ₚ filter listed listing_2
         /\ StronglySorted sibling_le entries
         /\ Forall2 (fun c id => child_id c.2 id) entries ids
         /\ Forall2 (fun c id => object_built (files w') c.2 id) entries ids
         /\ id = ObjectID tree (concat (zip_with tree_entry entries ids))
         /\ files w' !! object_path id
            = Some (FFile (compressContent
                      (encoded_payload tree
                         (concat (zip_with tree_entry entries ids))))).
Proof.
  apply (tree_id_listing_order listing_1 listing_2 None None).
  - apply (bool_decide_unpack _). vm_compute. exact I.
  - apply perm_swap.
Defined.

(** On [sample_tree] the blob of [a.txt] and the tree of [sub] are in
    the store after the run, next to the root tree. *)
Example sample_tree_objects :
  let fs := files (snd (createTreeObjects sample_tree (empty_world sample_tree []))) in
  fs !! object_path (ObjectID blob (bytes_of_string "x"))
  = Some (FFile (compressContent (encoded_payload blob (bytes_of_string "x"))))
  /\ fs !! object_path (ObjectID tree [])
     = Some (FFile (compressContent (encoded_payload tree []))).
Proof. vm_compute. split; reflexivity. Qed.
